(** * Ultra System Cleaner: a shallow embedding of the cleanup core

    The development follows the JavaScript sources:
    - ConfigManager, the exclusion matcher ([lib/config-manager.js]);
    - SecurityManager, with the log, the validation and the backups (the
      cleaner requires it as [./security-manager]; its text follows
      ConfigManager in [lib/config-manager.js]);
    - AnalyticsManager, with the sessions and their trends (required as
      [./analytics-manager]);
    - UltraSystemCleaner, which measures and cleans ([lib/cleaner.js], the
      version that uses the two managers);
    - the command line, which turns flags and menu answers into the
      options of the cleaner (the [ultra-clean] script).

    JavaScript numbers that count bytes and files are [N]; the amounts of
    an analytics session are integers [Z], added exactly where the session
    is built; the trend calculation reads them as Numbers and works with
    the arithmetic of doubles ([Double]: round to nearest, ties to even,
    overflow to an infinity). Exceptions are explicit: a call returns
    [Ok v] or [Throw e]. Spinners, colours and console output are left
    out. *)

From Stdlib Require Import ZArith NArith QArith List String Ascii Bool Lia.
From Stdlib Require Import Qround Qpower Qabs Lqa SpecFloat.
From Stdlib Require Import DecimalString.
From stdpp Require Import base gmap strings list.

Close Scope Q_scope.
Open Scope string_scope.

(* ===================================================================== *)
(** * Part I: definitions *)
(* ===================================================================== *)

(** ** JavaScript runtime pieces *)
Module Js.

(** An error object: its [code] (empty for a plain [Error]) and message. *)
Record error := Error { code : string; message : string }.

(** Outcome of a call: a value, or a raised error. *)
Inductive exc (A : Type) :=
| Ok (v : A)
| Throw (e : error).
Arguments Ok {A} v.
Arguments Throw {A} e.

(** [Array.prototype.slice(start, end)], with the relative (negative)
    indices of the language: a negative index counts from the end and is
    clamped at 0, a positive one is clamped at the length. *)
Definition relative_index (len i : Z) : Z :=
  if (i <? 0)%Z then Z.max (len + i) 0 else Z.min i len.

Definition slice {A} (l : list A) (start : Z) (stop : option Z) : list A :=
  let len := Z.of_nat (length l) in
  let k := relative_index len start in
  let final := match stop with
               | None => len
               | Some e => relative_index len e
               end in
  firstn (Z.to_nat (final - k)) (skipn (Z.to_nat k) l).

(** Reading a property of a plain object (an object literal, or an object
    made by [JSON.parse]): its own properties come first, then those it
    inherits from [Object.prototype]. The inherited ones are functions,
    given here with their [length], except [__proto__], which is the
    prototype object itself and has no [length]. All of them are truthy
    and none of them can be iterated. *)
Inductive inherited :=
| Method (length : nat)
| Prototype.

Definition Object_prototype (name : string) : option inherited :=
  if String.eqb name "constructor" then Some (Method 1)
  else if String.eqb name "hasOwnProperty" then Some (Method 1)
  else if String.eqb name "isPrototypeOf" then Some (Method 1)
  else if String.eqb name "propertyIsEnumerable" then Some (Method 1)
  else if String.eqb name "toString" then Some (Method 0)
  else if String.eqb name "toLocaleString" then Some (Method 0)
  else if String.eqb name "valueOf" then Some (Method 0)
  else if String.eqb name "__defineGetter__" then Some (Method 2)
  else if String.eqb name "__defineSetter__" then Some (Method 2)
  else if String.eqb name "__lookupGetter__" then Some (Method 1)
  else if String.eqb name "__lookupSetter__" then Some (Method 1)
  else if String.eqb name "__proto__" then Some Prototype
  else None.

Inductive property (A : Type) :=
| Own (v : A)
| Inherited (i : inherited)
| Missing.
Arguments Own {A} v.
Arguments Inherited {A} i.
Arguments Missing {A}.

(** [o[name]] for a plain object [o] with the own properties [own]. *)
Definition get {A} (own : gmap string A) (name : string) : property A :=
  match own !! name with
  | Some v => Own v
  | None => match Object_prototype name with
            | Some i => Inherited i
            | None => Missing
            end
  end.

End Js.

(** ** JavaScript numbers *)
Module Double.

(** A Number of the language: an IEEE 754 binary64 value. A finite value is
    the rational it stands for (the two zeros are one value here: the code
    modelled divides only by array lengths and by averages it has found
    positive, so the sign of a zero never shows). *)
Inductive double :=
| Finite (q : Q)
| PosInfinity
| NegInfinity
| NaN.

(** The nearest integer, ties to the even one. *)
Definition nearest_even (y : Q) : Z :=
  let f := Qfloor y in
  match (y - inject_Z f ?= 1 # 2)%Q with
  | Lt => f
  | Gt => (f + 1)%Z
  | Eq => if Z.even f then f else (f + 1)%Z
  end.

(** [floor (log2 x)] for a positive [x]. *)
Definition exponent (x : Q) : Z :=
  let e := (Z.log2 (Qnum x) - Z.log2 (Z.pos (Qden x)))%Z in
  if Qle_bool (2 ^ e) x then e else (e - 1)%Z.

(** The exponent of the last place of the double nearest to [x]: 53
    significant bits, and never below the subnormal spacing [2^-1074]. *)
Definition ulp_exponent (x : Q) : Z :=
  Z.max (exponent (Qabs x) - 52) (-1074).

(** Rounding of an exact result to a double: to nearest, ties to even, and
    to an infinity from [2^1024] on. *)
Definition round (x : Q) : double :=
  if Qeq_bool x 0 then Finite 0 else
  let q := ulp_exponent x in
  let r := (inject_Z (nearest_even (x * 2 ^ (- q))) * 2 ^ q)%Q in
  if Qle_bool (2 ^ 1024) r then PosInfinity
  else if Qle_bool r (- 2 ^ 1024) then NegInfinity
  else Finite (Qred r).

(** An integer read as a Number (a literal of the program, an array length,
    an integer parsed from JSON). *)
Definition of_Z (z : Z) : double := round (inject_Z z).

Definition neg (a : double) : double :=
  match a with
  | Finite x => Finite (- x)
  | PosInfinity => NegInfinity
  | NegInfinity => PosInfinity
  | NaN => NaN
  end.

(** [a + b] *)
Definition add (a b : double) : double :=
  match a, b with
  | NaN, _ | _, NaN => NaN
  | Finite x, Finite y => round (x + y)
  | PosInfinity, NegInfinity | NegInfinity, PosInfinity => NaN
  | PosInfinity, _ | _, PosInfinity => PosInfinity
  | NegInfinity, _ | _, NegInfinity => NegInfinity
  end.

(** [a - b] *)
Definition sub (a b : double) : double := add a (neg b).

Definition signed (positive : bool) : double :=
  if positive then PosInfinity else NegInfinity.

(** [a * b] *)
Definition mul (a b : double) : double :=
  match a, b with
  | NaN, _ | _, NaN => NaN
  | Finite x, Finite y => round (x * y)
  | Finite x, PosInfinity | PosInfinity, Finite x =>
      if Qeq_bool x 0 then NaN else signed (Qle_bool 0 x)
  | Finite x, NegInfinity | NegInfinity, Finite x =>
      if Qeq_bool x 0 then NaN else signed (negb (Qle_bool 0 x))
  | PosInfinity, PosInfinity | NegInfinity, NegInfinity => PosInfinity
  | PosInfinity, NegInfinity | NegInfinity, PosInfinity => NegInfinity
  end.

(** [a / b] *)
Definition div (a b : double) : double :=
  match a, b with
  | NaN, _ | _, NaN => NaN
  | Finite x, Finite y =>
      if Qeq_bool y 0
      then if Qeq_bool x 0 then NaN else signed (Qle_bool 0 x)
      else round (x / y)
  | Finite _, _ => Finite 0
  | PosInfinity, Finite y => signed (Qle_bool 0 y)
  | NegInfinity, Finite y => signed (negb (Qle_bool 0 y))
  | _, _ => NaN
  end.

(** [a > b] *)
Definition gtb (a b : double) : bool :=
  match a, b with
  | Finite x, Finite y => negb (Qle_bool x y)
  | PosInfinity, (Finite _ | NegInfinity) => true
  | Finite _, NegInfinity => true
  | _, _ => false
  end.

(** [a < b] *)
Definition ltb (a b : double) : bool := gtb b a.

(** [d] holds the exact value [x]. *)
Definition holds (d : double) (x : Q) : Prop :=
  match d with
  | Finite q => (q == x)%Q
  | _ => False
  end.

(** The same values in the standard library's specification of IEEE 754
    arithmetic ([SpecFloat], here at 53 bits of precision and exponents up
    to 1024), used to check the operations above on samples. *)
Definition of_spec (f : spec_float) : double :=
  match f with
  | S754_zero _ => Finite 0
  | S754_infinity s => if s then NegInfinity else PosInfinity
  | S754_nan => NaN
  | S754_finite s m e =>
      Finite (Qred (inject_Z (if s then Z.neg m else Z.pos m) * 2 ^ e))
  end.

(** The binary64 value nearest to [m * 2^e]. *)
Definition binary64 (m e : Z) : spec_float := binary_normalize 53 1024 m e false.

End Double.
(** ** The platform's [RegExp], on the syntax [matchesPattern] can emit

    [matchesPattern] escapes [. + ^ $ { } ( ) | \] and replaces every [*] and
    [?], so the source handed to [new RegExp(_, 'i')] consists of escaped
    characters, plain characters, [.], bracket classes and [*] quantifiers.
    Text is a [string] of 8-bit code units. *)
Module RegExp.

Inductive classItem :=
| One (c : ascii)
| Range (lo hi : ascii).

Inductive atom :=
| Char (c : ascii)
| AnyChar                                     (* [.] *)
| Class (negated : bool) (items : list classItem).

Record term := Term { body : atom; starred : bool }.

Definition regex := list term.

(** *** Lexing: [\c] is one escaped character *)
Inductive token :=
| Escaped (c : ascii)
| Raw (c : ascii).

Fixpoint lex (s : string) : option (list token) :=
  match s with
  | EmptyString => Some []
  | String "\" EmptyString => None            (* [\] at end of pattern *)
  | String "\" (String c rest) => option_map (cons (Escaped c)) (lex rest)
  | String c rest => option_map (cons (Raw c)) (lex rest)
  end.

Definition token_char (t : token) : ascii :=
  match t with Escaped c | Raw c => c end.

(** *** Parsing, as one left-to-right pass *)
Inductive pending :=
| NoAtom
| Atom (a : ascii)                            (* may start a range *)
| AtomDash (a : ascii).                       (* [a-] read, end awaited *)

Inductive mode :=
| Top
| ClassStart                                  (* just after [[] *)
| InClass (negated : bool) (items : list classItem) (p : pending).

Definition flush (items : list classItem) (p : pending) : list classItem :=
  match p with
  | NoAtom => items
  | Atom a => (items ++ [One a])%list
  | AtomDash a => (items ++ [One a; One "-"%char])%list
  end.

Definition class_step (negated : bool) (items : list classItem)
    (p : pending) (t : token) : option mode :=
  match p, t with
  | AtomDash a, _ =>
      let b := token_char t in
      if (N_of_ascii a <=? N_of_ascii b)%N
      then Some (InClass negated (items ++ [Range a b])%list NoAtom)
      else None                               (* range out of order *)
  | Atom a, Raw "-" => Some (InClass negated items (AtomDash a))
  | _, _ => Some (InClass negated (flush items p) (Atom (token_char t)))
  end.

(** Characters that never reach the parser unescaped: the translation
    escapes or replaces each of them. *)
Definition outside_fragment (c : ascii) : bool :=
  existsb (Ascii.eqb c) ["?"; "+"; "("; ")"; "{"; "}"; "|"; "^"; "$"]%char.

Definition star_last (acc : regex) : option regex :=
  match rev acc with
  | Term a false :: before => Some (rev (Term a true :: before))
  | _ => None                                 (* nothing to repeat *)
  end.

Fixpoint parse (ts : list token) (m : mode) (acc : regex) : option regex :=
  match ts with
  | [] => match m with Top => Some acc | _ => None end  (* unterminated class *)
  | t :: rest =>
      match m with
      | Top =>
          match t with
          | Escaped c => parse rest Top (acc ++ [Term (Char c) false])%list
          | Raw "[" => parse rest ClassStart acc
          | Raw "." => parse rest Top (acc ++ [Term AnyChar false])%list
          | Raw "*" => match star_last acc with
                       | Some acc' => parse rest Top acc'
                       | None => None
                       end
          | Raw c => if outside_fragment c then None
                     else parse rest Top (acc ++ [Term (Char c) false])%list
          end
      | ClassStart =>
          match t with
          | Raw "^" => parse rest (InClass true [] NoAtom) acc
          | Raw "]" => parse rest Top (acc ++ [Term (Class false []) false])%list
          | _ => match class_step false [] NoAtom t with
                 | Some m' => parse rest m' acc
                 | None => None
                 end
          end
      | InClass negated items p =>
          match t with
          | Raw "]" =>
              parse rest Top (acc ++ [Term (Class negated (flush items p)) false])%list
          | _ => match class_step negated items p t with
                 | Some m' => parse rest m' acc
                 | None => None
                 end
          end
      end
  end.

(** [new RegExp(source, 'i')]: the compiled expression, or a SyntaxError. *)
Definition compile (source : string) : Js.exc regex :=
  match lex source with
  | Some ts =>
      match parse ts Top [] with
      | Some r => Js.Ok r
      | None => Js.Throw (Js.Error EmptyString ("Invalid regular expression: /" ++ source ++ "/"))
      end
  | None => Js.Throw (Js.Error EmptyString ("Invalid regular expression: /" ++ source ++ "/"))
  end.

(** *** Matching under the [i] flag *)

(** Case folding of the [i] flag (upper-casing), on Latin-1 code units. *)
Definition canonicalize (c : ascii) : ascii :=
  let n := N_of_ascii c in
  if ((97 <=? n) && (n <=? 122))%N then ascii_of_N (n - 32)
  else if ((224 <=? n) && (n <=? 254) && negb (n =? 247))%N
       then ascii_of_N (n - 32)
  else c.

Definition lower_of (c : ascii) : ascii :=
  let n := N_of_ascii c in
  if ((65 <=? n) && (n <=? 90))%N then ascii_of_N (n + 32)
  else if ((192 <=? n) && (n <=? 222) && negb (n =? 215))%N
       then ascii_of_N (n + 32)
  else c.

Definition same_char (a b : ascii) : bool :=
  Ascii.eqb (canonicalize a) (canonicalize b).

Definition in_range (lo hi c : ascii) : bool :=
  ((N_of_ascii lo <=? N_of_ascii c) && (N_of_ascii c <=? N_of_ascii hi))%N.

(** Some member of the item folds to the same character as [c]. *)
Definition item_matches (i : classItem) (c : ascii) : bool :=
  match i with
  | One a => same_char a c
  | Range lo hi =>
      in_range lo hi c || in_range lo hi (canonicalize c)
      || in_range lo hi (lower_of (canonicalize c))
  end.

Definition line_terminator (c : ascii) : bool :=
  ((N_of_ascii c =? 10) || (N_of_ascii c =? 13))%N.

Definition atom_matches (a : atom) (c : ascii) : bool :=
  match a with
  | Char p => same_char p c
  | AnyChar => negb (line_terminator c)
  | Class negated items => xorb negated (existsb (fun i => item_matches i c) items)
  end.

(** Does [r] match a prefix of [s]? *)
Fixpoint match_here (r : regex) (s : string) {struct r} : bool :=
  match r with
  | [] => true
  | t :: r' =>
      if starred t then
        (fix star (s : string) : bool :=
           match_here r' s
           || match s with
              | String c s' => atom_matches (body t) c && star s'
              | EmptyString => false
              end) s
      else
        match s with
        | String c s' => atom_matches (body t) c && match_here r' s'
        | EmptyString => false
        end
  end.

(** [regex.test(s)]: a match starting at some position of [s]. *)
Fixpoint test (r : regex) (s : string) : bool :=
  match_here r s
  || match s with
     | String _ s' => test r s'
     | EmptyString => false
     end.

End RegExp.

(** ** lib/config-manager.js: ConfigManager *)
Module ConfigManager.

Record ExcludePatterns := {
  global : option (list string);
  perCategory : option (gmap string (list string))
}.

Record Config := {
  excludePatterns : option ExcludePatterns
}.

(** [s.replace(/[.+^${}()|\\]/g, '\\$&')] *)
Definition special (c : ascii) : bool :=
  existsb (Ascii.eqb c) ["."; "+"; "^"; "$"; "{"; "}"; "("; ")"; "|"; "\"]%char.

Fixpoint escape_special (s : string) : string :=
  match s with
  | EmptyString => EmptyString
  | String c rest =>
      if special c then String "\" (String c (escape_special rest))
      else String c (escape_special rest)
  end.

(** [s.replace(/\*\*/g, '.*')] *)
Fixpoint replace_double_star (s : string) : string :=
  match s with
  | String "*" (String "*" rest) => ".*" ++ replace_double_star rest
  | String c rest => String c (replace_double_star rest)
  | EmptyString => EmptyString
  end.

(** [s.replace(/c/g, by_)] for a single character [c] *)
Fixpoint replace_char (c : ascii) (by_ : string) (s : string) : string :=
  match s with
  | EmptyString => EmptyString
  | String d rest =>
      if Ascii.eqb d c then by_ ++ replace_char c by_ rest
      else String d (replace_char c by_ rest)
  end.

(** The regular-expression source [matchesPattern] builds from [pattern]. *)
Definition regexPattern (pattern : string) : string :=
  let regexPattern := pattern in
  let regexPattern := escape_special regexPattern in
  let regexPattern := replace_double_star regexPattern in
  let regexPattern := replace_char "*" "[^/]*" regexPattern in
  replace_char "?" "[^/]" regexPattern.

Definition matchesPattern (filePath pattern : string) : bool :=
  match RegExp.compile (regexPattern pattern) with
  | Js.Ok regex => RegExp.test regex filePath
  | Js.Throw _ => false                        (* warned, not matching *)
  end.

(** Truthiness of the [category] argument: [null] and [''] are falsy. *)
Definition truthy (category : option string) : option string :=
  match category with
  | Some c => if String.eqb c EmptyString then None else Some c
  | None => None
  end.

(** [shouldExcludePath(filePath, category)]. [perCategory] is a plain
    object: for a category it only inherits (such as [constructor]) the
    read gives a function, which is truthy, and spreading it raises. *)
Definition shouldExcludePath (config : option Config) (filePath : string)
    (category : option string) : Js.exc bool :=
  match config with
  | None => Js.Ok false
  | Some cfg =>
      match excludePatterns cfg with
      | None => Js.Ok false
      | Some ep =>
          let patterns := [] in
          let patterns :=
            match global ep with
            | Some g => (patterns ++ g)%list
            | None => patterns
            end in
          let collected :=
            match truthy category, perCategory ep with
            | Some c, Some per =>
                match Js.get per c with
                | Js.Own ps => Js.Ok (patterns ++ ps)%list
                | Js.Inherited _ =>
                    Js.Throw
                      (Js.Error EmptyString
                         "Spread syntax requires ...iterable[Symbol.iterator] to be a function")
                | Js.Missing => Js.Ok patterns
                end
            | _, _ => Js.Ok patterns
            end in
          match collected with
          | Js.Ok patterns => Js.Ok (existsb (matchesPattern filePath) patterns)
          | Js.Throw e => Js.Throw e
          end
      end
  end.

End ConfigManager.

(** ** lib/config-manager.js: merging the command line into the file *)
Module ConfigMerge.

(** [config.global]; [None] is a setting the file does not give. *)
Record GlobalSettings := {
  g_dryRun : option bool;
  g_verbose : option bool;
  g_parallel : option bool;
  g_backup : option bool
}.

(** An entry of [config.customPaths]. *)
Record CustomPath := {
  cp_enabled : option bool;
  cp_category : string;
  cp_paths : list string
}.

(** The parsed configuration file, with the fields [mergeOptions] and
    [getCustomPathsForCategory] read; its [excludePatterns] is the object
    [shouldExcludePath] reads. *)
Record FullConfig := {
  cfg_global : option GlobalSettings;
  cfg_customPaths : option (list CustomPath);
  cfg_excludePatterns : option ConfigManager.ExcludePatterns
}.

(** The options object, on the command line and after the merge; [None]
    is [undefined]. *)
Record Options := {
  dryRun : option bool;
  verbose : option bool;
  parallel : option bool;
  backup : option bool;
  customPaths : option (list CustomPath);
  excludePatterns : option ConfigManager.ExcludePatterns
}.

(** [cli !== undefined ? cli : file] *)
Definition prefer (cli file : option bool) : option bool :=
  match cli with
  | Some v => Some v
  | None => file
  end.

(** [mergeOptions(cliOptions)] *)
Definition mergeOptions (config : option FullConfig) (cliOptions : Options)
    : Js.exc Options :=
  match config with
  | None => Js.Ok cliOptions
  | Some config =>
      let merged := cliOptions in
      let merged :=
        match cfg_global config with
        | Some g =>
            {| dryRun := prefer (dryRun cliOptions) (g_dryRun g);
               verbose := prefer (verbose cliOptions) (g_verbose g);
               parallel := prefer (parallel cliOptions) (g_parallel g);
               backup := prefer (backup cliOptions) (g_backup g);
               customPaths := customPaths merged;
               excludePatterns := excludePatterns merged |}
        | None => merged
        end in
      let merged :=
        match cfg_customPaths config with
        | Some cps =>
            {| dryRun := dryRun merged; verbose := verbose merged;
               parallel := parallel merged; backup := backup merged;
               customPaths :=
                 Some (List.filter
                         (fun cp => match cp_enabled cp with
                                    | Some false => false
                                    | _ => true
                                    end) cps);
               excludePatterns := excludePatterns merged |}
        | None => merged
        end in
      match cfg_excludePatterns config with
      | Some ep =>
          match ConfigManager.global ep with
          | None =>
              Js.Throw (Js.Error EmptyString
                          "this.config.excludePatterns.global is not iterable")
          | Some fromFile =>
              let fromCli :=
                match excludePatterns cliOptions with
                | Some cep => match ConfigManager.global cep with
                              | Some g => g
                              | None => []
                              end
                | None => []
                end in
              Js.Ok
                {| dryRun := dryRun merged; verbose := verbose merged;
                   parallel := parallel merged; backup := backup merged;
                   customPaths := customPaths merged;
                   excludePatterns :=
                     Some {| ConfigManager.global := Some (fromCli ++ fromFile)%list;
                             ConfigManager.perCategory :=
                               Some match ConfigManager.perCategory ep with
                                    | Some per => per
                                    | None => ∅
                                    end |} |}
          end
      | None => Js.Ok merged
      end
  end.

(** [getCustomPathsForCategory(category)] *)
Definition getCustomPathsForCategory (config : option FullConfig)
    (category : string) : list string :=
  match config with
  | None => []
  | Some config =>
      match cfg_customPaths config with
      | None => []
      | Some cps =>
          flat_map cp_paths
            (List.filter
               (fun cp => match cp_enabled cp with
                          | Some true => String.eqb (cp_category cp) category
                          | _ => false
                          end) cps)
      end
  end.

End ConfigMerge.

(** ** The file system the program runs against

    A finite tree of regular files and directories behind POSIX paths.
    Directory entries of other kinds (links, devices) are outside the model.
    Which calls the platform refuses (permissions, busy files) is decided by
    the [denied] oracle of the environment, keyed by call and path. *)
Module Fs.

Inductive op :=
| Access | AccessRW | Readdir | Stat | Unlink | Rmdir | Mkdir
| Cp | CopyFile | WriteFile | ReadFile | AppendFile.

(** One entry of the manifest written by [createManifestBackup]. *)
Record manifestFile := {
  mf_name : string;
  mf_path : string;
  mf_isDirectory : bool;
  mf_size : N
}.

Record Manifest := {
  sourcePath : string;
  files : list manifestFile
}.

(** What [JSON.parse] makes of a file's text. *)
Inductive content :=
| Opaque                       (* not JSON: [JSON.parse] throws *)
| ManifestJson (m : Manifest)  (* an object with [type: 'manifest'] *)
| OtherJson                    (* any other JSON value with properties *)
| NullJson.                    (* [null]: reading [.type] throws *)

#[warnings="-register-all"] Inductive node :=
| File (size : N) (data : content)
| Dir (entries : list (string * node)).

Record Env := {
  denied : op -> string -> bool;
  dirSize : N;                       (* [stat.size] of a directory *)
  jsonSize : Manifest -> N;          (* bytes of a serialised manifest *)
  homedir : string;                  (* [os.homedir()] *)
  idAt : N -> string                 (* the n-th [Date.now()]-random id *)
}.

(** The calls that change the tree, as issued. *)
Inductive call :=
| CallRimraf (p : string)
| CallMkdir (p : string)
| CallCp (src dst : string)
| CallCopyFile (src dst : string)
| CallWriteFile (p : string).

(** *** Paths *)
Fixpoint split_slash (s cur : string) : list string :=
  match s with
  | EmptyString => [cur]
  | String c rest =>
      if Ascii.eqb c "/" then cur :: split_slash rest EmptyString
      else split_slash rest (cur ++ String c EmptyString)
  end.

Definition segments (p : string) : list string :=
  filter (fun s => negb (String.eqb s EmptyString)) (split_slash p EmptyString).

(** [path.join(a, b)]: the segments of both, separated by single slashes
    ([.] and [..] segments are not resolved). *)
Definition join (a b : string) : string :=
  ((if String.prefix "/" a then "/" else EmptyString)
   ++ String.concat "/" (segments a ++ segments b)%list).

(** *** The tree *)
Fixpoint find (name : string) (es : list (string * node)) : option node :=
  match es with
  | [] => None
  | (n, c) :: rest => if String.eqb n name then Some c else find name rest
  end.

Fixpoint set (name : string) (c : node) (es : list (string * node))
    : list (string * node) :=
  match es with
  | [] => [(name, c)]
  | (n, d) :: rest =>
      if String.eqb n name then (n, c) :: rest else (n, d) :: set name c rest
  end.

Fixpoint unset (name : string) (es : list (string * node))
    : list (string * node) :=
  match es with
  | [] => []
  | (n, d) :: rest =>
      if String.eqb n name then rest else (n, d) :: unset name rest
  end.

Fixpoint lookup (n : node) (segs : list string) : option node :=
  match segs with
  | [] => Some n
  | s :: rest =>
      match n with
      | Dir es => match find s es with
                  | Some c => lookup c rest
                  | None => None
                  end
      | File _ _ => None
      end
  end.

(** Put [new] at [segs]; the parent directory has to exist. *)
Fixpoint put (n : node) (segs : list string) (new : node) : option node :=
  match segs with
  | [] => Some new
  | s :: rest =>
      match n with
      | Dir es =>
          match rest with
          | [] => Some (Dir (set s new es))
          | _ => match find s es with
                 | Some c => match put c rest new with
                             | Some c' => Some (Dir (set s c' es))
                             | None => None
                             end
                 | None => None
                 end
          end
      | File _ _ => None
      end
  end.

Fixpoint remove (n : node) (segs : list string) : node :=
  match segs with
  | [] => n
  | s :: rest =>
      match n with
      | Dir es =>
          match rest with
          | [] => Dir (unset s es)
          | _ => match find s es with
                 | Some c => Dir (set s (remove c rest) es)
                 | None => n
                 end
          end
      | File _ _ => n
      end
  end.

(** [mkdir -p]: create the missing directories along [segs]. *)
Fixpoint mkdirp (n : node) (segs : list string) : option node :=
  match n with
  | File _ _ => None
  | Dir es =>
      match segs with
      | [] => Some n
      | s :: rest =>
          let c := match find s es with
                   | Some c => c
                   | None => Dir []
                   end in
          match mkdirp c rest with
          | Some c' => Some (Dir (set s c' es))
          | None => None
          end
      end
  end.

Section Calls.
Variable env : Env.

Definition sys_error (code call_ p : string) : Js.error :=
  Js.Error code (code ++ ": " ++ call_ ++ " '" ++ p ++ "'").

Record Stats := { isDirectory : bool; st_size : N }.
Record Dirent := { name : string; dirent_isDirectory : bool }.

Definition is_dir (n : node) : bool :=
  match n with Dir _ => true | File _ _ => false end.

(** [fs.access(p)] and [fs.access(p, R_OK | W_OK)] *)
Definition access (root : node) (p : string) : Js.exc unit :=
  match lookup root (segments p) with
  | None => Js.Throw (sys_error "ENOENT" "access" p)
  | Some _ => if denied env Access p
              then Js.Throw (sys_error "EACCES" "access" p)
              else Js.Ok tt
  end.

Definition access_rw (root : node) (p : string) : Js.exc unit :=
  match lookup root (segments p) with
  | None => Js.Throw (sys_error "ENOENT" "access" p)
  | Some _ => if denied env AccessRW p
              then Js.Throw (sys_error "EACCES" "access" p)
              else Js.Ok tt
  end.

Definition stat_node (p : string) (n : node) : Js.exc Stats :=
  if denied env Stat p then Js.Throw (sys_error "EACCES" "stat" p)
  else match n with
       | File size _ => Js.Ok {| isDirectory := false; st_size := size |}
       | Dir _ => Js.Ok {| isDirectory := true; st_size := dirSize env |}
       end.

Definition stat (root : node) (p : string) : Js.exc Stats :=
  match lookup root (segments p) with
  | None => Js.Throw (sys_error "ENOENT" "stat" p)
  | Some n => stat_node p n
  end.

(** [fs.readdir(p, { withFileTypes: true })] *)
Definition readdir (root : node) (p : string) : Js.exc (list Dirent) :=
  match lookup root (segments p) with
  | None => Js.Throw (sys_error "ENOENT" "scandir" p)
  | Some (File _ _) => Js.Throw (sys_error "ENOTDIR" "scandir" p)
  | Some (Dir es) =>
      if denied env Readdir p then Js.Throw (sys_error "EACCES" "scandir" p)
      else Js.Ok (map (fun e => {| name := fst e;
                                    dirent_isDirectory := is_dir (snd e) |}) es)
  end.

Definition readFile (root : node) (p : string) : Js.exc content :=
  match lookup root (segments p) with
  | None => Js.Throw (sys_error "ENOENT" "open" p)
  | Some (Dir _) => Js.Throw (sys_error "EISDIR" "read" p)
  | Some (File _ data) =>
      if denied env ReadFile p then Js.Throw (sys_error "EACCES" "open" p)
      else Js.Ok data
  end.

(** What [rimraf] leaves of a node: [None] when it is gone, the residue
    when some entry could not be removed. *)
Fixpoint purge (p : string) (n : node) : option node :=
  match n with
  | File _ _ => if denied env Unlink p then Some n else None
  | Dir es =>
      let left :=
        (fix each (es : list (string * node)) : list (string * node) :=
           match es with
           | [] => []
           | (nm, c) :: rest =>
               match purge (join p nm) c with
               | None => each rest
               | Some c' => (nm, c') :: each rest
               end
           end) es in
      match left with
      | [] => if denied env Rmdir p then Some (Dir []) else None
      | _ => Some (Dir left)
      end
  end.

(** [rimraf(p)]: a missing path is fine; the root is refused; a residue is
    an error. *)
Definition rimraf (root : node) (p : string) : Js.exc unit * node :=
  match segments p, lookup root (segments p) with
  | [], _ => (Js.Throw (sys_error "EPERM" "rimraf" p), root)
  | _, None => (Js.Ok tt, root)
  | _, Some n =>
      match purge p n with
      | None => (Js.Ok tt, remove root (segments p))
      | Some residue =>
          (Js.Throw (sys_error "EACCES" "rimraf" p),
           match put root (segments p) residue with
           | Some root' => root'
           | None => root
           end)
      end
  end.

(** [fs.mkdir(p, { recursive: true })] *)
Definition mkdir (root : node) (p : string) : Js.exc unit * node :=
  if denied env Mkdir p then (Js.Throw (sys_error "EACCES" "mkdir" p), root)
  else match mkdirp root (segments p) with
       | Some root' => (Js.Ok tt, root')
       | None => (Js.Throw (sys_error "EEXIST" "mkdir" p), root)
       end.

Definition write (call_ : string) (root : node) (dst : string) (new : node)
    : Js.exc unit * node :=
  match segments dst with
  | [] => (Js.Throw (sys_error "EISDIR" call_ dst), root)
  | segs => match put root segs new with
            | Some root' => (Js.Ok tt, root')
            | None => (Js.Throw (sys_error "ENOENT" call_ dst), root)
            end
  end.

(** [fs.cp(src, dst, { recursive: true })]. A copy the platform refuses
    is refused before anything is created and leaves the tree as it was; a
    copy that fails part-way, leaving a partial destination behind, is not
    among the faults modelled. *)
Definition cp (root : node) (src dst : string) : Js.exc unit * node :=
  match lookup root (segments src) with
  | None => (Js.Throw (sys_error "ENOENT" "cp" src), root)
  | Some n =>
      if denied env Cp src || denied env Cp dst
      then (Js.Throw (sys_error "EACCES" "cp" src), root)
      else write "cp" root dst n
  end.

Definition copyFile (root : node) (src dst : string) : Js.exc unit * node :=
  match lookup root (segments src) with
  | None => (Js.Throw (sys_error "ENOENT" "copyfile" src), root)
  | Some (Dir _) => (Js.Throw (sys_error "EISDIR" "copyfile" src), root)
  | Some (File size data) =>
      if denied env CopyFile src || denied env CopyFile dst
      then (Js.Throw (sys_error "EACCES" "copyfile" src), root)
      else write "copyfile" root dst (File size data)
  end.

Definition writeFile (root : node) (p : string) (size : N) (data : content)
    : Js.exc unit * node :=
  if denied env WriteFile p
  then (Js.Throw (sys_error "EACCES" "open" p), root)
  else match lookup root (segments p) with
       | Some (Dir _) => (Js.Throw (sys_error "EISDIR" "open" p), root)
       | _ => write "open" root p (File size data)
       end.

End Calls.

End Fs.

(** ** lib/analytics-manager.js *)
Module AnalyticsManager.

(** [operationData], as built by [trackOperation] (without its id,
    timestamp, duration and metadata). *)
Record operationData := {
  op_type : string;
  category : string;
  description : string;
  filesAffected : Z;
  sizeRecovered : Z;
  success : bool;
  op_error : option string
}.

Record sessionSummary := {
  filesCleaned : Z;
  spaceRecovered : Z;
  areasProcessed : Z;
  errors : Z
}.

Record session := {
  operations : list operationData;
  summary : sessionSummary
}.

(** The [operation] argument of [trackOperation]: every field is optional
    in the source ([operation.files || 0], [operation.success !== false]). *)
Record operation := {
  type_ : option string;
  category_ : option string;
  description_ : option string;
  files_ : option Z;
  size_ : option Z;
  success_ : option bool;
  error_ : option string
}.

Definition or_string (o : option string) (d : string) : string :=
  match o with
  | Some s => if String.eqb s EmptyString then d else s
  | None => d
  end.

Definition or_zero (o : option Z) : Z :=
  match o with Some z => z | None => 0%Z end.

Definition currentSession0 : session :=
  {| operations := [];
     summary := {| filesCleaned := 0; spaceRecovered := 0;
                   areasProcessed := 0; errors := 0 |} |}.

(** [trackOperation(operation)] on the current session. The counters are
    integers and are added exactly, which is the arithmetic of the
    language as long as the amounts are integers and the totals stay below
    [2^53]. *)
Definition trackOperation (enableAnalytics : bool) (operation : operation)
    (currentSession : session) : session :=
  if negb enableAnalytics then currentSession else
  let operationData :=
    {| op_type := or_string (type_ operation) "unknown";
       category := or_string (category_ operation) "general";
       description := or_string (description_ operation) EmptyString;
       filesAffected := or_zero (files_ operation);
       sizeRecovered := or_zero (size_ operation);
       success := match success_ operation with
                  | Some false => false
                  | _ => true
                  end;
       op_error := match error_ operation with
                   | Some e => if String.eqb e EmptyString then None else Some e
                   | None => None
                   end |} in
  let s := summary currentSession in
  {| operations := operations currentSession ++ [operationData];
     summary :=
       if success operationData then
         {| filesCleaned := filesCleaned s + filesAffected operationData;
            spaceRecovered := spaceRecovered s + sizeRecovered operationData;
            areasProcessed := areasProcessed s + 1;
            errors := errors s |}
       else
         {| filesCleaned := filesCleaned s;
            spaceRecovered := spaceRecovered s;
            areasProcessed := areasProcessed s;
            errors := errors s + 1 |} |}.

Inductive trendLabel := increasing | decreasing | stable.

(** The object returned by [calculateTrends]: either
    [{ trend: 'insufficient_data' }] or the four numeric fields. *)
Inductive trends :=
| insufficient_data
| numeric (trend : trendLabel)
          (recentAverage previousAverage changePercent : Double.double).

Definition space (s : session) : Z := spaceRecovered (summary s).

(** [l.reduce((sum, s) => sum + s.summary.spaceRecovered, 0)]: the amount
    of each session is read as a Number (the history comes from
    [JSON.parse], which reads an integer as the nearest double), and each
    addition rounds. *)
Definition sumSpace (l : list session) : Double.double :=
  fold_left (fun sum s => Double.add sum (Double.of_Z (space s)))
            l (Double.of_Z 0).

(** [sumSpace(l) / l.length] *)
Definition average (l : list session) : Double.double :=
  Double.div (sumSpace l) (Double.of_Z (Z.of_nat (length l))).

Definition calculateTrends (sessions : list session) : trends :=
  if (Z.of_nat (length sessions) <? 2)%Z then insufficient_data else
  let recent := Js.slice sessions (-7) None in
  let previous := Js.slice sessions (-14) (Some (-7)%Z) in
  if (length recent =? 0)%nat || (length previous =? 0)%nat
  then insufficient_data else
  let recentAvg := average recent in
  let previousAvg := average previous in
  let trend := if Double.gtb recentAvg previousAvg then increasing
               else if Double.ltb recentAvg previousAvg then decreasing
               else stable in
  numeric trend recentAvg previousAvg
          (if Double.gtb previousAvg (Double.of_Z 0)
           then Double.mul
                  (Double.div (Double.sub recentAvg previousAvg) previousAvg)
                  (Double.of_Z 100)
           else Double.of_Z 0).

(** The [trend] field as the string the source stores. *)
Definition trend_string (t : trends) : string :=
  match t with
  | insufficient_data => "insufficient_data"
  | numeric increasing _ _ _ => "increasing"
  | numeric decreasing _ _ _ => "decreasing"
  | numeric stable _ _ _ => "stable"
  end.

(** [spaceRecovered] grows strictly along the history. *)
Definition strictly_increasing (sessions : list session) : Prop :=
  forall i j si sj, (i < j)%nat ->
    sessions !! i = Some si -> sessions !! j = Some sj ->
    (space si < space sj)%Z.

(** Executable check of the same, on neighbours. *)
Fixpoint ascending (l : list session) : bool :=
  match l with
  | a :: (b :: _) as t => (space a <? space b)%Z && ascending t
  | _ => true
  end.

Definition session_of (recovered : Z) : session :=
  {| operations := [];
     summary := {| filesCleaned := 0; spaceRecovered := recovered;
                   areasProcessed := 1; errors := 0 |} |}.

End AnalyticsManager.

(** ** Process state and the effect monad *)
Module Process.

Inductive level := ERROR | WARN | INFO | DEBUG | SUCCESS.

(** An entry of [operationLog] (its [context] payload and timestamp are
    presentation and are left out). *)
Record logEntry := { lvl : level; msg : string }.

Record BackupRecord := {
  id : string;
  originalPath : string;
  backupPath : string;
  operation : string;
  timestamp : N;
  size : N
}.

(** [this.stats] of the cleaner. *)
Record Stats := {
  totalCleaned : N;
  totalFiles : N;
  areasProcessed : N
}.

Record State := {
  root : Fs.node;                                (* the file tree *)
  calls : list Fs.call;                          (* tree-changing calls issued *)
  operationLog : list logEntry;                  (* securityManager.operationLog *)
  logFile : list logEntry;                       (* lines of the log file *)
  backups : gmap string BackupRecord;            (* securityManager.backups *)
  ticks : N;                                     (* clock and id supply *)
  currentSession : AnalyticsManager.session;     (* analyticsManager *)
  stats : Stats
}.

Definition with_root (r : Fs.node) (c : list Fs.call) (st : State) : State :=
  {| root := r; calls := c; operationLog := operationLog st;
     logFile := logFile st; backups := backups st; ticks := ticks st;
     currentSession := currentSession st; stats := stats st |}.

Definition with_log (l f : list logEntry) (st : State) : State :=
  {| root := root st; calls := calls st; operationLog := l;
     logFile := f; backups := backups st; ticks := ticks st;
     currentSession := currentSession st; stats := stats st |}.

Definition with_backups (b : gmap string BackupRecord) (st : State) : State :=
  {| root := root st; calls := calls st; operationLog := operationLog st;
     logFile := logFile st; backups := b; ticks := ticks st;
     currentSession := currentSession st; stats := stats st |}.

Definition with_ticks (t : N) (st : State) : State :=
  {| root := root st; calls := calls st; operationLog := operationLog st;
     logFile := logFile st; backups := backups st; ticks := t;
     currentSession := currentSession st; stats := stats st |}.

Definition with_session (s : AnalyticsManager.session) (st : State) : State :=
  {| root := root st; calls := calls st; operationLog := operationLog st;
     logFile := logFile st; backups := backups st; ticks := ticks st;
     currentSession := s; stats := stats st |}.

Definition with_stats (s : Stats) (st : State) : State :=
  {| root := root st; calls := calls st; operationLog := operationLog st;
     logFile := logFile st; backups := backups st; ticks := ticks st;
     currentSession := currentSession st; stats := s |}.

(** A computation: it ends with a value or a raised error, and a state. *)
Definition M (A : Type) : Type := State -> Js.exc A * State.

Definition ret {A} (v : A) : M A := fun st => (Js.Ok v, st).

Definition throw {A} (e : Js.error) : M A := fun st => (Js.Throw e, st).

Definition bind {A B} (m : M A) (k : A -> M B) : M B :=
  fun st =>
    match m st with
    | (Js.Ok v, st') => k v st'
    | (Js.Throw e, st') => (Js.Throw e, st')
    end.

(** [try { m } catch (error) { handler }] *)
Definition try_catch {A} (m : M A) (handler : Js.error -> M A) : M A :=
  fun st =>
    match m st with
    | (Js.Ok v, st') => (Js.Ok v, st')
    | (Js.Throw e, st') => handler e st'
    end.

Definition gets {A} (f : State -> A) : M A := fun st => (Js.Ok (f st), st).

Definition modify (f : State -> State) : M unit := fun st => (Js.Ok tt, f st).

Definition lift {A} (f : Fs.node -> Js.exc A) : M A :=
  fun st => (f (root st), st).

Definition change {A} (c : Fs.call) (f : Fs.node -> Js.exc A * Fs.node) : M A :=
  fun st =>
    let (r, root') := f (root st) in
    (r, with_root root' (calls st ++ [c]) st).

(** [m] always ends with a value. *)
Definition returns {A} (m : M A) : Prop :=
  forall st, exists v st', m st = (Js.Ok v, st').

(** [m] leaves the component [f] of the state alone, however it ends. *)
Definition keeps {A B} (f : State -> B) (m : M A) : Prop :=
  forall st, f (snd (m st)) = f st.

End Process.

Declare Scope proc_scope.
Delimit Scope proc_scope with proc.
Notation "'let*' x ':=' c1 'in' c2" := (Process.bind c1 (fun x => c2))
  (at level 10, x pattern, c1 at level 100, c2 at level 200) : proc_scope.
Notation "c1 ';;' c2" := (Process.bind c1 (fun _ => c2))
  (at level 100, c2 at level 200, right associativity) : proc_scope.

(** ** lib/security-manager.js: SecurityManager *)
Module SecurityManager.
Import Process.
Local Open Scope proc_scope.

Record Options := {
  enableLogging : bool;
  enableBackup : bool;
  backupLocation : string;
  logLocation : string
}.

Section Methods.
Variable env : Fs.Env.
Variable options : Options.

(** [logToFile]: appends one line; a failed append is swallowed. ([log]
    does not await it; the line is appended at once here.) The log file is
    kept apart from the file tree [root]: its lines are [logFile], whatever
    happens to the tree. This is the behaviour of the program for targets
    that do not hold the file at [logLocation]; what is stated about the
    tree of a target that holds it is stated under that condition. *)
Definition logToFile (entry : logEntry) : M unit :=
  modify (fun st =>
    if Fs.denied env Fs.AppendFile (logLocation options) then st
    else with_log (operationLog st) (logFile st ++ [entry]) st).

(** [log(level, message, context)] *)
Definition log (level : level) (message : string) : M unit :=
  let logEntry := {| lvl := level; msg := message |} in
  modify (fun st => with_log (operationLog st ++ [logEntry]) (logFile st) st) ;;
  if enableLogging options then logToFile logEntry else ret tt.

Fixpoint for_each {A} (l : list A) (f : A -> M unit) : M unit :=
  match l with
  | [] => ret tt
  | x :: rest => f x ;; for_each rest f
  end.

Fixpoint map_each {A B} (l : list A) (f : A -> M B) : M (list B) :=
  match l with
  | [] => ret []
  | x :: rest => let* y := f x in
                 let* ys := map_each rest f in
                 ret (y :: ys)
  end.

(** [s.includes(sub)] *)
Definition includes (s sub : string) : bool :=
  match String.index 0 sub s with
  | Some _ => true
  | None => false
  end.

Definition systemPaths : list string :=
  [ Fs.join (Fs.homedir env) "AppData";
    "C:\Windows"; "C:\Program Files"; "/System"; "/usr"; "/etc" ].

(** [validateOperation(targetPath, operation)] *)
Definition validateOperation (targetPath operation : string) : M bool :=
  try_catch
    ( lift (fun r => Fs.access env r targetPath) ;;
      try_catch
        (lift (fun r => Fs.access_rw env r targetPath))
        (fun _ => throw (Js.Error EmptyString
                           ("Insufficient permissions for: " ++ targetPath))) ;;
      for_each systemPaths (fun systemPath =>
        if includes targetPath systemPath
           && negb (String.prefix (Fs.homedir env) targetPath)
        then log WARN ("Operating on system path: " ++ targetPath)
        else ret tt) ;;
      log INFO ("Operation validated: " ++ operation) ;;
      ret true )
    (fun error =>
      log ERROR ("Operation validation failed: " ++ Js.message error) ;;
      ret false).

(** [Date.now()] *)
Definition now : M N :=
  fun st => (Js.Ok (ticks st), with_ticks (N.succ (ticks st)) st).

(** [`${Date.now()}-${Math.random().toString(36).substr(2, 9)}`] *)
Definition fresh_id : M string :=
  fun st => (Js.Ok (Fs.idAt env (ticks st)), with_ticks (N.succ (ticks st)) st).

(** [getBackupSize(backupPath)] *)
Definition getBackupSize (backupPath : string) : M N :=
  try_catch
    (let* stat := lift (fun r => Fs.stat env r backupPath) in
     ret (Fs.st_size stat))
    (fun _ => ret 0%N).

(** [createManifestBackup(sourcePath, backupPath)] *)
Definition createManifestBackup (sourcePath backupPath : string) : M unit :=
  try_catch
    (let* items := lift (fun r => Fs.readdir env r sourcePath) in
     let* files :=
       map_each items (fun item =>
         let itemPath := Fs.join sourcePath (Fs.name item) in
         let* stat := lift (fun r => Fs.stat env r itemPath) in
         ret {| Fs.mf_name := Fs.name item;
                Fs.mf_path := itemPath;
                Fs.mf_isDirectory := Fs.dirent_isDirectory item;
                Fs.mf_size := Fs.st_size stat |}) in
     let manifest := {| Fs.sourcePath := sourcePath; Fs.files := files |} in
     change (Fs.CallWriteFile backupPath)
       (fun r => Fs.writeFile env r backupPath (Fs.jsonSize env manifest)
                              (Fs.ManifestJson manifest)))
    (fun error =>
       throw (Js.Error EmptyString
                ("Failed to create manifest backup: " ++ Js.message error))).

(** [createDirectoryBackup(sourcePath, backupPath)] *)
Definition createDirectoryBackup (sourcePath backupPath : string) : M unit :=
  try_catch
    (change (Fs.CallCp sourcePath backupPath)
            (fun r => Fs.cp env r sourcePath backupPath))
    (fun _ => createManifestBackup sourcePath backupPath).

(** [createFileBackup(sourcePath, backupPath)] *)
Definition createFileBackup (sourcePath backupPath : string) : M unit :=
  change (Fs.CallCopyFile sourcePath backupPath)
         (fun r => Fs.copyFile env r sourcePath backupPath).

(** [createBackup(targetPath, operation)]: [None] is [null]. *)
Definition createBackup (targetPath operation : string) : M (option string) :=
  if negb (enableBackup options) then ret None else
  try_catch
    (let* backupId := fresh_id in
     let backupPath :=
       Fs.join (backupLocation options) (backupId ++ ".backup") in
     log INFO ("Creating backup for " ++ operation) ;;
     let* stat := lift (fun r => Fs.stat env r targetPath) in
     (if Fs.isDirectory stat
      then createDirectoryBackup targetPath backupPath
      else createFileBackup targetPath backupPath) ;;
     let* timestamp := now in
     let* size := getBackupSize backupPath in
     modify (fun st =>
       with_backups
         (<[backupId := {| id := backupId;
                           originalPath := targetPath;
                           backupPath := backupPath;
                           operation := operation;
                           timestamp := timestamp;
                           size := size |}]> (backups st)) st) ;;
     log SUCCESS ("Backup created: " ++ backupId) ;;
     ret (Some backupId))
    (fun error =>
       log ERROR ("Failed to create backup: " ++ Js.message error) ;;
       ret None).

(** The state in which [createBackup] examines its target: an id has been
    drawn and the start of the backup has been logged. *)
Definition backup_started (operation : string) (st : State) : State :=
  snd (log INFO ("Creating backup for " ++ operation)
         (with_ticks (N.succ (ticks st)) st)).

(** The state [createBackup] hands back when its [try] block raised [e]
    in state [st1]. *)
Definition backup_failed (e : Js.error) (st1 : State) : State :=
  snd (log ERROR ("Failed to create backup: " ++ Js.message e) st1).

Definition copy_step (targetPath backupPath : string) (stat : Fs.Stats)
    : M unit :=
  if Fs.isDirectory stat
  then createDirectoryBackup targetPath backupPath
  else createFileBackup targetPath backupPath.

(** [JSON.parse(text)] followed by the read of [.type] *)
Definition JSON_parse (text : Fs.content) : M Fs.content :=
  match text with
  | Fs.Opaque => throw (Js.Error EmptyString "Unexpected token in JSON")
  | parsed => ret parsed
  end.

(** [restoreBackup(backupId)] *)
Definition restoreBackup (backupId : string) : M bool :=
  let* backup := gets (fun st => backups st !! backupId) in
  match backup with
  | None => throw (Js.Error EmptyString ("Backup not found: " ++ backupId))
  | Some backup =>
      try_catch
        (log INFO ("Restoring from backup: " ++ backupId) ;;
         let* backupContent :=
           lift (fun r => Fs.readFile env r (backupPath backup)) in
         let* manifest := JSON_parse backupContent in
         match manifest with
         | Fs.NullJson =>
             throw (Js.Error EmptyString
                      "Cannot read properties of null (reading 'type')")
         | Fs.ManifestJson m =>
             for_each (Fs.files m) (fun file =>
               if Fs.mf_isDirectory file
               then change (Fs.CallMkdir (Fs.mf_path file))
                           (fun r => Fs.mkdir env r (Fs.mf_path file))
               else log WARN ("Cannot restore file content from manifest: "
                              ++ Fs.mf_path file))
         | _ =>
             change (Fs.CallCp (backupPath backup) (originalPath backup))
                    (fun r => Fs.cp env r (backupPath backup)
                                    (originalPath backup))
         end ;;
         log SUCCESS ("Backup restored: " ++ backupId) ;;
         ret true)
        (fun error =>
           log ERROR ("Failed to restore backup: " ++ Js.message error) ;;
           ret false)
  end.

End Methods.

End SecurityManager.

(** ** lib/cleaner.js: UltraSystemCleaner *)
Module Cleaner.
Import Process.
Local Open Scope proc_scope.

Record Options := {
  dryRun : bool;
  mode : string;
  customAreas : option (list string);
  enableBackup : bool;
  enableLogging : bool;
  enableAnalytics : bool
}.

(** An entry of the table built by [getCleanupPaths]. *)
Record pathInfo := {
  path : string;
  description : string;
  category : string
}.

(** The [{ size, count }] objects the cleaner passes around. *)
Record SizeCount := { size : N; count : N }.

(** [totalSize] and [fileCount]: the two variables of [getFolderSize] that
    every activation of [calculateRecursive] shares. *)
Record Totals := { totalSize : N; fileCount : N }.

Definition snapshot (t : Totals) : SizeCount :=
  {| size := totalSize t; count := fileCount t |}.

Section Methods.
Variable env : Fs.Env.
Variable options : Options.

(** The constructor's [new SecurityManager({ enableBackup, enableLogging })],
    with the manager's default locations. *)
Definition securityOptions : SecurityManager.Options :=
  {| SecurityManager.enableLogging := enableLogging options;
     SecurityManager.enableBackup := enableBackup options;
     SecurityManager.backupLocation :=
       Fs.join (Fs.homedir env) ".ultra-cleaner-backups";
     SecurityManager.logLocation :=
       Fs.join (Fs.homedir env) ".ultra-cleaner.log" |}.

(** [calculateRecursive(currentPath)], on the directory [here] found at
    [currentPath]. It returns its result together with the shared totals;
    the result is a snapshot of those totals at the time of the return. *)
Fixpoint calculateRecursive (currentPath : string) (here : Fs.node)
    (t : Totals) {struct here} : SizeCount * Totals :=
  match here with
  | Fs.File _ _ => (snapshot t, t)               (* readdir throws: skipped *)
  | Fs.Dir items =>
      if Fs.denied env Fs.Readdir currentPath
      then (snapshot t, t)                       (* readdir throws: skipped *)
      else
        let t' :=
          (fix each (items : list (string * Fs.node)) (t : Totals) : Totals :=
             match items with
             | [] => t
             | (name, item) :: rest =>
                 let fullPath := Fs.join currentPath name in
                 match item with
                 | Fs.Dir _ =>
                     let (subResult, t1) := calculateRecursive fullPath item t in
                     each rest
                       {| totalSize := totalSize t1 + size subResult;
                          fileCount := fileCount t1 + count subResult |}
                 | Fs.File _ _ =>
                     match Fs.stat_node env fullPath item with
                     | Js.Ok stat =>
                         each rest
                           {| totalSize := totalSize t + Fs.st_size stat;
                              fileCount := fileCount t + 1 |}
                     | Js.Throw _ => each rest t  (* skipped *)
                     end
                 end
             end) items t in
        (snapshot t', t')
  end.

(** The outermost activation: [readdir] also fails on a missing path. *)
Definition calculateRecursive_from (root : Fs.node) (folderPath : string)
    (t : Totals) : SizeCount * Totals :=
  match Fs.lookup root (Fs.segments folderPath) with
  | None => (snapshot t, t)                      (* readdir throws: skipped *)
  | Some here => calculateRecursive folderPath here t
  end.

(** [getFolderSize(folderPath, showProgress)] *)
Definition getFolderSize (folderPath : string) (showProgress : bool)
    : M SizeCount :=
  try_catch
    (let totals := {| totalSize := 0; fileCount := 0 |} in
     let* result :=
       gets (fun st => fst (calculateRecursive_from (root st) folderPath totals)) in
     ret result)
    (fun _ => ret {| size := 0; count := 0 |}).

(** What [getFolderSize] reports for [folderPath] on a given tree. *)
Definition measure (root : Fs.node) (folderPath : string) : SizeCount :=
  fst (calculateRecursive_from root folderPath
         {| totalSize := 0; fileCount := 0 |}).


Definition add_stats (size count : N) : M unit :=
  modify (fun st =>
    with_stats {| totalCleaned := totalCleaned (stats st) + size;
                  totalFiles := totalFiles (stats st) + count;
                  areasProcessed := areasProcessed (stats st) + 1 |} st).

Definition trackOperation (operation : AnalyticsManager.operation) : M unit :=
  modify (fun st =>
    with_session
      (AnalyticsManager.trackOperation (enableAnalytics options) operation
                                       (currentSession st)) st).

(** [cleanPath(targetPath, description, category)] *)
Definition cleanPath (targetPath description category : string)
    : M SizeCount :=
  try_catch
    (let* isValid :=
       SecurityManager.validateOperation env securityOptions targetPath "delete" in
     if negb isValid then ret {| size := 0; count := 0 |} else
     let* exists_ :=
       try_catch (lift (fun r => Fs.access env r targetPath) ;; ret true)
                 (fun _ => ret false) in
     if negb exists_ then ret {| size := 0; count := 0 |} else
     let* measured := getFolderSize targetPath false in
     let size := size measured in
     let count := count measured in
     if (size =? 0)%N then ret {| size := 0; count := 0 |} else
     let* backupId :=
       (if enableBackup options && negb (dryRun options)
        then
          let* backupId :=
            SecurityManager.createBackup env securityOptions targetPath "delete" in
          SecurityManager.log env securityOptions INFO
            ("Backup created for deletion: " ++ description) ;;
          ret backupId
        else ret None) in
     if dryRun options then
       add_stats size count ;;
       ret {| size := size; count := count |}
     else
       change (Fs.CallRimraf targetPath) (fun r => Fs.rimraf env r targetPath) ;;
       try_catch
         (change (Fs.CallMkdir targetPath) (fun r => Fs.mkdir env r targetPath))
         (fun _ => ret tt) ;;
       add_stats size count ;;
       SecurityManager.log env securityOptions SUCCESS
         ("Cleanup completed: " ++ description) ;;
       trackOperation
         {| AnalyticsManager.type_ := Some "cleanup";
            AnalyticsManager.category_ := Some category;
            AnalyticsManager.description_ := Some description;
            AnalyticsManager.files_ := Some (Z.of_N count);
            AnalyticsManager.size_ := Some (Z.of_N size);
            AnalyticsManager.success_ := Some true;
            AnalyticsManager.error_ := None |} ;;
       ret {| size := size; count := count |})
    (fun error =>
       SecurityManager.log env securityOptions ERROR
         ("Cleanup failed: " ++ description) ;;
       trackOperation
         {| AnalyticsManager.type_ := Some "cleanup";
            AnalyticsManager.category_ := Some category;
            AnalyticsManager.description_ := Some description;
            AnalyticsManager.files_ := Some 0%Z;
            AnalyticsManager.size_ := Some 0%Z;
            AnalyticsManager.success_ := Some false;
            AnalyticsManager.error_ := Some (Js.message error) |} ;;
       ret {| size := 0; count := 0 |}).


(** The areas [run] walks through. *)
Definition areasToClean : list string :=
  if String.eqb (mode options) "quick" then ["system"; "user"; "npm"]
  else match customAreas options with
       | Some areas => areas
       | None => ["system"; "user"; "browsers"; "apps"; "npm"; "logs"]
       end.

(** The cleaning loop of [run()], over the table [paths] that
    [getCleanupPaths()] built: every listed path goes to [cleanPath]. The
    table is a plain object, so an area it does not list can still read
    as a function it inherits; when that function has a non-zero [length]
    the test passes and the [for ... of] over it raises, outside any
    [try]. (The initialisation before the loop and the npm subprocess and
    the reports after it are not part of the model.) *)
Definition run (paths : gmap string (list pathInfo)) : M unit :=
  SecurityManager.for_each areasToClean (fun area =>
    match Js.get paths area with
    | Js.Own ((_ :: _) as entries) =>
        SecurityManager.for_each entries (fun pathInfo =>
          cleanPath (path pathInfo) (description pathInfo) (category pathInfo) ;;
          ret tt)
    | Js.Own [] => ret tt
    | Js.Inherited (Js.Method (S _)) =>
        throw (Js.Error EmptyString "paths[area] is not iterable")
    | Js.Inherited _ => ret tt
    | Js.Missing => ret tt
    end).

End Methods.


(** Sum of the sizes of the regular files below a node, each counted once,
    and their number: what a measurement is meant to return. *)
Fixpoint bytes_below (n : Fs.node) : N :=
  match n with
  | Fs.File size _ => size
  | Fs.Dir items =>
      (fix sum (items : list (string * Fs.node)) : N :=
         match items with
         | [] => 0
         | (_, item) :: rest => bytes_below item + sum rest
         end) items
  end%N.

Fixpoint files_below (n : Fs.node) : N :=
  match n with
  | Fs.File _ _ => 1
  | Fs.Dir items =>
      (fix sum (items : list (string * Fs.node)) : N :=
         match items with
         | [] => 0
         | (_, item) :: rest => files_below item + sum rest
         end) items
  end%N.

End Cleaner.

(** ** lib/security-manager.js: rollback and operation summary *)
Module SecurityOps.
Import Process.
Local Open Scope proc_scope.

(** The object returned by [getOperationSummary] (without the session id). *)
Record Summary := {
  totalOperations : nat;
  errors : nat;
  warnings : nat;
  successes : nat;
  backupCount : nat
}.

Definition is_level (l : level) (e : logEntry) : bool :=
  match l, lvl e with
  | ERROR, ERROR | WARN, WARN | INFO, INFO | DEBUG, DEBUG
  | SUCCESS, SUCCESS => true
  | _, _ => false
  end.

(** [getOperationSummary()] *)
Definition getOperationSummary (st : State) : Summary :=
  let errors := length (List.filter (is_level ERROR) (operationLog st)) in
  let warnings := length (List.filter (is_level WARN) (operationLog st)) in
  let successes := length (List.filter (is_level SUCCESS) (operationLog st)) in
  {| totalOperations := length (operationLog st);
     errors := errors;
     warnings := warnings;
     successes := successes;
     backupCount := stdpp.base.size (backups st) |}.

(** [backup.operationId]: the records [createBackup] stores carry no such
    property, so the read gives [undefined]. *)
Definition operationId_of (backup : BackupRecord) : option string := None.

(** [a === operationId] for a string [operationId] *)
Definition strictly_equal (a : option string) (operationId : string) : bool :=
  match a with
  | Some s => String.eqb s operationId
  | None => false
  end.

Section Methods.
Variable env : Fs.Env.
Variable options : SecurityManager.Options.

(** [rollbackOperation(operationId)], called with a string. The order in
    which [this.backups.values()] is walked is the map's insertion order in
    the source and the key order here. *)
Definition rollbackOperation (operationId : string) : M unit :=
  let* relatedBackups :=
    gets (fun st =>
      List.filter (fun backup => strictly_equal (operationId_of backup) operationId)
             (map snd (map_to_list (backups st)))) in
  SecurityManager.for_each relatedBackups (fun backup =>
    SecurityManager.restoreBackup env options (id backup) ;; ret tt) ;;
  SecurityManager.log env options SUCCESS
    ("Operation rolled back: " ++ operationId).

End Methods.

(** [s.endsWith(suffix)] *)
Definition endsWith (s suffix : string) : bool :=
  let n := String.length s in
  let m := String.length suffix in
  (m <=? n)%nat && String.eqb (String.substring (n - m) m s) suffix.

(** [fs.unlink(p)]: removes a regular file and refuses a directory (with
    EISDIR; some platforms answer EPERM). *)
Definition unlink (env : Fs.Env) (root : Fs.node) (p : string)
    : Js.exc unit * Fs.node :=
  match Fs.lookup root (Fs.segments p) with
  | None => (Js.Throw (Fs.sys_error "ENOENT" "unlink" p), root)
  | Some (Fs.Dir _) => (Js.Throw (Fs.sys_error "EISDIR" "unlink" p), root)
  | Some (Fs.File _ _) =>
      if Fs.denied env Fs.Unlink p
      then (Js.Throw (Fs.sys_error "EACCES" "unlink" p), root)
      else (Js.Ok tt, Fs.remove root (Fs.segments p))
  end.

Section Retention.
Variable env : Fs.Env.
Variable options : SecurityManager.Options.
Variable retentionDays : Z.            (* [options.retentionDays] *)
Variable mtime : string -> Z.          (* [stat.mtime.getTime()] of a path *)

(** [await fs.unlink(filePath)] on the tree of the state. (The list
    [calls] records the calls of the cleaner and of the backup copies.) *)
Definition unlinks (filePath : string) : M unit :=
  fun st =>
    let (r, root') := unlink env (root st) filePath in
    (r, with_root root' (calls st) st).

(** [cleanupOldBackups()] *)
Definition cleanupOldBackups : M unit :=
  try_catch
    (let* files :=
       lift (fun r => Fs.readdir env r (SecurityManager.backupLocation options)) in
     let* t := SecurityManager.now in
     let cutoffTime := (Z.of_N t - retentionDays * 24 * 60 * 60 * 1000)%Z in
     SecurityManager.for_each files (fun file =>
       if endsWith (Fs.name file) ".backup" then
         let filePath :=
           Fs.join (SecurityManager.backupLocation options) (Fs.name file) in
         let* stat := lift (fun r => Fs.stat env r filePath) in
         if (mtime filePath <? cutoffTime)%Z then
           unlinks filePath ;;
           SecurityManager.log env options INFO
             ("Cleaned old backup: " ++ Fs.name file)
         else ret tt
       else ret tt))
    (fun error =>
       SecurityManager.log env options WARN
         ("Failed to cleanup old backups: " ++ Js.message error)).

End Retention.

End SecurityOps.

(** ** Notions used to state properties of the matcher *)
Module MatcherSpec.

(** A text with every letter folded as the [i] flag folds it: two texts
    that differ only in letter case have the same folding. *)
Fixpoint fold_case (s : string) : string :=
  match s with
  | EmptyString => EmptyString
  | String c rest => String (RegExp.canonicalize c) (fold_case rest)
  end.

End MatcherSpec.

(** ** Notions used to state properties of the analytics session *)
Module AnalyticsSpec.
Import AnalyticsManager.

(** The operations of a list that succeeded, and those that failed. *)
Definition succeeded (ops : list operationData) : list operationData :=
  List.filter success ops.

Definition failed (ops : list operationData) : list operationData :=
  List.filter (fun op => negb (success op)) ops.

Definition total (f : operationData -> Z) (ops : list operationData) : Z :=
  fold_right (fun op sum => (f op + sum)%Z) 0%Z ops.

(** The summary of a session says what its list of operations says. *)
Definition consistent (s : session) : Prop :=
  areasProcessed (summary s) = Z.of_nat (length (succeeded (operations s))) /\
  errors (summary s) = Z.of_nat (length (failed (operations s))) /\
  filesCleaned (summary s) = total filesAffected (succeeded (operations s)) /\
  spaceRecovered (summary s) = total sizeRecovered (succeeded (operations s)).

(** [trackOperation] called on each operation in turn. *)
Definition track_all (enableAnalytics : bool) (ops : list operation)
    (s : session) : session :=
  fold_left (fun s op => trackOperation enableAnalytics op s) ops s.

(** The amounts [trackOperation] reads from the operations it is given. *)
Definition files_given (ops : list operation) : Z :=
  fold_right (fun op sum => (or_zero (files_ op) + sum)%Z) 0%Z ops.

Definition size_given (ops : list operation) : Z :=
  fold_right (fun op sum => (or_zero (size_ op) + sum)%Z) 0%Z ops.

(** Operations whose additions are exact in the language: the amounts are
    non-negative integers and their totals stay below [2^53]; an array
    holds fewer than [2^32] entries. *)
Definition safe_amounts (ops : list operation) : Prop :=
  Forall (fun op => (0 <= or_zero (files_ op))%Z /\
                    (0 <= or_zero (size_ op))%Z) ops /\
  (files_given ops < 2 ^ 53)%Z /\
  (size_given ops < 2 ^ 53)%Z /\
  (Z.of_nat (length ops) < 2 ^ 32)%Z.

(** The exact sum and the exact mean of [spaceRecovered] over sessions. *)
Definition exact_sum (l : list session) : Z :=
  fold_right (fun s t => (space s + t)%Z) 0%Z l.

Definition exact_mean (l : list session) : Q :=
  (inject_Z (exact_sum l) / inject_Z (Z.of_nat (length l)))%Q.

(** Every amount of the history is an integer below [2^50] in magnitude
    (a pebibyte, when it counts bytes). *)
Definition moderate (l : list session) : Prop :=
  forall s, In s l -> (Z.abs (space s) < 2 ^ 50)%Z.

End AnalyticsSpec.

(** ** Notions used to state properties of the file tree *)
Module FsSpec.

Definition mem (s : string) (names : list string) : bool :=
  existsb (String.eqb s) names.

Fixpoint distinct (names : list string) : bool :=
  match names with
  | [] => true
  | n :: rest => negb (mem n rest) && distinct rest
  end.

(** No directory of the tree lists a name twice. *)
Fixpoint well_formed (n : Fs.node) : bool :=
  match n with
  | Fs.File _ _ => true
  | Fs.Dir es =>
      distinct (map fst es)
      && (fix each (es : list (string * Fs.node)) : bool :=
            match es with
            | [] => true
            | (_, c) :: rest => well_formed c && each rest
            end) es
  end.

(** Nothing is left at [segs]: no entry, or an empty directory. *)
Definition cleared (segs : list string) (root : Fs.node) : Prop :=
  Fs.lookup root segs = None \/ Fs.lookup root segs = Some (Fs.Dir []).

(** Every directory of [before] is still a directory in [after]. *)
Definition keeps_directories (before after : Fs.node) : Prop :=
  forall segs es,
    Fs.lookup before segs = Some (Fs.Dir es) ->
    exists es', Fs.lookup after segs = Some (Fs.Dir es').

(** The path [p] is [dir] itself or lies below it. *)
Fixpoint is_prefix (a b : list string) : bool :=
  match a, b with
  | [], _ => true
  | x :: a', y :: b' => String.eqb x y && is_prefix a' b'
  | _ :: _, [] => false
  end.

Definition holds (dir p : string) : bool :=
  is_prefix (Fs.segments dir) (Fs.segments p).

End FsSpec.

(** ** Notions used to state properties of the cleaner *)
Module CleanerSpec.
Import Process Cleaner.

(** Every counter of [a] is at most the same counter of [b]. *)
Definition stats_le (a b : Stats) : Prop :=
  (totalCleaned a <= totalCleaned b)%N /\
  (totalFiles a <= totalFiles b)%N /\
  (areasProcessed a <= areasProcessed b)%N.

(** [m] never lowers a counter, however it ends. *)
Definition grows {A} (m : M A) : Prop :=
  forall st, stats_le (stats st) (stats (snd (m st))).

(** What one activation of [calculateRecursive] does to the shared totals:
    they grow by at least what lies below the directory, and they stay at
    zero when nothing lies below it. *)
Definition walk_bounds (env : Fs.Env) (n : Fs.node) : Prop :=
  forall currentPath t,
    match n with
    | Fs.File _ _ => True
    | Fs.Dir _ =>
        let t' := snd (calculateRecursive env currentPath n t) in
        fst (calculateRecursive env currentPath n t) = snapshot t' /\
        (totalSize t + bytes_below n <= totalSize t')%N /\
        (fileCount t + files_below n <= fileCount t')%N /\
        (totalSize t = 0%N -> bytes_below n = 0%N -> totalSize t' = 0%N) /\
        (fileCount t = 0%N -> files_below n = 0%N -> fileCount t' = 0%N)
    end.

(** How a computation started in [st] ends: with a value and a state in
    [Q], or with an error and a state in [E]. *)
Definition ends {A} (m : M A) (st : State)
    (Q : A -> State -> Prop) (E : Js.error -> State -> Prop) : Prop :=
  match m st with
  | (Js.Ok v, st') => Q v st'
  | (Js.Throw e, st') => E e st'
  end.





(** Every tree-changing call [m] issues satisfies [P]. *)
Definition issues {A} (P : Fs.call -> Prop) (m : M A) : Prop :=
  forall st, exists new,
    calls (snd (m st)) = (calls st ++ new)%list /\ Forall P new.

(** The calls that cleaning [targetPath] may issue: the removal and the
    re-creation of the target itself, and copies of the target or a
    manifest written to [<backupLocation>/<id>.backup]. *)
Definition allowed_call (backupLocation targetPath : string) (c : Fs.call)
    : Prop :=
  match c with
  | Fs.CallRimraf p | Fs.CallMkdir p => p = targetPath
  | Fs.CallCp src dst | Fs.CallCopyFile src dst =>
      src = targetPath /\
      exists id, dst = Fs.join backupLocation (id ++ ".backup")
  | Fs.CallWriteFile p =>
      exists id, p = Fs.join backupLocation (id ++ ".backup")
  end.

(** An area the loop of [run] cannot walk: the table does not list it,
    and it names a function with parameters that every plain object
    inherits ([constructor], [hasOwnProperty], ...). *)
Definition unwalkable (paths : gmap string (list pathInfo)) (area : string)
    : Prop :=
  paths !! area = None /\
  exists n, Js.Object_prototype area = Some (Js.Method (S n)).

(** [m] keeps the property [I] of the file tree, however it ends. *)
Definition preserves {A} (I : Fs.node -> Prop) (m : M A) : Prop :=
  forall st, I (root st) -> I (root (snd (m st))).

(** [m] only appends to the list [f] of the state. *)
Definition extends {A X} (f : State -> list X) (m : M A) : Prop :=
  forall st, exists new, f (snd (m st)) = (f st ++ new)%list.

End CleanerSpec.

(** ** bin/ultra-clean: the command line *)
Module Cli.

(** The parsed command line: each flag is present or not. *)
Record Flags := {
  quick : bool;
  deep : bool;
  interactive : bool;
  dryRun : bool;
  verbose : bool;
  yes : bool
}.

(** The entries of the mode menu. *)
Inductive Choice := ChoiceQuick | ChoiceDeep | ChoiceCustom | ChoiceDryRun.

(** What the user answers when asked: the entry picked in the menu, the
    areas ticked in the multi-select (asked for [custom] only) and the
    answer to the confirmation (asked unless a dry run was picked).
    Answers are taken as given; an aborted prompt is not modelled. *)
Record Answers := {
  chosen : Choice;
  areas : list string;
  confirmed : bool
}.

(** The object handed to [new UltraSystemCleaner(_)]; [None] is a property
    the object does not have. *)
Record cleanupOptions := {
  co_verbose : option bool;
  co_dryRun : option bool;
  co_skipConfirmation : option bool;
  co_mode : option string;
  co_customAreas : option (list string)
}.

Inductive outcome :=
| Exit (code : Z)                     (* [process.exit(code)] *)
| Run (options : cleanupOptions).     (* the cleaner is built and run *)

(** [interactiveMode()] *)
Definition interactiveMode (answers : Answers) : outcome :=
  let mode := chosen answers in
  let options :=
    {| co_verbose := Some true; co_dryRun := None;
       co_skipConfirmation := None; co_mode := None;
       co_customAreas := None |} in
  let options :=
    match mode with
    | ChoiceDryRun =>
        {| co_verbose := co_verbose options; co_dryRun := Some true;
           co_skipConfirmation := co_skipConfirmation options;
           co_mode := co_mode options;
           co_customAreas := co_customAreas options |}
    | _ => options
    end in
  let options :=
    match mode with
    | ChoiceCustom =>
        {| co_verbose := co_verbose options; co_dryRun := co_dryRun options;
           co_skipConfirmation := co_skipConfirmation options;
           co_mode := co_mode options;
           co_customAreas := Some (areas answers) |}
    | _ => options
    end in
  match co_dryRun options with
  | Some true => Run options
  | _ => if confirmed answers then Run options else Exit 0
  end.

(** The action of [main()], up to the construction of the cleaner. *)
Definition main (options : Flags) (answers : Answers) : outcome :=
  let cleanupOptions :=
    {| co_verbose := Some (verbose options || false);
       co_dryRun := Some (dryRun options || false);
       co_skipConfirmation := Some (yes options || false);
       co_mode := None; co_customAreas := None |} in
  if negb (quick options) && negb (deep options) && negb (interactive options)
  then interactiveMode answers
  else if interactive options || (negb (quick options) && negb (deep options))
  then interactiveMode answers
  else
    Run (if quick options then
           {| co_verbose := co_verbose cleanupOptions;
              co_dryRun := co_dryRun cleanupOptions;
              co_skipConfirmation := co_skipConfirmation cleanupOptions;
              co_mode := Some "quick";
              co_customAreas := co_customAreas cleanupOptions |}
         else if deep options then
           {| co_verbose := co_verbose cleanupOptions;
              co_dryRun := co_dryRun cleanupOptions;
              co_skipConfirmation := co_skipConfirmation cleanupOptions;
              co_mode := Some "deep";
              co_customAreas := co_customAreas cleanupOptions |}
         else cleanupOptions).

(** The [options] of a cleaner built from [cleanupOptions]: the defaults of
    the constructor, overridden by the properties that are present. *)
Definition constructor (options : cleanupOptions) : Cleaner.Options :=
  {| Cleaner.dryRun := default false (co_dryRun options);
     Cleaner.mode := default "interactive" (co_mode options);
     Cleaner.customAreas := co_customAreas options;
     Cleaner.enableBackup := true;
     Cleaner.enableLogging := true;
     Cleaner.enableAnalytics := true |}.

End Cli.

(** ** Concrete inputs used by the examples below *)
Module Fixtures.
Import Process.

Definition history14 : list AnalyticsManager.session :=
  map AnalyticsManager.session_of
      [10; 20; 30; 40; 50; 60; 70; 80; 90; 100; 110; 120; 130; 140]%Z.

(** Fourteen growing amounts next to the largest double: each is a double
    ([m * 2^971] with [m] below [2^53]), and any two of them add up to more
    than a double can hold. *)
Definition huge_history : list AnalyticsManager.session :=
  map (fun k => AnalyticsManager.session_of ((2 ^ 53 - 14 + k) * 2 ^ 971)%Z)
      [0; 1; 2; 3; 4; 5; 6; 7; 8; 9; 10; 11; 12; 13]%Z.

(** A platform that refuses nothing. *)
Definition env (denied : Fs.op -> string -> bool) : Fs.Env :=
  {| Fs.denied := denied;
     Fs.dirSize := 4096;
     Fs.jsonSize := fun m => (64 + 32 * N.of_nat (length (Fs.files m)))%N;
     Fs.homedir := "/home/u";
     Fs.idAt := fun n => "b" ++ NilEmpty.string_of_uint (N.to_uint n) |}.

Definition permissive : Fs.op -> string -> bool := fun _ _ => false.

(** Files in use: nothing under [/tmp/fixture] can be unlinked. *)
Definition busy : Fs.op -> string -> bool :=
  fun o p =>
    match o with
    | Fs.Unlink => String.prefix "/tmp/fixture" p
    | _ => false
    end.

(** A backup directory that cannot be written to. *)
Definition sealed : Fs.op -> string -> bool :=
  fun o p =>
    match o with
    | Fs.Cp | Fs.CopyFile | Fs.WriteFile =>
        String.prefix "/home/u/.ultra-cleaner-backups" p
    | _ => false
    end.

(** [/tmp/fixture] holds three files totalling 150 bytes. *)
Definition fixture : Fs.node :=
  Fs.Dir [ ("a.tmp", Fs.File 100 Fs.Opaque);
           ("b.tmp", Fs.File 30 Fs.Opaque);
           ("c.tmp", Fs.File 20 Fs.Opaque) ].

(** A directory with a file and a sub-directory holding one more file. *)
Definition nested : Fs.node :=
  Fs.Dir [ ("a.log", Fs.File 10 Fs.Opaque);
           ("sub", Fs.Dir [ ("b.log", Fs.File 5 Fs.Opaque) ]) ].

(** A directory of zero-byte files. *)
Definition hollow : Fs.node :=
  Fs.Dir [ ("x.lock", Fs.File 0 Fs.Opaque);
           ("y.lock", Fs.File 0 Fs.Opaque) ].

Definition disk : Fs.node :=
  Fs.Dir [ ("tmp", Fs.Dir [ ("fixture", fixture);
                            ("nested", nested);
                            ("hollow", hollow) ]);
           ("home", Fs.Dir [ ("u", Fs.Dir [ (".ultra-cleaner-backups", Fs.Dir []) ]) ]) ].

Definition stats0 : Stats :=
  {| totalCleaned := 0; totalFiles := 0; areasProcessed := 0 |}.

Definition state0 : State :=
  {| root := disk; calls := []; operationLog := []; logFile := [];
     backups := ∅; ticks := 0;
     currentSession := AnalyticsManager.currentSession0;
     stats := stats0 |}.

Definition real_run : Cleaner.Options :=
  {| Cleaner.dryRun := false; Cleaner.mode := "custom";
     Cleaner.customAreas := Some ["user"]; Cleaner.enableBackup := true;
     Cleaner.enableLogging := true; Cleaner.enableAnalytics := true |}.

Definition preview : Cleaner.Options :=
  {| Cleaner.dryRun := true; Cleaner.mode := "dry-run";
     Cleaner.customAreas := Some ["user"]; Cleaner.enableBackup := true;
     Cleaner.enableLogging := true; Cleaner.enableAnalytics := true |}.

(** A configuration with the global exclude pattern [/tmp/fixture]. *)
Definition excluding : ConfigManager.Config :=
  {| ConfigManager.excludePatterns :=
       Some {| ConfigManager.global := Some ["/tmp/fixture"];
               ConfigManager.perCategory := None |} |}.

(** The same, with patterns of its own for the category [logs]. *)
Definition excluding_by_category : ConfigManager.Config :=
  {| ConfigManager.excludePatterns :=
       Some {| ConfigManager.global := Some ["/tmp/fixture"];
               ConfigManager.perCategory := Some {[ "logs" := ["*.log"] ]} |} |}.

(** The custom path of the end-to-end scenario, as the only target. *)
Definition targets : gmap string (list Cleaner.pathInfo) :=
  {[ "user" := [ {| Cleaner.path := "/tmp/fixture";
                    Cleaner.description := "fixture";
                    Cleaner.category := "user" |} ] ]}.

(** A backup record whose file is not on disk. *)
Definition orphan : BackupRecord :=
  {| id := "b7"; originalPath := "/tmp/fixture";
     backupPath := "/home/u/.ultra-cleaner-backups/b7.backup";
     operation := "delete"; timestamp := 7; size := 150 |}.

Definition state_with_orphan : State :=
  with_backups {[ "b7" := orphan ]} state0.

(** A backup of [/tmp/fixture] kept as a copy of the directory. *)
Definition disk_with_copy : Fs.node :=
  Fs.Dir [ ("tmp", Fs.Dir [ ("fixture", fixture);
                            ("nested", nested);
                            ("hollow", hollow) ]);
           ("home", Fs.Dir [ ("u", Fs.Dir [ (".ultra-cleaner-backups",
                                             Fs.Dir [ ("b7.backup", fixture) ]) ]) ]) ].

Definition state_with_copy : State :=
  with_backups {[ "b7" := orphan ]} (with_root disk_with_copy [] state0).

(** A backup of [/tmp/nested] kept as a manifest. *)
Definition listing : Fs.Manifest :=
  {| Fs.sourcePath := "/tmp/nested";
     Fs.files :=
       [ {| Fs.mf_name := "a.log"; Fs.mf_path := "/tmp/nested/a.log";
            Fs.mf_isDirectory := false; Fs.mf_size := 10 |};
         {| Fs.mf_name := "sub"; Fs.mf_path := "/tmp/nested/sub";
            Fs.mf_isDirectory := true; Fs.mf_size := 4096 |} ] |}.

Definition listed : BackupRecord :=
  {| id := "b3"; originalPath := "/tmp/nested";
     backupPath := "/home/u/.ultra-cleaner-backups/b3.backup";
     operation := "delete"; timestamp := 3; size := 128 |}.

Definition disk_with_manifest : Fs.node :=
  Fs.Dir [ ("tmp", Fs.Dir [ ("fixture", fixture);
                            ("nested", nested);
                            ("hollow", hollow) ]);
           ("home", Fs.Dir [ ("u", Fs.Dir [ (".ultra-cleaner-backups",
                      Fs.Dir [ ("b3.backup",
                                Fs.File 128 (Fs.ManifestJson listing)) ]) ]) ]) ].

Definition state_with_manifest : State :=
  with_backups {[ "b3" := listed ]} (with_root disk_with_manifest [] state0).

(** [ultra-clean --dry-run] and [ultra-clean --quick --dry-run]. *)
Definition dry_run_only : Cli.Flags :=
  {| Cli.quick := false; Cli.deep := false; Cli.interactive := false;
     Cli.dryRun := true; Cli.verbose := false; Cli.yes := false |}.

Definition quick_dry_run : Cli.Flags :=
  {| Cli.quick := true; Cli.deep := false; Cli.interactive := false;
     Cli.dryRun := true; Cli.verbose := false; Cli.yes := false |}.

(** The user picks "Quick Clean" and confirms. *)
Definition picks_quick : Cli.Answers :=
  {| Cli.chosen := Cli.ChoiceQuick; Cli.areas := []; Cli.confirmed := true |}.

(** A configuration file whose [excludePatterns] has per-category
    patterns only, and one custom path without an [enabled] flag. *)
Definition unflagged : ConfigMerge.CustomPath :=
  {| ConfigMerge.cp_enabled := None;
     ConfigMerge.cp_category := "user";
     ConfigMerge.cp_paths := ["/tmp/fixture"] |}.

Definition file_without_global : ConfigMerge.FullConfig :=
  {| ConfigMerge.cfg_global := None;
     ConfigMerge.cfg_customPaths := Some [unflagged];
     ConfigMerge.cfg_excludePatterns :=
       Some {| ConfigManager.global := None;
               ConfigManager.perCategory := Some {[ "user" := ["*.keep"] ]} |} |}.

Definition file_with_custom_path : ConfigMerge.FullConfig :=
  {| ConfigMerge.cfg_global := None;
     ConfigMerge.cfg_customPaths := Some [unflagged];
     ConfigMerge.cfg_excludePatterns := None |}.

Definition bare_command_line : ConfigMerge.Options :=
  {| ConfigMerge.dryRun := None; ConfigMerge.verbose := None;
     ConfigMerge.parallel := None; ConfigMerge.backup := None;
     ConfigMerge.customPaths := None; ConfigMerge.excludePatterns := None |}.

(** A backup location with an old backup file and an old backup kept as a
    directory; every path was last modified long before the cutoff. *)
Definition disk_with_old_backups : Fs.node :=
  Fs.Dir [ ("tmp", Fs.Dir [ ("fixture", fixture) ]);
           ("home", Fs.Dir [ ("u", Fs.Dir [ (".ultra-cleaner-backups",
                      Fs.Dir [ ("b1.backup", Fs.File 128 Fs.Opaque);
                               ("notes.txt", Fs.File 7 Fs.Opaque);
                               ("b2.backup", fixture);
                               ("b3.backup", Fs.File 64 Fs.Opaque) ]) ]) ]) ].

Definition state_with_old_backups : State :=
  with_root disk_with_old_backups [] state0.

Definition long_ago : string -> Z := fun _ => (-5000000000)%Z.

(** Three tracked operations: two cleanings and a failure that reports
    amounts all the same. *)
Definition tracked : list AnalyticsManager.operation :=
  [ {| AnalyticsManager.type_ := Some "cleanup";
       AnalyticsManager.category_ := Some "user";
       AnalyticsManager.description_ := Some "fixture";
       AnalyticsManager.files_ := Some 3%Z;
       AnalyticsManager.size_ := Some 150%Z;
       AnalyticsManager.success_ := Some true;
       AnalyticsManager.error_ := None |};
    {| AnalyticsManager.type_ := Some "cleanup";
       AnalyticsManager.category_ := None;
       AnalyticsManager.description_ := None;
       AnalyticsManager.files_ := Some 9%Z;
       AnalyticsManager.size_ := Some 4096%Z;
       AnalyticsManager.success_ := Some false;
       AnalyticsManager.error_ := Some "EACCES" |};
    {| AnalyticsManager.type_ := None;
       AnalyticsManager.category_ := None;
       AnalyticsManager.description_ := None;
       AnalyticsManager.files_ := None;
       AnalyticsManager.size_ := Some 50%Z;
       AnalyticsManager.success_ := None;
       AnalyticsManager.error_ := None |} ].

End Fixtures.

(* ===================================================================== *)
(** * Part II: properties *)
(* ===================================================================== *)

Section SliceFacts.
Context {A : Type}.
Implicit Types l : list A.

Lemma slice_last7_length l :
  length (Js.slice l (-7) None) = Nat.min 7 (length l).
Proof.
  unfold Js.slice, Js.relative_index.
  change (-7 <? 0)%Z with true. cbv iota.
  rewrite length_firstn, length_skipn. lia.
Qed.

Lemma slice_prev7_length l :
  length (Js.slice l (-14) (Some (-7)%Z)) = Nat.min 7 (length l - 7).
Proof.
  unfold Js.slice, Js.relative_index.
  change (-7 <? 0)%Z with true. change (-14 <? 0)%Z with true. cbv iota.
  rewrite length_firstn, length_skipn. lia.
Qed.

End SliceFacts.

(** ** Exclusion matcher *)
Section MatcherFacts.
Import ConfigManager.

Example regexPattern_star : regexPattern "*.log" = "[^/]*\.log".
Proof. reflexivity. Qed.

Example regexPattern_question : regexPattern "a?c" = "a[^/]c".
Proof. reflexivity. Qed.

Example regexPattern_double_star :
  regexPattern "cache/**/tmp" = "cache/.[^/]*/tmp".
Proof. reflexivity. Qed.

Example matches_star_segment : matchesPattern "/var/app.LOG" "*.log" = true.
Proof. reflexivity. Qed.

Example star_stays_in_segment : matchesPattern "a/b" "a*b" = false.
Proof. reflexivity. Qed.

Example question_one_char :
  matchesPattern "abc" "a?c" = true /\ matchesPattern "a/c" "a?c" = false
  /\ matchesPattern "ac" "a?c" = false.
Proof. repeat split; reflexivity. Qed.

Example double_star_one_level :
  matchesPattern "cache/a/tmp" "cache/**/tmp" = true.
Proof. reflexivity. Qed.

Example double_star_two_levels :
  matchesPattern "cache/a/b/tmp" "cache/**/tmp" = false.
Proof. reflexivity. Qed.

End MatcherFacts.

Section MatcherClaims.
Import ConfigManager.

Example spec_pattern_on_contents :
  matchesPattern "/tmp/fixture/a.tmp" "**/fixture/**" = true.
Proof. reflexivity. Qed.

Example spec_pattern_on_directory :
  matchesPattern "/tmp/fixture" "**/fixture/**" = false.
Proof. reflexivity. Qed.

Example matching_ignores_case :
  matchesPattern "/TMP/Fixture" "/tmp/fixture" = true.
Proof. reflexivity. Qed.

Example double_star_needs_a_character :
  matchesPattern "ab" "a**b" = false /\ matchesPattern "a/b" "a**b" = true.
Proof. split; reflexivity. Qed.

Example malformed_pattern_matches_nothing :
  matchesPattern "/tmp/[x" "[x" = false.
Proof. reflexivity. Qed.

(** C2. The matcher is meant to let [**] stand for any run of characters,
    separators included. The source turns [**] into [.*] and then replaces
    the [*] of that [.*] by [[^/]*], so [**] ends up as [.[^/]*]: one
    character followed by characters other than [/]. The pattern
    [cache/**/tmp] therefore does not match [cache/a/b/tmp]. *)
Theorem matchesPattern_double_star_two_segments :
  regexPattern "cache/**/tmp" = "cache/.[^/]*/tmp" /\
  matchesPattern "cache/a/b/tmp" "cache/**/tmp" = false /\
  matchesPattern "cache/a/tmp" "cache/**/tmp" = true.
Proof. repeat split; reflexivity. Qed.

(** C1, as the code has it. For a path that matches one of the configured
    global patterns, [shouldExcludePath] answers [true] whatever the
    per-category patterns are, for every category but those that name a
    property [perCategory] only inherits from [Object.prototype] (such as
    [constructor] or [toString], when the file gives no patterns under
    that name): for these it raises while collecting the patterns, before
    any pattern is tried. *)
Theorem shouldExcludePath_global_pattern
    (cfg : Config) (ep : ExcludePatterns) (g : list string)
    (filePath pattern : string) (category : option string) :
  excludePatterns cfg = Some ep ->
  global ep = Some g ->
  In pattern g ->
  matchesPattern filePath pattern = true ->
  match truthy category, perCategory ep with
  | Some c, Some per =>
      match per !! c, Js.Object_prototype c with
      | None, Some _ =>
          exists e, shouldExcludePath (Some cfg) filePath category = Js.Throw e
      | _, _ => shouldExcludePath (Some cfg) filePath category = Js.Ok true
      end
  | _, _ => shouldExcludePath (Some cfg) filePath category = Js.Ok true
  end.
Proof.
  intros Hep Hg Hin Hmatch. unfold shouldExcludePath. rewrite Hep, Hg.
  cbn [app].
  assert (Hg' : existsb (matchesPattern filePath) g = true)
    by (apply existsb_exists; eauto).
  destruct (truthy category) as [c|]; [|now rewrite Hg'].
  destruct (perCategory ep) as [per|]; [|now rewrite Hg'].
  unfold Js.get. destruct (per !! c) as [ps|].
  - f_equal. apply existsb_exists. exists pattern. split; [|exact Hmatch].
    apply in_or_app. now left.
  - destruct (Js.Object_prototype c); [eauto|now rewrite Hg'].
Qed.

End MatcherClaims.

Section ExclusionClaims.
Import Process Cleaner Fixtures.

Lemma shouldExcludePath_global_pattern_witness :
  ConfigManager.shouldExcludePath (Some excluding) "/tmp/fixture" (Some "user")
  = Js.Ok true /\
  ConfigManager.shouldExcludePath (Some excluding_by_category)
    "/tmp/fixture" (Some "logs")
  = Js.Ok true /\
  exists e,
    ConfigManager.shouldExcludePath (Some excluding_by_category)
      "/tmp/fixture" (Some "constructor")
    = Js.Throw e.
Proof.
  split; [|split].
  - exact (shouldExcludePath_global_pattern excluding
             {| ConfigManager.global := Some ["/tmp/fixture"];
                ConfigManager.perCategory := None |}
             ["/tmp/fixture"] "/tmp/fixture" "/tmp/fixture" (Some "user")
             eq_refl eq_refl (or_introl eq_refl) eq_refl).
  - exact (shouldExcludePath_global_pattern excluding_by_category
             {| ConfigManager.global := Some ["/tmp/fixture"];
                ConfigManager.perCategory := Some {[ "logs" := ["*.log"] ]} |}
             ["/tmp/fixture"] "/tmp/fixture" "/tmp/fixture" (Some "logs")
             eq_refl eq_refl (or_introl eq_refl) eq_refl).
  - exact (shouldExcludePath_global_pattern excluding_by_category
             {| ConfigManager.global := Some ["/tmp/fixture"];
                ConfigManager.perCategory := Some {[ "logs" := ["*.log"] ]} |}
             ["/tmp/fixture"] "/tmp/fixture" "/tmp/fixture" (Some "constructor")
             eq_refl eq_refl (or_introl eq_refl) eq_refl).
Defined.

(** C1 as stated fails: with [/tmp/fixture] among the global exclude
    patterns, [cleanPath] still hands [/tmp/fixture] to [rimraf], empties
    it, and counts its 150 bytes and 3 files. The cleaner never consults
    the exclusion matcher. *)
Lemma cleanPath_excluded_target_counterexample :
  ConfigManager.shouldExcludePath (Some excluding) "/tmp/fixture" (Some "user")
  = Js.Ok true /\
  snd (run (env permissive) real_run targets state0)
  = snd (cleanPath (env permissive) real_run "/tmp/fixture" "fixture" "user" state0) /\
  let st' := snd (run (env permissive) real_run targets state0) in
  In (Fs.CallRimraf "/tmp/fixture") (calls st') /\
  Fs.lookup (root state0) ["tmp"; "fixture"] = Some fixture /\
  Fs.lookup (root st') ["tmp"; "fixture"] = Some (Fs.Dir []) /\
  stats st' = {| totalCleaned := 150; totalFiles := 3; areasProcessed := 1 |}.
Proof. vm_compute. repeat split; try reflexivity; auto. Qed.

End ExclusionClaims.
(** ** Running the cleaner on the fixtures *)
Section CleanerExamples.
Import Process Fixtures.

Example measure_fixture :
  fst (Cleaner.getFolderSize (env permissive) "/tmp/fixture" false state0)
  = Js.Ok {| Cleaner.size := 150; Cleaner.count := 3 |}.
Proof. vm_compute. reflexivity. Qed.

Example measure_nested :
  fst (Cleaner.getFolderSize (env permissive) "/tmp/nested" false state0)
  = Js.Ok {| Cleaner.size := 30; Cleaner.count := 4 |}.
Proof. vm_compute. reflexivity. Qed.

Example apply_fixture :
  let '(r, st) := Cleaner.cleanPath (env permissive) real_run
                    "/tmp/fixture" "fixture" "user" state0 in
  r = Js.Ok {| Cleaner.size := 150; Cleaner.count := 3 |} /\
  Fs.lookup (root st) ["tmp"; "fixture"] = Some (Fs.Dir []) /\
  stats st = {| totalCleaned := 150; totalFiles := 3; areasProcessed := 1 |} /\
  calls st = [ Fs.CallCp "/tmp/fixture" "/home/u/.ultra-cleaner-backups/b0.backup";
               Fs.CallRimraf "/tmp/fixture"; Fs.CallMkdir "/tmp/fixture" ] /\
  Fs.lookup (root st) ["home"; "u"; ".ultra-cleaner-backups"; "b0.backup"]
  = Some fixture.
Proof. vm_compute. repeat split; reflexivity. Qed.

Example preview_fixture :
  let '(r, st) := Cleaner.cleanPath (env permissive) preview
                    "/tmp/fixture" "fixture" "user" state0 in
  r = Js.Ok {| Cleaner.size := 150; Cleaner.count := 3 |} /\
  root st = disk /\ calls st = [] /\
  stats st = {| totalCleaned := 150; totalFiles := 3; areasProcessed := 1 |}.
Proof. vm_compute. repeat split; reflexivity. Qed.

Example apply_busy_fixture :
  let '(r, st) := Cleaner.cleanPath (env busy) real_run
                    "/tmp/fixture" "fixture" "user" state0 in
  r = Js.Ok {| Cleaner.size := 0; Cleaner.count := 0 |} /\
  Fs.lookup (root st) ["tmp"; "fixture"] = Some fixture /\
  stats st = stats0.
Proof. vm_compute. repeat split; reflexivity. Qed.

End CleanerExamples.
(** ** Reasoning about computations *)
Section MonadFacts.
Import Process.
Local Open Scope proc_scope.

Lemma bind_ok {A B} (m : M A) (k : A -> M B) st v st' :
  m st = (Js.Ok v, st') -> bind m k st = k v st'.
Proof. intros H. unfold bind. now rewrite H. Qed.

Lemma bind_throw {A B} (m : M A) (k : A -> M B) st e st' :
  m st = (Js.Throw e, st') -> bind m k st = (Js.Throw e, st').
Proof. intros H. unfold bind. now rewrite H. Qed.

Lemma try_ok {A} (m : M A) h st v st' :
  m st = (Js.Ok v, st') -> try_catch m h st = (Js.Ok v, st').
Proof. intros H. unfold try_catch. now rewrite H. Qed.

Lemma try_throw {A} (m : M A) h st e st' :
  m st = (Js.Throw e, st') -> try_catch m h st = h e st'.
Proof. intros H. unfold try_catch. now rewrite H. Qed.

Lemma returns_ret {A} (v : A) : returns (ret v).
Proof. intros st. now exists v, st. Qed.

Lemma returns_bind {A B} (m : M A) (k : A -> M B) :
  returns m -> (forall v, returns (k v)) -> returns (bind m k).
Proof.
  intros Hm Hk st. destruct (Hm st) as (v & st' & E).
  rewrite (bind_ok _ _ _ _ _ E). apply Hk.
Qed.

Lemma returns_catch {A} (m : M A) h :
  (forall e, returns (h e)) -> returns (try_catch m h).
Proof.
  intros Hh st. unfold try_catch.
  destruct (m st) as [[v|e] st']; [now exists v, st'|apply Hh].
Qed.

Lemma returns_modify g : returns (modify g).
Proof. intros st. now exists tt, (g st). Qed.

Lemma returns_gets {A} (g : State -> A) : returns (gets g).
Proof. intros st. now exists (g st), st. Qed.

Lemma returns_if {A} (b : bool) (m1 m2 : M A) :
  returns m1 -> returns m2 -> returns (if b then m1 else m2).
Proof. now destruct b. Qed.

Section Keeps.
Context {B : Type} (f : State -> B).

Lemma keeps_ret {A} (v : A) : keeps f (ret v).
Proof. now intros st. Qed.

Lemma keeps_throw {A} e : keeps f (@throw A e).
Proof. now intros st. Qed.

Lemma keeps_gets {A} (g : State -> A) : keeps f (gets g).
Proof. now intros st. Qed.

Lemma keeps_lift {A} (g : Fs.node -> Js.exc A) : keeps f (lift g).
Proof. now intros st. Qed.

Lemma keeps_bind {A C} (m : M A) (k : A -> M C) :
  keeps f m -> (forall v, keeps f (k v)) -> keeps f (bind m k).
Proof.
  intros Hm Hk st. unfold bind. specialize (Hm st).
  destruct (m st) as [[v|e] st']; cbn in *; [|exact Hm].
  now rewrite (Hk v st').
Qed.

Lemma keeps_catch {A} (m : M A) h :
  keeps f m -> (forall e, keeps f (h e)) -> keeps f (try_catch m h).
Proof.
  intros Hm Hh st. unfold try_catch. specialize (Hm st).
  destruct (m st) as [[v|e] st']; cbn in *; [exact Hm|].
  now rewrite (Hh e st').
Qed.

Lemma keeps_modify g : (forall st, f (g st) = f st) -> keeps f (modify g).
Proof. intros H st. apply H. Qed.

Lemma keeps_change {A} c (g : Fs.node -> Js.exc A * Fs.node) :
  (forall r cs st, f (with_root r cs st) = f st) -> keeps f (change c g).
Proof.
  intros H st. unfold change. destruct (g (root st)) as [r root']. apply H.
Qed.

Lemma keeps_if {A} (b : bool) (m1 m2 : M A) :
  keeps f m1 -> keeps f m2 -> keeps f (if b then m1 else m2).
Proof. now destruct b. Qed.

End Keeps.

End MonadFacts.

(** ** The security manager's methods end normally and touch only their own state *)
Section SecurityFacts.
Import Process SecurityManager.
Local Open Scope proc_scope.
Variable env : Fs.Env.
Variable options : Options.

Lemma logToFile_returns entry : returns (logToFile env options entry).
Proof. apply returns_modify. Qed.

Lemma log_returns lv m : returns (log env options lv m).
Proof.
  unfold log. apply returns_bind; [apply returns_modify|intros _].
  apply returns_if; [apply logToFile_returns|apply returns_ret].
Qed.

Lemma log_keeps {B} (f : State -> B) lv m :
  (forall l lf st, f (with_log l lf st) = f st) ->
  keeps f (log env options lv m).
Proof.
  intros H. unfold log. apply keeps_bind; [apply keeps_modify; intros; apply H|].
  intros _. apply keeps_if; [|apply keeps_ret].
  unfold logToFile. apply keeps_modify. intros st.
  destruct (Fs.denied env Fs.AppendFile (logLocation options)); [reflexivity|apply H].
Qed.

Lemma log_operationLog lv m st :
  operationLog (snd (log env options lv m st))
  = (operationLog st ++ [{| lvl := lv; msg := m |}])%list.
Proof.
  unfold log, logToFile, bind, modify, ret.
  destruct (enableLogging options); cbn; [|reflexivity].
  destruct (Fs.denied env Fs.AppendFile (logLocation options)); reflexivity.
Qed.

Lemma log_run lv m st :
  exists st', log env options lv m st = (Js.Ok tt, st') /\
    operationLog st' = (operationLog st ++ [{| lvl := lv; msg := m |}])%list.
Proof.
  destruct (log_returns lv m st) as ([] & st' & E). exists st'. split; [exact E|].
  pose proof (log_operationLog lv m st) as H. now rewrite E in H.
Qed.

Lemma for_each_returns {A} (l : list A) (f : A -> M unit) :
  (forall x, returns (f x)) -> returns (for_each l f).
Proof.
  intros H. induction l as [|x l IH]; cbn; [apply returns_ret|].
  apply returns_bind; [apply H|intros _; exact IH].
Qed.

Lemma for_each_keeps {A B} (g : State -> B) (l : list A) (f : A -> M unit) :
  (forall x, keeps g (f x)) -> keeps g (for_each l f).
Proof.
  intros H. induction l as [|x l IH]; cbn; [apply keeps_ret|].
  apply keeps_bind; [apply H|intros _; exact IH].
Qed.

Lemma map_each_keeps {A C B} (g : State -> B) (l : list A) (f : A -> M C) :
  (forall x, keeps g (f x)) -> keeps g (map_each l f).
Proof.
  intros H. induction l as [|x l IH]; cbn; [apply keeps_ret|].
  apply keeps_bind; [apply H|intros y].
  apply keeps_bind; [exact IH|intros ys; apply keeps_ret].
Qed.

Lemma fresh_id_keeps {B} (f : State -> B) :
  (forall t st, f (with_ticks t st) = f st) -> keeps f (fresh_id env).
Proof. intros H st. apply H. Qed.

Lemma now_keeps {B} (f : State -> B) :
  (forall t st, f (with_ticks t st) = f st) -> keeps f now.
Proof. intros H st. apply H. Qed.

End SecurityFacts.

(** Decompose a goal about a composite computation. *)
Ltac keeps_step :=
  first
    [ apply log_keeps; intros; reflexivity
    | apply fresh_id_keeps; intros; reflexivity
    | apply now_keeps; intros; reflexivity
    | apply for_each_keeps | apply map_each_keeps
    | apply keeps_ret | apply keeps_throw | apply keeps_gets | apply keeps_lift
    | apply keeps_bind | apply keeps_catch
    | apply keeps_modify; intros; reflexivity
    | apply keeps_change; intros; reflexivity
    | match goal with
      | |- Process.keeps _ (if ?b then _ else _) => destruct b
      | |- Process.keeps _ (match ?x with _ => _ end) => destruct x
      end ].

Ltac keeps_tac := repeat (intros; keeps_step).

Ltac returns_step :=
  first
    [ apply log_returns | apply for_each_returns
    | apply returns_ret | apply returns_modify | apply returns_gets
    | apply returns_bind | apply returns_catch
    | match goal with
      | |- Process.returns (if ?b then _ else _) => destruct b
      | |- Process.returns (match ?x with _ => _ end) => destruct x
      end ].

Ltac returns_tac := repeat (intros; returns_step).

Section SecurityFrames.
Import Process SecurityManager.
Local Open Scope proc_scope.
Variable env : Fs.Env.
Variable options : Options.

Lemma validateOperation_returns targetPath operation :
  returns (validateOperation env options targetPath operation).
Proof. unfold validateOperation. returns_tac. Qed.

(** Validation writes log entries and nothing else. *)
Lemma validateOperation_keeps {B} (f : State -> B) targetPath operation :
  (forall l lf st, f (with_log l lf st) = f st) ->
  keeps f (validateOperation env options targetPath operation).
Proof.
  intros H. unfold validateOperation.
  assert (Hlog : forall lv m, keeps f (log env options lv m))
    by (intros; now apply log_keeps).
  repeat (intros; first [apply Hlog | keeps_step]).
Qed.

Lemma createBackup_returns targetPath operation :
  returns (createBackup env options targetPath operation).
Proof. unfold createBackup. returns_tac. Qed.



End SecurityFrames.
(** ** Rounding to a double *)
Section DoubleFacts.
Import Double.
Local Open Scope Q_scope.

Lemma nearest_even_comp (x y : Q) : x == y -> nearest_even x = nearest_even y.
Proof.
  intros H. unfold nearest_even.
  rewrite (Qfloor_comp x y H).
  assert (E : x - inject_Z (Qfloor y) == y - inject_Z (Qfloor y))
    by (rewrite H; reflexivity).
  now rewrite (Qcompare_comp _ _ E (1 # 2) (1 # 2) (Qeq_refl _)).
Qed.

Lemma nearest_even_Z (z : Z) : nearest_even (inject_Z z) = z.
Proof.
  unfold nearest_even. rewrite Qfloor_Z.
  assert (E : inject_Z z - inject_Z z == 0) by ring.
  rewrite (Qcompare_comp _ _ E (1 # 2) (1 # 2) (Qeq_refl _)).
  reflexivity.
Qed.

Lemma nearest_even_near (y : Q) :
  inject_Z (nearest_even y) - y <= 1 # 2 /\
  y - inject_Z (nearest_even y) <= 1 # 2.
Proof.
  unfold nearest_even.
  pose proof (Qfloor_le y) as Hlo. pose proof (Qlt_floor y) as Hhi.
  rewrite inject_Z_plus in Hhi. change (inject_Z 1) with 1 in Hhi.
  destruct (Qcompare_spec (y - inject_Z (Qfloor y)) (1 # 2)) as [E|E|E].
  - destruct (Z.even (Qfloor y)); [|rewrite inject_Z_plus; change (inject_Z 1) with 1];
      split; lra.
  - split; lra.
  - rewrite inject_Z_plus. change (inject_Z 1) with 1. split; lra.
Qed.

Lemma pow2_pos (e : Z) : 0 < 2 ^ e.
Proof. apply Qpower_0_lt. reflexivity. Qed.

Lemma pow2_plus (a b : Z) : 2 ^ (a + b) == 2 ^ a * 2 ^ b.
Proof. apply Qpower_plus. discriminate. Qed.

Lemma pow2_inverse (e : Z) : 2 ^ (- e) * 2 ^ e == 1.
Proof. rewrite <- pow2_plus. now replace (- e + e)%Z with 0%Z by lia. Qed.

Lemma pow2_Z (k : Z) : (0 <= k)%Z -> inject_Z (2 ^ k) == 2 ^ k.
Proof. intros H. now rewrite (Zpower_Qpower 2 k H). Qed.

Lemma pow2_le_1 (e : Z) : (e <= 0)%Z -> 2 ^ e <= 1.
Proof.
  intros H. destruct (Z.eq_dec e 0%Z) as [->|Hne]; [discriminate|].
  apply Qlt_le_weak. change 1 with (2 ^ 0).
  apply Qpower_lt_compat_l; [lia|reflexivity].
Qed.

(** The computed exponent is below the value. *)
Lemma exponent_le (x : Q) : 0 < x -> 2 ^ exponent x <= x.
Proof.
  intros Hx. unfold exponent.
  destruct (Qle_bool (2 ^ (Z.log2 (Qnum x) - Z.log2 (Z.pos (Qden x)))) x) eqn:E.
  - now apply Qle_bool_iff.
  - clear E. destruct x as [n d]. cbn [Qnum Qden] in *.
    assert (Hn : (0 < n)%Z).
    { unfold Qlt in Hx. cbn in Hx. lia. }
    pose proof (Z.log2_spec n Hn) as [Hlo _].
    pose proof (Z.log2_spec (Z.pos d) ltac:(lia)) as [_ Hhi].
    set (a := Z.log2 n) in *. set (b := Z.log2 (Z.pos d)) in *.
    assert (Ha : (0 <= a)%Z) by apply Z.log2_nonneg.
    assert (Hb : (0 <= b)%Z) by apply Z.log2_nonneg.
    assert (Hd : inject_Z (Z.pos d) <= 2 ^ (b + 1)).
    { rewrite <- pow2_Z by lia. rewrite <- Zle_Qle.
      replace (b + 1)%Z with (Z.succ b) by lia. lia. }
    assert (Hn' : 2 ^ a <= inject_Z n).
    { rewrite <- pow2_Z by lia. now rewrite <- Zle_Qle. }
    assert (Hsplit : 2 ^ (a - b - 1) * 2 ^ (b + 1) == 2 ^ a).
    { rewrite <- pow2_plus. now replace (a - b - 1 + (b + 1))%Z with a by lia. }
    rewrite (Qmake_Qdiv n d).
    apply Qle_shift_div_l; [reflexivity|].
    pose proof (pow2_pos (a - b - 1)) as Hp.
    apply Qle_trans with (2 ^ (a - b - 1) * 2 ^ (b + 1)).
    + apply Qmult_le_l; assumption.
    + rewrite Hsplit. exact Hn'.
Qed.

Lemma ulp_exponent_small (x : Q) :
  ~ x == 0 -> Qabs x < 2 ^ 53 -> (ulp_exponent x <= 0)%Z.
Proof.
  intros Hx Hlt. unfold ulp_exponent.
  assert (Hpos : 0 < Qabs x).
  { destruct (Qlt_le_dec 0 (Qabs x)) as [|Hle]; [assumption|].
    exfalso. apply Hx. apply Qabs_Qle_condition in Hle.
    destruct Hle. apply Qle_antisym; assumption. }
  pose proof (exponent_le (Qabs x) Hpos) as He.
  assert (Hlt' : 2 ^ exponent (Qabs x) < 2 ^ 53)
    by (eapply Qle_lt_trans; eassumption).
  apply Qpower_lt_compat_l_inv in Hlt'; [|reflexivity]. lia.
Qed.

Lemma round_finite (x r : Q) :
  ~ x == 0 ->
  inject_Z (nearest_even (x * 2 ^ (- ulp_exponent x))) * 2 ^ ulp_exponent x == r ->
  - 2 ^ 1024 < r < 2 ^ 1024 ->
  exists r', round x = Finite r' /\ r' == r.
Proof.
  intros Hx Hr [Hlo Hhi]. unfold round.
  destruct (Qeq_bool x 0) eqn:E0; [apply Qeq_bool_eq in E0; contradiction|].
  cbv zeta.
  set (v := inject_Z _ * _) in *.
  destruct (Qle_bool (2 ^ 1024) v) eqn:E1.
  { apply Qle_bool_iff in E1. rewrite Hr in E1. lra. }
  destruct (Qle_bool v (- 2 ^ 1024)) eqn:E2.
  { apply Qle_bool_iff in E2. rewrite Hr in E2. lra. }
  exists (Qred v). split; [reflexivity|]. now rewrite Qred_correct.
Qed.

Lemma pow2_53_1024 : 2 ^ 53 + 1 < 2 ^ 1024.
Proof. vm_compute. reflexivity. Qed.

(** An integer below [2^53] in magnitude is a double, held exactly. *)
Lemma round_Z (x : Q) (z : Z) :
  x == inject_Z z -> (Z.abs z < 2 ^ 53)%Z -> holds (round x) (inject_Z z).
Proof.
  intros Hx Hz.
  destruct (Z.eq_dec z 0%Z) as [->|Hne].
  { unfold round. change (inject_Z 0) with 0 in Hx.
    rewrite (Qeq_eq_bool _ _ Hx). reflexivity. }
  assert (Hx0 : ~ x == 0).
  { rewrite Hx. intros H. apply Hne. unfold Qeq in H. cbn in H. lia. }
  assert (Hbound : - 2 ^ 53 < inject_Z z < 2 ^ 53).
  { rewrite <- (pow2_Z 53) by lia. rewrite <- inject_Z_opp, <- !Zlt_Qlt. lia. }
  assert (Habs : Qabs x < 2 ^ 53).
  { apply Qabs_Qlt_condition. rewrite Hx. exact Hbound. }
  pose proof (ulp_exponent_small x Hx0 Habs) as Hq.
  set (q := ulp_exponent x) in *.
  destruct (round_finite x (inject_Z z) Hx0) as (r & Er & Hr).
  - fold q.
    assert (E : x * 2 ^ (- q) == inject_Z (z * 2 ^ (- q))).
    { rewrite inject_Z_mult, pow2_Z by lia. now rewrite Hx. }
    rewrite (nearest_even_comp _ _ E), nearest_even_Z.
    rewrite inject_Z_mult, pow2_Z by lia.
    rewrite <- Qmult_assoc, pow2_inverse. ring.
  - pose proof pow2_53_1024. lra.
  - rewrite Er. exact Hr.
Qed.

(** Below [2^53] in magnitude rounding moves a value by a half at most. *)
Lemma round_near (x : Q) :
  Qabs x < 2 ^ 53 ->
  exists r, round x = Finite r /\ r - x <= 1 # 2 /\ x - r <= 1 # 2.
Proof.
  intros Habs.
  destruct (Qeq_dec x 0) as [E|Hx0].
  { exists 0. unfold round. rewrite (Qeq_eq_bool _ _ E). rewrite E.
    repeat split; discriminate. }
  pose proof (ulp_exponent_small x Hx0 Habs) as Hq.
  set (q := ulp_exponent x) in *.
  pose proof (nearest_even_near (x * 2 ^ (- q))) as [Hup Hdown].
  set (m := inject_Z (nearest_even (x * 2 ^ (- q)))) in *.
  pose proof (pow2_pos q) as Hs. pose proof (pow2_le_1 q Hq) as Hs1.
  pose proof (pow2_inverse q) as Hinv.
  set (s := 2 ^ q) in *. set (t := 2 ^ (- q)) in *.
  assert (Hup' : m * s - x <= s * (1 # 2)).
  { assert (E : m * s - x == s * (m - x * t)).
    { transitivity (m * s - x * (t * s)); [rewrite Hinv; ring|ring]. }
    rewrite E. apply Qmult_le_l; assumption. }
  assert (Hdown' : x - m * s <= s * (1 # 2)).
  { assert (E : x - m * s == s * (x * t - m)).
    { transitivity (x * (t * s) - m * s); [rewrite Hinv; ring|ring]. }
    rewrite E. apply Qmult_le_l; assumption. }
  apply Qabs_Qlt_condition in Habs.
  destruct (round_finite x (m * s) Hx0) as (r & Er & Hr).
  - reflexivity.
  - pose proof pow2_53_1024. lra.
  - exists r. split; [exact Er|]. rewrite Hr. lra.
Qed.

Lemma add_exact (a b : double) (m n : Z) :
  holds a (inject_Z m) -> holds b (inject_Z n) ->
  (Z.abs (m + n) < 2 ^ 53)%Z ->
  holds (add a b) (inject_Z (m + n)).
Proof.
  destruct a as [x| | |], b as [y| | |]; cbn [holds]; try contradiction.
  intros Hx Hy Hsum. cbn [add]. apply round_Z; [|exact Hsum].
  rewrite Hx, Hy. now rewrite inject_Z_plus.
Qed.

Lemma of_Z_exact (z : Z) :
  (Z.abs z < 2 ^ 53)%Z -> holds (of_Z z) (inject_Z z).
Proof. intros H. apply round_Z; [reflexivity|exact H]. Qed.

End DoubleFacts.

(** ** The operations on samples, against the specification of IEEE 754 *)
Section DoubleSamples.
Import Double.

Example of_Z_agrees :
  map of_Z [0; 1; -7; 2 ^ 53 + 1; 2 ^ 53 + 3; 2 ^ 1024 - 2 ^ 970 - 1;
            2 ^ 1024 - 2 ^ 970; - 2 ^ 1024]%Z
  = map (fun z => of_spec (binary64 z 0))
        [0; 1; -7; 2 ^ 53 + 1; 2 ^ 53 + 3; 2 ^ 1024 - 2 ^ 970 - 1;
         2 ^ 1024 - 2 ^ 970; - 2 ^ 1024]%Z.
Proof. vm_compute. reflexivity. Qed.

Example add_agrees :
  map (fun '(a, b) => add (of_spec a) (of_spec b))
      [(binary64 (2 ^ 53) 0, binary64 3 0);
       (binary64 (2 ^ 53 - 1) 971, binary64 1 970);
       (binary64 (2 ^ 53 - 1) 971, binary64 (2 ^ 53 - 1) 917);
       (binary64 1 (-1074), binary64 (-3) (-1074));
       (binary64 1 0, binary64 1 (-60))]
  = map (fun '(a, b) => of_spec (SFadd 53 1024 a b))
      [(binary64 (2 ^ 53) 0, binary64 3 0);
       (binary64 (2 ^ 53 - 1) 971, binary64 1 970);
       (binary64 (2 ^ 53 - 1) 971, binary64 (2 ^ 53 - 1) 917);
       (binary64 1 (-1074), binary64 (-3) (-1074));
       (binary64 1 0, binary64 1 (-60))].
Proof. vm_compute. reflexivity. Qed.

Example div_agrees :
  map (fun '(a, b) => div (of_spec a) (of_spec b))
      [(binary64 1 0, binary64 10 0);
       (binary64 10 0, binary64 7 0);
       (binary64 (-123456789) 0, binary64 7 0);
       (binary64 3 (-1074), binary64 2 0);
       (binary64 5 (-1074), binary64 2 0);
       (binary64 1 1023, binary64 1 (-2));
       (S754_infinity false, binary64 7 0)]
  = map (fun '(a, b) => of_spec (SFdiv 53 1024 a b))
      [(binary64 1 0, binary64 10 0);
       (binary64 10 0, binary64 7 0);
       (binary64 (-123456789) 0, binary64 7 0);
       (binary64 3 (-1074), binary64 2 0);
       (binary64 5 (-1074), binary64 2 0);
       (binary64 1 1023, binary64 1 (-2));
       (S754_infinity false, binary64 7 0)].
Proof. vm_compute. reflexivity. Qed.

Example mul_sub_agree :
  let third := SFdiv 53 1024 (binary64 1 0) (binary64 3 0) in
  mul (of_spec third) (of_spec (binary64 100 0))
  = of_spec (SFmul 53 1024 third (binary64 100 0)) /\
  sub (of_spec (binary64 (-5) 0)) (of_spec third)
  = of_spec (SFsub 53 1024 (binary64 (-5) 0) third) /\
  mul (of_spec (binary64 1 600)) (of_spec (binary64 1 600))
  = of_spec (SFmul 53 1024 (binary64 1 600) (binary64 1 600)).
Proof. vm_compute. repeat split; reflexivity. Qed.

Example gtb_agrees :
  map (fun '(a, b) => gtb (of_spec a) (of_spec b))
      [(S754_infinity false, S754_infinity false);
       (S754_infinity false, binary64 1 1023);
       (binary64 1 0, binary64 1 (-1)); (binary64 1 0, binary64 1 0);
       (S754_nan, binary64 1 0); (binary64 1 0, S754_infinity true)]
  = map (fun '(a, b) => SFltb b a)
      [(S754_infinity false, S754_infinity false);
       (S754_infinity false, binary64 1 1023);
       (binary64 1 0, binary64 1 (-1)); (binary64 1 0, binary64 1 0);
       (S754_nan, binary64 1 0); (binary64 1 0, S754_infinity true)].
Proof. vm_compute. reflexivity. Qed.

End DoubleSamples.
(** ** Session trends *)
Section TrendFacts.
Import AnalyticsManager AnalyticsSpec.
Local Open Scope Q_scope.

Lemma exact_sum_bound (l : list session) :
  moderate l -> (Z.abs (exact_sum l) <= Z.of_nat (length l) * 2 ^ 50)%Z.
Proof.
  induction l as [|s l IH]; intros H; cbn [exact_sum fold_right length].
  - cbn. lia.
  - fold (exact_sum l).
    assert (Z.abs (space s) < 2 ^ 50)%Z by (apply H; now left).
    assert (Z.abs (exact_sum l) <= Z.of_nat (length l) * 2 ^ 50)%Z
      by (apply IH; intros x Hx; apply H; now right).
    lia.
Qed.

(** Within the safe integers the additions of [reduce] are exact. *)
Lemma reduce_exact (l : list session) : forall (acc : Double.double) (a : Z),
  Double.holds acc (inject_Z a) ->
  moderate l ->
  (Z.abs a + Z.of_nat (length l) * 2 ^ 50 < 2 ^ 53)%Z ->
  Double.holds
    (fold_left (fun sum s => Double.add sum (Double.of_Z (space s))) l acc)
    (inject_Z (a + exact_sum l)).
Proof.
  induction l as [|s l IH]; intros acc a Hacc Hl Hsum;
    cbn [fold_left exact_sum fold_right].
  - now rewrite Z.add_0_r.
  - fold (exact_sum l).
    assert (Hs : (Z.abs (space s) < 2 ^ 50)%Z) by (apply Hl; now left).
    cbn [length] in Hsum.
    replace (a + (space s + exact_sum l))%Z
      with ((a + space s) + exact_sum l)%Z by lia.
    apply IH.
    + apply add_exact; [exact Hacc| |lia].
      apply of_Z_exact. lia.
    + intros x Hx. apply Hl. now right.
    + lia.
Qed.

Lemma sumSpace_exact (l : list session) :
  moderate l -> (length l <= 7)%nat ->
  Double.holds (sumSpace l) (inject_Z (exact_sum l)).
Proof.
  intros Hl Hlen. unfold sumSpace.
  change (exact_sum l) with (0 + exact_sum l)%Z.
  apply reduce_exact; [reflexivity|exact Hl|].
  change (Z.abs 0) with 0%Z. lia.
Qed.

(** The average the code computes is the double next to the exact mean. *)
Lemma average_near (l : list session) :
  moderate l -> (1 <= length l <= 7)%nat ->
  exists r, average l = Double.Finite r /\
            r - exact_mean l <= 1 # 2 /\ exact_mean l - r <= 1 # 2.
Proof.
  intros Hl Hlen. unfold average, exact_mean.
  pose proof (sumSpace_exact l Hl ltac:(lia)) as Hsum.
  pose proof (exact_sum_bound l Hl) as Hbound.
  pose proof (of_Z_exact (Z.of_nat (length l)) ltac:(lia)) as Hn.
  destruct (sumSpace l) as [x| | |]; try contradiction.
  destruct (Double.of_Z (Z.of_nat (length l))) as [y| | |]; try contradiction.
  cbn [Double.holds] in Hsum, Hn. cbn [Double.div].
  set (S := exact_sum l) in *. set (n := Z.of_nat (length l)) in *.
  assert (Hn1 : 1 <= inject_Z n).
  { change 1 with (inject_Z 1). rewrite <- Zle_Qle. lia. }
  assert (Hy0 : ~ y == 0) by (rewrite Hn; lra).
  destruct (Qeq_bool y 0) eqn:E; [apply Qeq_bool_eq in E; contradiction|].
  assert (Hxy : x / y == inject_Z S / inject_Z n) by (now rewrite Hsum, Hn).
  assert (HS : - 2 ^ 53 < inject_Z S < 2 ^ 53).
  { rewrite <- (pow2_Z 53) by lia. rewrite <- inject_Z_opp, <- !Zlt_Qlt. lia. }
  assert (Hq : - 2 ^ 53 < inject_Z S / inject_Z n < 2 ^ 53).
  { assert (Hn0 : 0 < inject_Z n) by lra.
    pose proof (pow2_pos 53) as Hp.
    assert (Hmul : 2 ^ 53 * 1 <= 2 ^ 53 * inject_Z n)
      by (apply Qmult_le_l; assumption).
    set (P := 2 ^ 53) in *.
    split.
    - apply Qlt_shift_div_l; [exact Hn0|]. lra.
    - apply Qlt_shift_div_r; [exact Hn0|]. lra. }
  destruct (round_near (x / y)) as (r & Er & Hup & Hdown).
  { apply Qabs_Qlt_condition. rewrite Hxy. exact Hq. }
  exists r. split; [exact Er|]. rewrite Hxy in Hup, Hdown. split; assumption.
Qed.

Lemma gtb_true (a b : Q) :
  b < a -> Double.gtb (Double.Finite a) (Double.Finite b) = true.
Proof.
  intros H. cbn [Double.gtb]. destruct (Qle_bool a b) eqn:E; [|reflexivity].
  apply Qle_bool_iff in E. exfalso. apply (Qlt_not_le _ _ H E).
Qed.

Lemma exact_mean_seven (l : list session) :
  length l = 7%nat -> exact_mean l * 7 == inject_Z (exact_sum l).
Proof. intros H. unfold exact_mean. rewrite H. cbn [Z.of_nat]. field. Qed.

End TrendFacts.

Section TrendTheorems.
Import AnalyticsManager AnalyticsSpec.

(** With both windows populated the code takes the numeric branch. *)
Lemma calculateTrends_numeric (sessions : list session) :
  (8 <= length sessions)%nat ->
  exists t cp,
    calculateTrends sessions =
      numeric t (average (Js.slice sessions (-7) None))
                (average (Js.slice sessions (-14) (Some (-7)%Z))) cp /\
    t = (if Double.gtb (average (Js.slice sessions (-7) None))
                       (average (Js.slice sessions (-14) (Some (-7)%Z)))
         then increasing
         else if Double.ltb (average (Js.slice sessions (-7) None))
                            (average (Js.slice sessions (-14) (Some (-7)%Z)))
              then decreasing else stable).
Proof.
  intros Hlen. unfold calculateTrends.
  destruct (Z.ltb_spec (Z.of_nat (length sessions)) 2); [lia|].
  rewrite slice_last7_length, slice_prev7_length.
  destruct (Nat.eqb_spec (Nat.min 7 (length sessions)) 0); [lia|].
  destruct (Nat.eqb_spec (Nat.min 7 (length sessions - 7)) 0); [lia|].
  cbn [orb]. eauto.
Qed.

(** In fourteen strictly growing integer amounts the last seven add up to
    at least 49 more than the seven before them. *)
Lemma windows_apart (sessions : list session) :
  length sessions = 14%nat ->
  strictly_increasing sessions ->
  (exact_sum (Js.slice sessions (-14) (Some (-7)%Z)) + 49
   <= exact_sum (Js.slice sessions (-7) None))%Z.
Proof.
  intros Hlen Hinc.
  destruct sessions as
    [|s0 [|s1 [|s2 [|s3 [|s4 [|s5 [|s6 [|s7 [|s8 [|s9 [|s10 [|s11 [|s12 [|s13 [|? ?]]]]]]]]]]]]]]];
    try discriminate.
  pose proof (Hinc 0%nat 1%nat _ _ ltac:(lia) eq_refl eq_refl).
  pose proof (Hinc 1%nat 2%nat _ _ ltac:(lia) eq_refl eq_refl).
  pose proof (Hinc 2%nat 3%nat _ _ ltac:(lia) eq_refl eq_refl).
  pose proof (Hinc 3%nat 4%nat _ _ ltac:(lia) eq_refl eq_refl).
  pose proof (Hinc 4%nat 5%nat _ _ ltac:(lia) eq_refl eq_refl).
  pose proof (Hinc 5%nat 6%nat _ _ ltac:(lia) eq_refl eq_refl).
  pose proof (Hinc 6%nat 7%nat _ _ ltac:(lia) eq_refl eq_refl).
  pose proof (Hinc 7%nat 8%nat _ _ ltac:(lia) eq_refl eq_refl).
  pose proof (Hinc 8%nat 9%nat _ _ ltac:(lia) eq_refl eq_refl).
  pose proof (Hinc 9%nat 10%nat _ _ ltac:(lia) eq_refl eq_refl).
  pose proof (Hinc 10%nat 11%nat _ _ ltac:(lia) eq_refl eq_refl).
  pose proof (Hinc 11%nat 12%nat _ _ ltac:(lia) eq_refl eq_refl).
  pose proof (Hinc 12%nat 13%nat _ _ ltac:(lia) eq_refl eq_refl).
  change (Js.slice [s0; s1; s2; s3; s4; s5; s6; s7; s8; s9; s10; s11; s12; s13]
            (-14) (Some (-7)%Z))
    with [s0; s1; s2; s3; s4; s5; s6].
  change (Js.slice [s0; s1; s2; s3; s4; s5; s6; s7; s8; s9; s10; s11; s12; s13]
            (-7) None)
    with [s7; s8; s9; s10; s11; s12; s13].
  cbn [exact_sum fold_right]. lia.
Qed.

Lemma slice_moderate (sessions : list session) start stop :
  moderate sessions -> moderate (Js.slice sessions start stop).
Proof.
  intros H s Hs. apply H. unfold Js.slice in Hs.
  apply list_elem_of_In in Hs.
  apply list_elem_of_In.
  apply (subseteq_take _ _) in Hs. apply (subseteq_drop _ _) in Hs. exact Hs.
Qed.

(** C7, as the code has it. Trend calculation reports "insufficient data"
    whenever fewer than two sessions exist. For 14 sessions whose
    [spaceRecovered] are strictly increasing integers below [2^50] in
    magnitude it reports "increasing": the two windows hold seven sessions
    each, the average the code computes for the last seven is a finite
    Number greater than the one it computes for the seven before them, and
    so are the exact means. (Numbers are doubles: without the bound the
    sums can round or overflow, and the answer can be "stable".) *)
Theorem calculateTrends_session_trend (sessions : list session) :
  ((length sessions < 2)%nat ->
     trend_string (calculateTrends sessions) = "insufficient_data") /\
  (length sessions = 14%nat -> strictly_increasing sessions ->
   moderate sessions ->
     trend_string (calculateTrends sessions) = "increasing" /\
     length (Js.slice sessions (-7) None) = 7%nat /\
     length (Js.slice sessions (-14) (Some (-7)%Z)) = 7%nat /\
     (exists r p,
        average (Js.slice sessions (-7) None) = Double.Finite r /\
        average (Js.slice sessions (-14) (Some (-7)%Z)) = Double.Finite p /\
        (p < r)%Q) /\
     (exact_mean (Js.slice sessions (-14) (Some (-7)%Z))
        < exact_mean (Js.slice sessions (-7) None))%Q).
Proof.
  split.
  - intros Hlen. unfold calculateTrends.
    destruct (Z.ltb_spec (Z.of_nat (length sessions)) 2); [reflexivity|lia].
  - intros Hlen Hinc Hmod.
    pose proof (windows_apart sessions Hlen Hinc) as Hgap.
    assert (Hr7 : length (Js.slice sessions (-7) None) = 7%nat)
      by (rewrite slice_last7_length, Hlen; reflexivity).
    assert (Hp7 : length (Js.slice sessions (-14) (Some (-7)%Z)) = 7%nat)
      by (rewrite slice_prev7_length, Hlen; reflexivity).
    destruct (average_near (Js.slice sessions (-7) None))
      as (r & Er & Hr1 & Hr2);
      [now apply slice_moderate|lia|].
    destruct (average_near (Js.slice sessions (-14) (Some (-7)%Z)))
      as (p & Ep & Hp1 & Hp2);
      [now apply slice_moderate|lia|].
    pose proof (exact_mean_seven _ Hr7) as Mr.
    pose proof (exact_mean_seven _ Hp7) as Mp.
    rewrite Zle_Qle, inject_Z_plus in Hgap.
    change (inject_Z 49) with 49%Q in Hgap.
    rewrite <- Mr, <- Mp in Hgap.
    assert (Hlt : (p < r)%Q) by lra.
    assert (Hmeans : (exact_mean (Js.slice sessions (-14) (Some (-7)%Z))
                      < exact_mean (Js.slice sessions (-7) None))%Q) by lra.
    repeat split; try assumption.
    + destruct (calculateTrends_numeric sessions ltac:(lia))
        as (t & cp & -> & ->).
      rewrite Er, Ep, (gtb_true _ _ Hlt). reflexivity.
    + exists r, p. auto.
Qed.

(** C10. Trend calculation answers "insufficient data" exactly for the
    histories of seven or fewer sessions (the window before the last seven
    is then empty); a numeric trend needs eight sessions or more. *)
Theorem calculateTrends_needs_eight_sessions (sessions : list session) :
  (calculateTrends sessions = insufficient_data <->
     (length sessions <= 7)%nat) /\
  (length (Js.slice sessions (-14) (Some (-7)%Z)) = 0%nat <->
     (length sessions <= 7)%nat) /\
  ((exists t ra pa cp, calculateTrends sessions = numeric t ra pa cp) <->
     (8 <= length sessions)%nat).
Proof.
  assert (Hshort : (length sessions <= 7)%nat ->
                   calculateTrends sessions = insufficient_data).
  { intros Hlen. unfold calculateTrends.
    destruct (Z.ltb_spec (Z.of_nat (length sessions)) 2); [reflexivity|].
    rewrite slice_prev7_length.
    replace (Nat.min 7 (length sessions - 7)) with 0%nat by lia.
    now rewrite orb_true_r. }
  split; [|split].
  - split; [|exact Hshort].
    intros H. destruct (le_lt_dec (length sessions) 7) as [|Hlong]; [auto|].
    destruct (calculateTrends_numeric sessions Hlong) as (t & cp & E & _).
    congruence.
  - rewrite slice_prev7_length. lia.
  - split.
    + intros (t & ra & pa & cp & E).
      destruct (le_lt_dec (length sessions) 7) as [Hle|]; [|lia].
      rewrite (Hshort Hle) in E. discriminate.
    + intros Hlen.
      destruct (calculateTrends_numeric sessions Hlen) as (t & cp & E & _).
      eauto.
Qed.

End TrendTheorems.

Section TrendWitnesses.
Import AnalyticsManager AnalyticsSpec.

Lemma ascending_head (a : session) (l : list session) :
  ascending (a :: l) = true ->
  forall x, In x l -> (space a < space x)%Z.
Proof.
  revert a. induction l as [|b l IH]; intros a H x Hx; [destruct Hx|].
  cbn [ascending] in H. apply andb_true_iff in H as [Hab Hrest].
  apply Z.ltb_lt in Hab. destruct Hx as [->|Hx]; [exact Hab|].
  specialize (IH b Hrest x Hx). lia.
Qed.

Lemma ascending_sound (l : list session) :
  ascending l = true -> strictly_increasing l.
Proof.
  induction l as [|a l IH]; intros H i j si sj Hij Hi Hj.
  - discriminate.
  - assert (Htail : ascending l = true).
    { destruct l; [reflexivity|]. cbn [ascending] in H.
      now apply andb_true_iff in H as [_ H]. }
    destruct j as [|j]; [lia|]. cbn in Hj.
    destruct i as [|i].
    + cbn in Hi. injection Hi as <-.
      apply (ascending_head a l H).
      apply list_elem_of_In, list_elem_of_lookup. eauto.
    + cbn in Hi. apply (IH Htail i j); auto. lia.
Qed.

Lemma calculateTrends_session_trend_witness :
  trend_string (calculateTrends []) = "insufficient_data" /\
  trend_string (calculateTrends Fixtures.history14) = "increasing".
Proof.
  split.
  - apply (proj1 (calculateTrends_session_trend [])). simpl. lia.
  - apply (proj2 (calculateTrends_session_trend Fixtures.history14)).
    + reflexivity.
    + apply ascending_sound. reflexivity.
    + intros s Hs. cbn in Hs.
      repeat (destruct Hs as [<-|Hs]; [cbn; lia|]). destruct Hs.
Defined.

(** C7 as stated fails on large amounts: fourteen strictly growing amounts,
    each of them a double, whose sums overflow. Both averages are
    [Infinity], neither exceeds the other, and the trend is "stable". *)
Lemma calculateTrends_session_trend_counterexample :
  length Fixtures.huge_history = 14%nat /\
  ascending Fixtures.huge_history = true /\
  map (fun s => Double.of_Z (space s)) Fixtures.huge_history
  = map (fun s => Double.Finite (inject_Z (space s))) Fixtures.huge_history /\
  average (Js.slice Fixtures.huge_history (-7) None) = Double.PosInfinity /\
  average (Js.slice Fixtures.huge_history (-14) (Some (-7)%Z))
  = Double.PosInfinity /\
  trend_string (calculateTrends Fixtures.huge_history) = "stable".
Proof. vm_compute. repeat split; reflexivity. Qed.

Example calculateTrends_seven :
  calculateTrends (map session_of [1; 2; 3; 4; 5; 6; 7]%Z) = insufficient_data.
Proof. reflexivity. Qed.

Example calculateTrends_eight :
  trend_string (calculateTrends (map session_of [9; 2; 3; 4; 5; 6; 7; 8]%Z))
  = "decreasing".
Proof. vm_compute. reflexivity. Qed.

(** The numbers of a report: of ten sessions the last seven average 70 and
    the three before them 20, a change of 250 percent. *)
Example calculateTrends_report :
  calculateTrends (map session_of [10; 20; 30; 40; 50; 60; 70; 80; 90; 100]%Z)
  = numeric increasing (Double.Finite 70) (Double.Finite 20)
            (Double.Finite 250).
Proof. vm_compute. reflexivity. Qed.

(** Past [2^53] an addition rounds: the sum of [2^53] and [1] is [2^53]. *)
Example add_rounds :
  Double.add (Double.of_Z (2 ^ 53)) (Double.of_Z 1) = Double.of_Z (2 ^ 53).
Proof. vm_compute. reflexivity. Qed.

(** [1 / 10] is the double [0x1.999999999999ap-4]. *)
Example div_rounds :
  Double.div (Double.of_Z 1) (Double.of_Z 10)
  = Double.Finite (3602879701896397 # 36028797018963968).
Proof. vm_compute. reflexivity. Qed.

End TrendWitnesses.
(** ** Measuring and cleaning *)
Section CleanerFacts.
Import Process Cleaner.
Local Open Scope proc_scope.
Variable env : Fs.Env.
Variable options : Cleaner.Options.

Lemma getFolderSize_run folderPath showProgress st :
  getFolderSize env folderPath showProgress st
  = (Js.Ok (measure env (root st) folderPath), st).
Proof. reflexivity. Qed.


Lemma exists_run targetPath st :
  exists b,
    try_catch (lift (fun r => Fs.access env r targetPath) ;; ret true)
              (fun _ => ret false) st = (Js.Ok b, st) /\
    (Fs.access env (root st) targetPath = Js.Ok tt -> b = true).
Proof.
  unfold try_catch, bind, lift, ret.
  destruct (Fs.access env (root st) targetPath) as [[]|e].
  - exists true. auto.
  - exists false. split; [reflexivity|discriminate].
Qed.

(** C9. A target whose measured total size is 0 (a directory of zero-byte
    files included) makes [cleanPath] return [{ size: 0, count: 0 }] at
    once: no tree-changing call is issued, so nothing is deleted, no backup
    is recorded, and the statistics counters stay as they were. *)
Theorem cleanPath_empty_target targetPath description category st :
  size (measure env (root st) targetPath) = 0%N ->
  exists st',
    cleanPath env options targetPath description category st
    = (Js.Ok {| size := 0; count := 0 |}, st') /\
    root st' = root st /\ calls st' = calls st /\
    backups st' = backups st /\ stats st' = stats st /\
    currentSession st' = currentSession st.
Proof.
  intros Hzero.
  destruct (validateOperation_returns env (securityOptions env options)
              targetPath "delete" st) as (isValid & st1 & Ev).
  assert (Hk : forall {B} (f : State -> B),
             (forall l lf s, f (with_log l lf s) = f s) -> f st1 = f st).
  { intros B f Hf.
    pose proof (validateOperation_keeps env (securityOptions env options)
                  f targetPath "delete" Hf st) as H.
    now rewrite Ev in H. }
  exists st1. split.
  - unfold cleanPath. apply try_ok. rewrite (bind_ok _ _ _ _ _ Ev).
    destruct isValid; cbn [negb]; [|reflexivity].
    destruct (exists_run targetPath st1) as (b & Eb & _).
    rewrite (bind_ok _ _ _ _ _ Eb).
    destruct b; cbn [negb]; [|reflexivity].
    rewrite (bind_ok _ _ _ _ _ (getFolderSize_run targetPath false st1)).
    cbv zeta. rewrite (Hk _ root) by reflexivity. rewrite Hzero. reflexivity.
  - repeat split; apply Hk; reflexivity.
Qed.

(** Whenever [readdir] raises on the folder itself, the error is swallowed
    and the totals come back as they were. *)
Lemma calculateRecursive_readdir_error root folderPath t e :
  Fs.readdir env root folderPath = Js.Throw e ->
  calculateRecursive_from env root folderPath t = (snapshot t, t).
Proof.
  unfold Fs.readdir, calculateRecursive_from.
  destruct (Fs.lookup root (Fs.segments folderPath)) as [[sz data|items]|];
    [reflexivity| |reflexivity].
  cbn [calculateRecursive].
  destruct (Fs.denied env Fs.Readdir folderPath); [reflexivity|discriminate].
Qed.

(** C5. Measuring a path that does not exist returns [{ size: 0, count: 0 }]
    and raises nothing: the ENOENT of [readdir] is caught inside. *)
Theorem getFolderSize_missing_path folderPath showProgress st :
  Fs.lookup (root st) (Fs.segments folderPath) = None ->
  Fs.readdir env (root st) folderPath
  = Js.Throw (Fs.sys_error "ENOENT" "scandir" folderPath) /\
  getFolderSize env folderPath showProgress st
  = (Js.Ok {| size := 0; count := 0 |}, st).
Proof.
  intros Hmissing.
  assert (Hreaddir : Fs.readdir env (root st) folderPath
                     = Js.Throw (Fs.sys_error "ENOENT" "scandir" folderPath))
    by (unfold Fs.readdir; now rewrite Hmissing).
  split; [exact Hreaddir|].
  rewrite getFolderSize_run. unfold measure.
  now rewrite (calculateRecursive_readdir_error _ _ _ _ Hreaddir).
Qed.






(** In a preview only the logs, the counters and the analytics session
    can change, whatever the target. *)
Lemma cleanPath_preview_frame {B} (f : State -> B) targetPath description category :
  dryRun options = true ->
  (forall l lf s, f (with_log l lf s) = f s) ->
  (forall x s, f (with_stats x s) = f s) ->
  (forall x s, f (with_session x s) = f s) ->
  keeps f (cleanPath env options targetPath description category).
Proof.
  intros Hdry Hlog Hstats Hsession.
  unfold cleanPath, getFolderSize, trackOperation.
  rewrite Hdry, andb_false_r.
  assert (Hl : forall lv m,
             keeps f (SecurityManager.log env (securityOptions env options) lv m))
    by (intros; now apply log_keeps).
  assert (Ha : forall a b, keeps f (add_stats a b))
    by (intros; apply keeps_modify; intros; apply Hstats).
  repeat (intros; first
    [ apply Hl | apply Ha | apply validateOperation_keeps; exact Hlog
    | apply keeps_modify; intros; apply Hsession
    | keeps_step ]).
Qed.

End CleanerFacts.

Section DryRun.
Import Process Cleaner.


End DryRun.
Section CleanerWitnesses.
Import Process Cleaner Fixtures.



Lemma cleanPath_empty_target_witness :
  Fs.lookup (root state0) (Fs.segments "/tmp/hollow") = Some hollow /\
  exists st',
    cleanPath (env permissive) real_run "/tmp/hollow" "hollow" "user" state0
    = (Js.Ok {| size := 0; count := 0 |}, st') /\
    root st' = disk /\ calls st' = [] /\ stats st' = stats0.
Proof.
  split; [reflexivity|].
  destruct (cleanPath_empty_target (env permissive) real_run
              "/tmp/hollow" "hollow" "user" state0)
    as (st' & Hrun & Hroot & Hcalls & _ & Hstats & _).
  - reflexivity.
  - exists st'. repeat split; assumption.
Defined.

Lemma getFolderSize_missing_path_witness :
  getFolderSize (env permissive) "/tmp/absent" true state0
  = (Js.Ok {| size := 0; count := 0 |}, state0).
Proof.
  apply (proj2 (getFolderSize_missing_path (env permissive) "/tmp/absent" true
                  state0 eq_refl)).
Defined.

End CleanerWitnesses.

(** ** Measurements of directory trees *)
Section MeasureFacts.
Import Process Cleaner.
Variable env : Fs.Env.

Lemma stat_node_file p sz data :
  Fs.stat_node env p (Fs.File sz data)
  = if Fs.denied env Fs.Stat p
    then Js.Throw (Fs.sys_error "EACCES" "stat" p)
    else Js.Ok {| Fs.isDirectory := false; Fs.st_size := sz |}.
Proof. reflexivity. Qed.

(** Without sub-directories the shared totals are only ever added to once
    per file: the result is the sum of the sizes of the files that can be
    examined. *)
Lemma calculateRecursive_flat currentPath items t :
  Forall (fun e => Fs.is_dir (snd e) = false) items ->
  let r := fst (calculateRecursive env currentPath (Fs.Dir items) t) in
  (size r <= totalSize t + bytes_below (Fs.Dir items))%N /\
  (count r <= fileCount t + files_below (Fs.Dir items))%N /\
  ((forall p, Fs.denied env Fs.Readdir p = false) ->
   (forall p, Fs.denied env Fs.Stat p = false) ->
   size r = (totalSize t + bytes_below (Fs.Dir items))%N /\
   count r = (fileCount t + files_below (Fs.Dir items))%N).
Proof.
  intros Hflat. cbn [calculateRecursive bytes_below files_below].
  destruct (Fs.denied env Fs.Readdir currentPath) eqn:Hd.
  - cbn. split; [lia|split; [lia|]].
    intros Hr _. rewrite Hr in Hd. discriminate.
  - cbn [fst snapshot size count]. clear Hd. revert t.
    induction Hflat as [|[name item] items Hitem _ IH]; intros t.
    + cbn. split; [lia|split; [lia|]]. intros _ _. split; lia.
    + destruct item as [sz data|sub]; [|discriminate Hitem].
      cbn -[N.add Fs.stat_node]. rewrite stat_node_file.
      destruct (Fs.denied env Fs.Stat (Fs.join currentPath name)) eqn:Hs.
      * destruct (IH t) as (H1 & H2 & H3). split; [lia|split; [lia|]].
        intros _ Hstat. rewrite Hstat in Hs. discriminate.
      * destruct (IH {| totalSize := totalSize t + sz;
                        fileCount := fileCount t + 1 |}) as (H1 & H2 & H3).
        cbn [totalSize fileCount Fs.st_size] in *.
        split; [lia|split; [lia|]].
        intros Hr Hstat. destruct (H3 Hr Hstat). split; lia.
Qed.

End MeasureFacts.

Section MeasureClaims.
Import Process Cleaner Fixtures.

(** C4. The measurement is meant to be the sum of the file sizes, each file
    counted once. On a directory holding a 10-byte file and a sub-directory
    with a 5-byte file the code reports 30 bytes and 4 files: the recursive
    call has already added the sub-directory to the shared totals when the
    caller adds its result, a snapshot of those totals, once more. *)
Theorem getFolderSize_nested_directory :
  Fs.lookup (root state0) (Fs.segments "/tmp/nested") = Some nested /\
  bytes_below nested = 15%N /\ files_below nested = 2%N /\
  getFolderSize (env permissive) "/tmp/nested" false state0
  = (Js.Ok {| size := 30; count := 4 |}, state0).
Proof. vm_compute. repeat split; reflexivity. Qed.

Example getFolderSize_flat_directory :
  getFolderSize (env permissive) "/tmp/fixture" false state0
  = (Js.Ok {| size := bytes_below fixture; count := files_below fixture |},
     state0).
Proof. vm_compute. reflexivity. Qed.

End MeasureClaims.
(** ** Backups *)
Section BackupFacts.
Import Process SecurityManager.
Local Open Scope proc_scope.
Variable env : Fs.Env.
Variable options : Options.

Lemma log_eq lv m st :
  log env options lv m st = (Js.Ok tt, snd (log env options lv m st)).
Proof.
  destruct (log_returns env options lv m st) as ([] & st' & E). now rewrite E.
Qed.

Lemma root_log lv m st : root (snd (log env options lv m st)) = root st.
Proof. apply (log_keeps env options root); reflexivity. Qed.

Lemma backups_log lv m st : backups (snd (log env options lv m st)) = backups st.
Proof. apply (log_keeps env options backups); reflexivity. Qed.

Lemma last_log lv m st :
  last (operationLog (snd (log env options lv m st)))
  = Some {| lvl := lv; msg := m |}.
Proof. rewrite log_operationLog. apply last_snoc. Qed.

Lemma copy_step_keeps_backups targetPath backupPath stat :
  keeps backups (copy_step env targetPath backupPath stat).
Proof.
  unfold copy_step, createDirectoryBackup, createFileBackup,
    createManifestBackup.
  keeps_tac.
Qed.

Lemma createBackup_disabled targetPath operation st :
  enableBackup options = false ->
  createBackup env options targetPath operation st = (Js.Ok None, st).
Proof. intros Hoff. unfold createBackup. now rewrite Hoff. Qed.

Lemma createBackup_stat_error targetPath operation st e :
  enableBackup options = true ->
  Fs.stat env (root st) targetPath = Js.Throw e ->
  createBackup env options targetPath operation st
  = (Js.Ok None, backup_failed env options e (backup_started env options operation st)).
Proof.
  intros Hon Hstat. unfold createBackup. rewrite Hon. cbn [negb].
  unfold try_catch.
  rewrite (bind_ok _ _ st (Fs.idAt env (ticks st))
             (with_ticks (N.succ (ticks st)) st)) by reflexivity.
  cbv zeta. rewrite (bind_ok _ _ _ _ _ (log_eq _ _ _)).
  fold (backup_started env options operation st).
  rewrite (bind_throw _ _ _ e (backup_started env options operation st)).
  - rewrite (bind_ok _ _ _ _ _ (log_eq _ _ _)). reflexivity.
  - unfold lift, backup_started. rewrite root_log. cbn [root with_ticks].
    now rewrite Hstat.
Qed.

Lemma createBackup_copy_error targetPath operation st stat e st1 :
  enableBackup options = true ->
  Fs.stat env (root st) targetPath = Js.Ok stat ->
  copy_step env targetPath
    (Fs.join (backupLocation options) (Fs.idAt env (ticks st) ++ ".backup"))
    stat (backup_started env options operation st) = (Js.Throw e, st1) ->
  createBackup env options targetPath operation st
  = (Js.Ok None, backup_failed env options e st1).
Proof.
  intros Hon Hstat Hcopy. unfold createBackup. rewrite Hon. cbn [negb].
  unfold try_catch.
  rewrite (bind_ok _ _ st (Fs.idAt env (ticks st))
             (with_ticks (N.succ (ticks st)) st)) by reflexivity.
  cbv zeta. rewrite (bind_ok _ _ _ _ _ (log_eq _ _ _)).
  fold (backup_started env options operation st).
  rewrite (bind_ok _ _ _ stat (backup_started env options operation st)).
  - unfold copy_step in Hcopy. rewrite (bind_throw _ _ _ _ _ Hcopy).
    rewrite (bind_ok _ _ _ _ _ (log_eq _ _ _)). reflexivity.
  - unfold lift, backup_started. rewrite root_log. cbn [root with_ticks].
    now rewrite Hstat.
Qed.

Lemma createBackup_copied targetPath operation st stat st1 :
  enableBackup options = true ->
  Fs.stat env (root st) targetPath = Js.Ok stat ->
  copy_step env targetPath
    (Fs.join (backupLocation options) (Fs.idAt env (ticks st) ++ ".backup"))
    stat (backup_started env options operation st) = (Js.Ok tt, st1) ->
  exists st' b,
    createBackup env options targetPath operation st
    = (Js.Ok (Some (Fs.idAt env (ticks st))), st') /\
    backups st' = <[Fs.idAt env (ticks st) := b]> (backups st) /\
    id b = Fs.idAt env (ticks st) /\ originalPath b = targetPath /\
    backupPath b
    = Fs.join (backupLocation options) (Fs.idAt env (ticks st) ++ ".backup").
Proof.
  intros Hon Hstat Hcopy. unfold createBackup. rewrite Hon. cbn [negb].
  unfold try_catch.
  rewrite (bind_ok _ _ st (Fs.idAt env (ticks st))
             (with_ticks (N.succ (ticks st)) st)) by reflexivity.
  cbv zeta. rewrite (bind_ok _ _ _ _ _ (log_eq _ _ _)).
  fold (backup_started env options operation st).
  rewrite (bind_ok _ _ _ stat (backup_started env options operation st)).
  2:{ unfold lift, backup_started. rewrite root_log. cbn [root with_ticks].
      now rewrite Hstat. }
  unfold copy_step in Hcopy. rewrite (bind_ok _ _ _ _ _ Hcopy).
  rewrite (bind_ok _ _ st1 (ticks st1) (with_ticks (N.succ (ticks st1)) st1))
    by reflexivity.
  match goal with
  | |- context [bind (getBackupSize env ?p) _ ?s] =>
      destruct (returns_catch
                  (let* stat := lift (fun r => Fs.stat env r p) in
                   ret (Fs.st_size stat))
                  (fun _ => ret 0%N) ltac:(intros; apply returns_ret) s)
        as (sz & st2 & E2);
      pose proof (keeps_catch backups
                    (let* stat := lift (fun r => Fs.stat env r p) in
                     ret (Fs.st_size stat))
                    (fun _ => ret 0%N) ltac:(keeps_tac) ltac:(keeps_tac) s)
        as Hb2
  end.
  rewrite E2 in Hb2. cbn in Hb2.
  unfold getBackupSize. rewrite (bind_ok _ _ _ _ _ E2).
  unfold bind at 1, modify at 1.
  rewrite (bind_ok _ _ _ _ _ (log_eq _ _ _)).
  eexists. eexists. split; [reflexivity|].
  rewrite backups_log. cbn. rewrite Hb2.
  pose proof (copy_step_keeps_backups targetPath
                (Fs.join (backupLocation options)
                         (Fs.idAt env (ticks st) ++ ".backup"))
                stat (backup_started env options operation st)) as Hb1.
  unfold copy_step in Hb1. rewrite Hcopy in Hb1. cbn in Hb1. rewrite Hb1.
  unfold backup_started. rewrite backups_log. cbn.
  repeat split; reflexivity.
Qed.

(** With backups enabled [createBackup] ends in one of two ways. *)
Lemma createBackup_outcome targetPath operation st :
  enableBackup options = true ->
  exists st',
    (exists b,
       createBackup env options targetPath operation st
       = (Js.Ok (Some (Fs.idAt env (ticks st))), st') /\
       backups st' !! Fs.idAt env (ticks st) = Some b /\
       originalPath b = targetPath)
    \/
    (exists e,
       createBackup env options targetPath operation st = (Js.Ok None, st') /\
       last (operationLog st')
       = Some {| lvl := ERROR;
                 msg := "Failed to create backup: " ++ Js.message e |}).
Proof.
  intros Hon.
  destruct (Fs.stat env (root st) targetPath) as [stat|e] eqn:Hstat.
  - destruct (copy_step env targetPath
                (Fs.join (backupLocation options)
                         (Fs.idAt env (ticks st) ++ ".backup"))
                stat (backup_started env options operation st)) as [[[]|e] st1] eqn:Hcopy.
    + destruct (createBackup_copied targetPath operation st stat st1 Hon Hstat Hcopy)
        as (st' & b & Hrun & Hb & _ & Horig & _).
      exists st'. left. exists b. split; [exact Hrun|]. split; [|exact Horig].
      rewrite Hb. apply lookup_insert_eq.
    + eexists. right. exists e. split.
      * apply (createBackup_copy_error targetPath operation st stat e st1); auto.
      * apply last_log.
  - eexists. right. exists e. split.
    + apply (createBackup_stat_error targetPath operation st e Hon Hstat).
    + apply last_log.
Qed.


End BackupFacts.

Section RestoreFacts.
Import Process SecurityManager.
Local Open Scope proc_scope.
Variable env : Fs.Env.
Variable options : Options.

Lemma bind_ok_inv {A B} (m : M A) (k : A -> M B) st v st' :
  bind m k st = (Js.Ok v, st') ->
  exists x st1, m st = (Js.Ok x, st1) /\ k x st1 = (Js.Ok v, st').
Proof.
  unfold bind. destruct (m st) as [[x|e] st1]; [eauto|discriminate].
Qed.

Lemma restoreBackup_not_found backupId st :
  backups st !! backupId = None ->
  restoreBackup env options backupId st
  = (Js.Throw (Js.Error EmptyString ("Backup not found: " ++ backupId)), st).
Proof.
  intros Hnone. unfold restoreBackup.
  rewrite (bind_ok _ _ st None st) by (unfold gets; now rewrite Hnone).
  reflexivity.
Qed.

(** With a record in hand, [restoreBackup] answers a boolean; [false] comes
    with an ERROR entry as the last line of the log. *)
Lemma restoreBackup_found backupId backup st :
  backups st !! backupId = Some backup ->
  exists ok st',
    restoreBackup env options backupId st = (Js.Ok ok, st') /\
    (ok = false ->
     exists e, last (operationLog st')
               = Some {| lvl := ERROR;
                         msg := "Failed to restore backup: " ++ Js.message e |}).
Proof.
  intros Hsome. unfold restoreBackup.
  rewrite (bind_ok _ _ st (Some backup) st) by (unfold gets; now rewrite Hsome).
  unfold try_catch.
  match goal with
  | |- context [match ?body st with _ => _ end] =>
      destruct (body st) as [[v|e] st1] eqn:Hbody
  end.
  - exists v, st1. split; [reflexivity|]. intros ->. exfalso.
    apply bind_ok_inv in Hbody as (? & ? & _ & Hbody).
    apply bind_ok_inv in Hbody as (? & ? & _ & Hbody).
    apply bind_ok_inv in Hbody as (? & ? & _ & Hbody).
    apply bind_ok_inv in Hbody as (? & ? & _ & Hbody).
    apply bind_ok_inv in Hbody as (? & ? & _ & Hbody).
    discriminate Hbody.
  - rewrite (bind_ok _ _ _ _ _ (log_eq env options _ _ _)).
    eexists. eexists. split; [reflexivity|]. intros _. exists e.
    apply last_log.
Qed.

(** A backup file that cannot be read makes the restore answer [false]. *)
Lemma restoreBackup_unreadable backupId backup st e :
  backups st !! backupId = Some backup ->
  Fs.readFile env (root st) (backupPath backup) = Js.Throw e ->
  exists st',
    restoreBackup env options backupId st = (Js.Ok false, st') /\
    root st' = root st /\ calls st' = calls st /\
    last (operationLog st')
    = Some {| lvl := ERROR;
              msg := "Failed to restore backup: " ++ Js.message e |}.
Proof.
  intros Hsome Hread. unfold restoreBackup.
  rewrite (bind_ok _ _ st (Some backup) st) by (unfold gets; now rewrite Hsome).
  unfold try_catch.
  rewrite (bind_ok _ _ _ _ _ (log_eq env options _ _ _)).
  rewrite (bind_throw _ _ _ e
             (snd (log env options INFO ("Restoring from backup: " ++ backupId) st))).
  2:{ unfold lift. rewrite root_log. now rewrite Hread. }
  rewrite (bind_ok _ _ _ _ _ (log_eq env options _ _ _)).
  eexists. split; [reflexivity|]. cbn [snd].
  rewrite !root_log, last_log.
  rewrite !(log_keeps env options calls) by reflexivity.
  auto.
Qed.

End RestoreFacts.

Section CleanPathReturns.
Import Process Cleaner.
Local Open Scope proc_scope.

Lemma cleanPath_returns env options targetPath description category :
  returns (cleanPath env options targetPath description category).
Proof.
  unfold cleanPath. apply returns_catch. intros e.
  unfold trackOperation. returns_tac.
Qed.

End CleanPathReturns.

Section BackupClaims.
Import Process.

(** C6. [createBackup] hands back no identifier and raises nothing when
    backups are disabled. With backups enabled it never raises either: a
    failure of [stat] or of the copy is caught, an ERROR entry
    "Failed to create backup: ..." is logged and [null] is returned, and
    every [null] result comes with such an entry. [cleanPath], which calls
    it, always ends with a value. *)
Theorem createBackup_never_raises
    (env : Fs.Env) (options : SecurityManager.Options)
    (targetPath operation : string) :
  (forall st, SecurityManager.enableBackup options = false ->
     SecurityManager.createBackup env options targetPath operation st
     = (Js.Ok None, st)) /\
  (forall st, exists r st',
     SecurityManager.createBackup env options targetPath operation st
     = (Js.Ok r, st')) /\
  (forall st stat e st1,
     SecurityManager.enableBackup options = true ->
     Fs.stat env (root st) targetPath = Js.Ok stat ->
     SecurityManager.copy_step env targetPath
       (Fs.join (SecurityManager.backupLocation options)
                (Fs.idAt env (ticks st) ++ ".backup"))
       stat (SecurityManager.backup_started env options operation st)
     = (Js.Throw e, st1) ->
     exists st',
       SecurityManager.createBackup env options targetPath operation st
       = (Js.Ok None, st') /\
       last (operationLog st')
       = Some {| lvl := ERROR;
                 msg := "Failed to create backup: " ++ Js.message e |}) /\
  (forall st st',
     SecurityManager.enableBackup options = true ->
     SecurityManager.createBackup env options targetPath operation st
     = (Js.Ok None, st') ->
     exists e,
       last (operationLog st')
       = Some {| lvl := ERROR;
                 msg := "Failed to create backup: " ++ Js.message e |}) /\
  (forall cleanerOptions description category st, exists r st',
     Cleaner.cleanPath env cleanerOptions targetPath description category st
     = (Js.Ok r, st')).
Proof.
  split; [|split; [|split; [|split]]].
  - intros st Hoff. now apply createBackup_disabled.
  - intros st. apply createBackup_returns.
  - intros st stat e st1 Hon Hstat Hcopy. eexists. split.
    + apply (createBackup_copy_error env options targetPath operation
               st stat e st1 Hon Hstat Hcopy).
    + apply last_log.
  - intros st st' Hon Hrun.
    destruct (createBackup_outcome env options targetPath operation st Hon)
      as (st2 & [(b & Hrun2 & _)|(e & Hrun2 & Hlast)]).
    + rewrite Hrun in Hrun2. discriminate.
    + rewrite Hrun in Hrun2. injection Hrun2 as <-. eauto.
  - intros cleanerOptions description category st.
    apply cleanPath_returns.
Qed.

(** C8. [restoreBackup] raises "Backup not found" exactly when the id has
    no record. For a recorded backup it answers a boolean; a failure while
    restoring, such as a backup file that cannot be read, gives [false] and
    an ERROR entry in the log, not a raised error. *)
Theorem restoreBackup_not_found_or_boolean
    (env : Fs.Env) (options : SecurityManager.Options)
    (backupId : string) (st : State) :
  ((exists e st', SecurityManager.restoreBackup env options backupId st
                  = (Js.Throw e, st'))
   <-> backups st !! backupId = None) /\
  (backups st !! backupId = None ->
   SecurityManager.restoreBackup env options backupId st
   = (Js.Throw (Js.Error EmptyString ("Backup not found: " ++ backupId)), st)) /\
  (forall backup, backups st !! backupId = Some backup ->
   exists ok st',
     SecurityManager.restoreBackup env options backupId st = (Js.Ok ok, st') /\
     (ok = false ->
      exists e, last (operationLog st')
                = Some {| lvl := ERROR;
                          msg := "Failed to restore backup: " ++ Js.message e |})) /\
  (forall backup e, backups st !! backupId = Some backup ->
   Fs.readFile env (root st) (backupPath backup) = Js.Throw e ->
   exists st',
     SecurityManager.restoreBackup env options backupId st = (Js.Ok false, st') /\
     root st' = root st /\
     last (operationLog st')
     = Some {| lvl := ERROR;
               msg := "Failed to restore backup: " ++ Js.message e |}).
Proof.
  split; [|split; [|split]].
  - split.
    + intros (e & st' & Hrun).
      destruct (backups st !! backupId) as [backup|] eqn:Hb; [|reflexivity].
      destruct (restoreBackup_found env options backupId backup st Hb)
        as (ok & st2 & Hrun2 & _).
      rewrite Hrun in Hrun2. discriminate.
    + intros Hnone. rewrite (restoreBackup_not_found env options _ _ Hnone).
      eauto.
  - apply restoreBackup_not_found.
  - intros backup Hb. now apply (restoreBackup_found env options backupId backup).
  - intros backup e Hb Hread.
    destruct (restoreBackup_unreadable env options backupId backup st e Hb Hread)
      as (st' & Hrun & Hroot & _ & Hlast).
    eauto.
Qed.

End BackupClaims.

Section BackupWitnesses.
Import Process Fixtures.

Lemma createBackup_never_raises_witness :
  (exists st',
     SecurityManager.createBackup (env sealed)
       (Cleaner.securityOptions (env sealed) real_run) "/tmp/fixture" "delete" state0
     = (Js.Ok None, st') /\
     last (operationLog st')
     = Some {| lvl := ERROR;
               msg := "Failed to create backup: Failed to create manifest backup: EACCES: open '/home/u/.ultra-cleaner-backups/b0.backup'" |}) /\
  SecurityManager.createBackup (env permissive)
    (Cleaner.securityOptions (env permissive) {| Cleaner.dryRun := false; Cleaner.mode := "quick";
          Cleaner.customAreas := None; Cleaner.enableBackup := false;
          Cleaner.enableLogging := true; Cleaner.enableAnalytics := true |})
    "/tmp/fixture" "delete" state0
  = (Js.Ok None, state0).
Proof.
  split.
  - destruct (createBackup_never_raises (env sealed)
                (Cleaner.securityOptions (env sealed) real_run)
                "/tmp/fixture" "delete") as (_ & _ & Hcopy & _).
    eapply (Hcopy state0 {| Fs.isDirectory := true; Fs.st_size := 4096 |}
              (Js.Error EmptyString
                 "Failed to create manifest backup: EACCES: open '/home/u/.ultra-cleaner-backups/b0.backup'")).
    + reflexivity.
    + reflexivity.
    + vm_compute. reflexivity.
  - apply (proj1 (createBackup_never_raises (env permissive) _
                    "/tmp/fixture" "delete")).
    reflexivity.
Defined.

Lemma restoreBackup_not_found_or_boolean_witness :
  SecurityManager.restoreBackup (env permissive)
    (Cleaner.securityOptions (env permissive) real_run) "b0" state_with_orphan
  = (Js.Throw (Js.Error EmptyString "Backup not found: b0"), state_with_orphan) /\
  exists st',
    SecurityManager.restoreBackup (env permissive)
      (Cleaner.securityOptions (env permissive) real_run) "b7" state_with_orphan
    = (Js.Ok false, st') /\
    root st' = disk /\
    last (operationLog st')
    = Some {| lvl := ERROR;
              msg := "Failed to restore backup: ENOENT: open '/home/u/.ultra-cleaner-backups/b7.backup'" |}.
Proof.
  split.
  - apply (proj1 (proj2 (restoreBackup_not_found_or_boolean (env permissive)
             (Cleaner.securityOptions (env permissive) real_run) "b0"
             state_with_orphan))).
    reflexivity.
  - apply (proj2 (proj2 (proj2 (restoreBackup_not_found_or_boolean (env permissive)
             (Cleaner.securityOptions (env permissive) real_run) "b7"
             state_with_orphan))) orphan
             (Fs.sys_error "ENOENT" "open" "/home/u/.ultra-cleaner-backups/b7.backup")).
    + reflexivity.
    + reflexivity.
Defined.

(** A backup made by copying a directory is itself a directory: reading it
    back as a manifest fails, and the restore answers [false]. *)
Example restoreBackup_directory_copy :
  let st := snd (Cleaner.cleanPath (env permissive) real_run
                   "/tmp/fixture" "fixture" "user" state0) in
  fst (SecurityManager.restoreBackup (env permissive)
         (Cleaner.securityOptions (env permissive) real_run) "b0" st)
  = Js.Ok false.
Proof. vm_compute. reflexivity. Qed.

End BackupWitnesses.
(** ** More on the security manager *)
Section ValidationFacts.
Import Process SecurityManager.
Local Open Scope proc_scope.
Variable env : Fs.Env.
Variable options : Options.

Lemma validateOperation_passes targetPath operation st :
  Fs.access env (root st) targetPath = Js.Ok tt ->
  Fs.access_rw env (root st) targetPath = Js.Ok tt ->
  exists st',
    validateOperation env options targetPath operation st = (Js.Ok true, st').
Proof.
  intros Ha Hrw. unfold validateOperation.
  match goal with
  | |- context [for_each ?l ?f] =>
      destruct (for_each_returns l f ltac:(intros x; cbv beta; returns_tac) st)
        as ([] & st1 & E1)
  end.
  destruct (log_returns env options INFO
              ("Operation validated: " ++ operation) st1) as ([] & st2 & E2).
  exists st2. apply try_ok.
  rewrite (bind_ok _ _ st tt st) by (unfold lift; now rewrite Ha).
  rewrite (bind_ok _ _ st tt st)
    by (apply try_ok; unfold lift; now rewrite Hrw).
  rewrite (bind_ok _ _ _ _ _ E1). rewrite (bind_ok _ _ _ _ _ E2).
  reflexivity.
Qed.

Lemma validateOperation_fails targetPath operation st :
  Fs.access env (root st) targetPath <> Js.Ok tt \/
  Fs.access_rw env (root st) targetPath <> Js.Ok tt ->
  exists e,
    validateOperation env options targetPath operation st
    = (Js.Ok false,
       snd (log env options ERROR
              ("Operation validation failed: " ++ Js.message e) st)).
Proof.
  intros Hbad. unfold validateOperation.
  destruct (Fs.access env (root st) targetPath) as [[]|e] eqn:Ha.
  - destruct Hbad as [Hbad|Hbad]; [congruence|].
    destruct (Fs.access_rw env (root st) targetPath) as [[]|e] eqn:Hrw;
      [congruence|].
    exists (Js.Error EmptyString ("Insufficient permissions for: " ++ targetPath)).
    rewrite (try_throw _ _ st
               (Js.Error EmptyString ("Insufficient permissions for: " ++ targetPath))
               st).
    + rewrite (bind_ok _ _ _ _ _ (log_eq env options _ _ _)). reflexivity.
    + rewrite (bind_ok _ _ st tt st) by (unfold lift; now rewrite Ha).
      apply bind_throw. apply try_throw with (e := e) (st' := st).
      unfold lift. now rewrite Hrw.
  - exists e. rewrite (try_throw _ _ st e st).
    + rewrite (bind_ok _ _ _ _ _ (log_eq env options _ _ _)). reflexivity.
    + apply bind_throw. unfold lift. now rewrite Ha.
Qed.

Lemma summary_after_log lv m st :
  let s := SecurityOps.getOperationSummary st in
  let s' := SecurityOps.getOperationSummary (snd (log env options lv m st)) in
  SecurityOps.totalOperations s' = S (SecurityOps.totalOperations s) /\
  SecurityOps.errors s'
  = (SecurityOps.errors s + if SecurityOps.is_level ERROR {| lvl := lv; msg := m |}
                            then 1 else 0)%nat /\
  SecurityOps.backupCount s' = SecurityOps.backupCount s.
Proof.
  unfold SecurityOps.getOperationSummary. cbn [SecurityOps.totalOperations
    SecurityOps.errors SecurityOps.backupCount].
  rewrite log_operationLog, backups_log.
  rewrite List.filter_app, !length_app. cbn [List.filter].
  destruct (SecurityOps.is_level ERROR {| lvl := lv; msg := m |}); cbn; lia.
Qed.

End ValidationFacts.

Section ValidationExtras.
Import Process.

(** X1. [validateOperation] never raises and never touches the tree or the
    backup records. Its verdict is [true] exactly when the path exists and
    both access checks pass; system paths only add warnings. A [false]
    verdict appends exactly one entry to the log, an ERROR, so the
    operation summary counts one more operation and one more error. *)
Theorem validateOperation_verdict
    (env : Fs.Env) (options : SecurityManager.Options)
    (targetPath operation : string) (st : State) :
  exists ok st',
    SecurityManager.validateOperation env options targetPath operation st
    = (Js.Ok ok, st') /\
    root st' = root st /\ calls st' = calls st /\ backups st' = backups st /\
    (ok = true <->
     Fs.access env (root st) targetPath = Js.Ok tt /\
     Fs.access_rw env (root st) targetPath = Js.Ok tt) /\
    (ok = false ->
     (exists e,
        operationLog st'
        = (operationLog st
           ++ [{| lvl := ERROR;
                  msg := "Operation validation failed: " ++ Js.message e |}])%list) /\
     SecurityOps.totalOperations (SecurityOps.getOperationSummary st')
     = S (SecurityOps.totalOperations (SecurityOps.getOperationSummary st)) /\
     SecurityOps.errors (SecurityOps.getOperationSummary st')
     = S (SecurityOps.errors (SecurityOps.getOperationSummary st))).
Proof.
  assert (Hk : forall {B} (f : State -> B) ok st',
             SecurityManager.validateOperation env options targetPath operation st
             = (Js.Ok ok, st') ->
             (forall l lf s, f (with_log l lf s) = f s) -> f st' = f st).
  { intros B f ok st' Hrun Hf.
    pose proof (validateOperation_keeps env options f targetPath operation Hf st)
      as H.
    now rewrite Hrun in H. }
  destruct (Fs.access env (root st) targetPath) as [[]|ea] eqn:Ha.
  - destruct (Fs.access_rw env (root st) targetPath) as [[]|erw] eqn:Hrw.
    + destruct (validateOperation_passes env options targetPath operation st Ha Hrw)
        as (st' & Hrun).
      exists true, st'. split; [exact Hrun|].
      repeat (split; [apply (Hk _ _ true st' Hrun); reflexivity|]).
      split; [tauto|discriminate].
    + destruct (validateOperation_fails env options targetPath operation st)
        as (e & Hrun); [right; rewrite Hrw; discriminate|].
      eexists false, _. split; [exact Hrun|].
      repeat (split; [apply (Hk _ _ false _ Hrun); reflexivity|]).
      split; [split; [discriminate|intros [_ H]; discriminate H]|].
      intros _. split; [exists e; apply log_operationLog|].
      destruct (summary_after_log env options ERROR
                  ("Operation validation failed: " ++ Js.message e) st)
        as (Ht & He & _).
      cbn [SecurityOps.is_level lvl] in He. split; [exact Ht|]. rewrite He. lia.
  - destruct (validateOperation_fails env options targetPath operation st)
      as (e & Hrun); [left; rewrite Ha; discriminate|].
    eexists false, _. split; [exact Hrun|].
    repeat (split; [apply (Hk _ _ false _ Hrun); reflexivity|]).
    split; [split; [discriminate|intros [H _]; discriminate H]|].
    intros _. split; [exists e; apply log_operationLog|].
    destruct (summary_after_log env options ERROR
                ("Operation validation failed: " ++ Js.message e) st)
      as (Ht & He & _).
    cbn [SecurityOps.is_level lvl] in He. split; [exact Ht|]. rewrite He. lia.
Qed.

(** X2. [rollbackOperation] restores nothing: the backup records carry no
    [operationId], so no record is ever related to the operation. For every
    operation id the tree, the issued calls and the records stay as they
    were, and the only effect is a SUCCESS entry in the log. *)
Theorem rollbackOperation_restores_nothing
    (env : Fs.Env) (options : SecurityManager.Options)
    (operationId : string) (st : State) :
  exists st',
    SecurityOps.rollbackOperation env options operationId st = (Js.Ok tt, st') /\
    root st' = root st /\ calls st' = calls st /\ backups st' = backups st /\
    operationLog st'
    = (operationLog st
       ++ [{| lvl := SUCCESS; msg := "Operation rolled back: " ++ operationId |}])%list.
Proof.
  unfold SecurityOps.rollbackOperation.
  assert (Hnone : forall l : list BackupRecord,
             List.filter (fun backup =>
               SecurityOps.strictly_equal (SecurityOps.operationId_of backup)
                                          operationId) l = []).
  { induction l as [|b l IH]; [reflexivity|]. cbn. exact IH. }
  eexists. split.
  - rewrite (bind_ok _ _ st [] st) by (unfold gets; now rewrite Hnone).
    cbn [SecurityManager.for_each].
    rewrite (bind_ok _ _ st tt st) by reflexivity.
    apply log_eq.
  - rewrite root_log, backups_log, log_operationLog.
    rewrite (log_keeps env options calls) by reflexivity. auto.
Qed.

End ValidationExtras.

(** ** Restoring *)
Section TreeFacts.

Lemma find_set name c es : Fs.find name (Fs.set name c es) = Some c.
Proof.
  induction es as [|[n d] es IH]; cbn.
  - now rewrite String.eqb_refl.
  - destruct (String.eqb n name) eqn:E; cbn; rewrite E; [reflexivity|exact IH].
Qed.

(** What [put] stores at a path is what [lookup] finds there. *)
Lemma lookup_put segs : forall root new root',
  Fs.put root segs new = Some root' -> Fs.lookup root' segs = Some new.
Proof.
  induction segs as [|s rest IH]; intros root new root' Hput.
  - cbn in Hput. injection Hput as <-. reflexivity.
  - cbn [Fs.put] in Hput. destruct root as [sz data|es]; [discriminate|].
    destruct rest as [|s2 rest].
    + injection Hput as <-. cbn. now rewrite find_set.
    + destruct (Fs.find s es) as [c|]; [|discriminate].
      destruct (Fs.put c (s2 :: rest) new) as [c'|] eqn:Hc; [|discriminate].
      injection Hput as <-. cbn [Fs.lookup]. rewrite find_set.
      now apply (IH c new c').
Qed.

Lemma cp_stores env root src dst root' n :
  Fs.lookup root (Fs.segments src) = Some n ->
  Fs.cp env root src dst = (Js.Ok tt, root') ->
  Fs.lookup root' (Fs.segments dst) = Some n.
Proof.
  intros Hsrc Hcp. unfold Fs.cp in Hcp. rewrite Hsrc in Hcp.
  destruct (Fs.denied env Fs.Cp src || Fs.denied env Fs.Cp dst); [discriminate|].
  unfold Fs.write in Hcp.
  destruct (Fs.segments dst) as [|s rest] eqn:Hsegs; [discriminate|].
  destruct (Fs.put root (s :: rest) n) as [r|] eqn:Hput; [|discriminate].
  injection Hcp as <-. now apply (lookup_put (s :: rest) root).
Qed.

End TreeFacts.

Section RestoreMore.
Import Process SecurityManager.
Local Open Scope proc_scope.
Variable env : Fs.Env.
Variable options : Options.

(** A restore that answers [true] has read and parsed its backup file. *)
Lemma restoreBackup_true_inv backupId backup st st' :
  backups st !! backupId = Some backup ->
  restoreBackup env options backupId st = (Js.Ok true, st') ->
  exists data,
    Fs.readFile env (root st) (backupPath backup) = Js.Ok data /\
    data <> Fs.Opaque /\ data <> Fs.NullJson.
Proof.
  intros Hsome Hrun. unfold restoreBackup in Hrun.
  rewrite (bind_ok _ _ st (Some backup) st) in Hrun
    by (unfold gets; now rewrite Hsome).
  unfold try_catch in Hrun.
  match type of Hrun with
  | context [match ?body st with _ => _ end] =>
      destruct (body st) as [[v|e] st1] eqn:Hbody
  end.
  - rewrite (bind_ok _ _ _ _ _ (log_eq env options _ _ _)) in Hbody.
    apply bind_ok_inv in Hbody as (data & st2 & Hread & Hbody).
    unfold lift in Hread. rewrite root_log in Hread.
    injection Hread as Hread <-.
    exists data. split; [exact Hread|].
    apply bind_ok_inv in Hbody as (parsed & st3 & Hparse & Hbody).
    destruct data; cbn in Hparse; try discriminate Hparse;
      injection Hparse as <- <-.
    + split; discriminate.
    + split; discriminate.
    + apply bind_ok_inv in Hbody as (? & ? & Hthrow & _). discriminate Hthrow.
  - rewrite (bind_ok _ _ _ _ _ (log_eq env options _ _ _)) in Hrun.
    discriminate Hrun.
Qed.

(** Restoring from a manifest: the calls issued are [mkdir]s of directory
    entries of the manifest. *)
Lemma manifest_loop_calls (files all : list Fs.manifestFile) st :
  (forall f, In f files -> In f all) ->
  exists l,
    calls (snd (for_each files (fun file =>
      if Fs.mf_isDirectory file
      then change (Fs.CallMkdir (Fs.mf_path file))
                  (fun r => Fs.mkdir env r (Fs.mf_path file))
      else log env options WARN
             ("Cannot restore file content from manifest: " ++ Fs.mf_path file))
      st)) = (calls st ++ l)%list /\
    Forall (fun c => exists f, In f all /\ Fs.mf_isDirectory f = true /\
                               c = Fs.CallMkdir (Fs.mf_path f)) l.
Proof.
  revert st. induction files as [|file files IH]; intros st Hall.
  - exists []. cbn. split; [now rewrite app_nil_r|constructor].
  - cbn [for_each]. unfold bind at 1.
    destruct (Fs.mf_isDirectory file) eqn:Hdir.
    + unfold change at 1.
      destruct (Fs.mkdir env (root st) (Fs.mf_path file)) as [[[]|e] root1].
      * destruct (IH (with_root root1 (calls st ++ [Fs.CallMkdir (Fs.mf_path file)]) st))
          as (l & Hl & HF); [intros; apply Hall; now right|].
        exists (Fs.CallMkdir (Fs.mf_path file) :: l). split.
        -- rewrite Hl. cbn [calls with_root]. now rewrite <- app_assoc.
        -- constructor; [|exact HF]. exists file. split; [apply Hall; now left|auto].
      * exists [Fs.CallMkdir (Fs.mf_path file)]. split; [reflexivity|].
        constructor; [|constructor]. exists file. split; [apply Hall; now left|auto].
    + rewrite (log_eq env options _ _ _).
      destruct (IH (snd (log env options WARN
                  ("Cannot restore file content from manifest: " ++ Fs.mf_path file) st)))
        as (l & Hl & HF); [intros; apply Hall; now right|].
      exists l. split; [|exact HF]. rewrite Hl.
      now rewrite (log_keeps env options calls) by reflexivity.
Qed.

End RestoreMore.

Section BackupMore.
Import Process SecurityManager.
Local Open Scope proc_scope.
Variable env : Fs.Env.
Variable options : Options.

(** After a copy step that went through, [createBackup] records the backup
    and leaves the tree as the copy step left it. *)
Lemma createBackup_copied_tree targetPath operation st stat st1 :
  enableBackup options = true ->
  Fs.stat env (root st) targetPath = Js.Ok stat ->
  copy_step env targetPath
    (Fs.join (backupLocation options) (Fs.idAt env (ticks st) ++ ".backup"))
    stat (backup_started env options operation st) = (Js.Ok tt, st1) ->
  exists st' b,
    createBackup env options targetPath operation st
    = (Js.Ok (Some (Fs.idAt env (ticks st))), st') /\
    root st' = root st1 /\ calls st' = calls st1 /\
    backups st' !! Fs.idAt env (ticks st) = Some b /\
    originalPath b = targetPath /\
    backupPath b
    = Fs.join (backupLocation options) (Fs.idAt env (ticks st) ++ ".backup").
Proof.
  intros Hon Hstat Hcopy. unfold createBackup. rewrite Hon. cbn [negb].
  unfold try_catch.
  rewrite (bind_ok _ _ st (Fs.idAt env (ticks st))
             (with_ticks (N.succ (ticks st)) st)) by reflexivity.
  cbv zeta. rewrite (bind_ok _ _ _ _ _ (log_eq _ _ _ _ _)).
  fold (backup_started env options operation st).
  rewrite (bind_ok _ _ _ stat (backup_started env options operation st)).
  2:{ unfold lift, backup_started. rewrite root_log. cbn [root with_ticks].
      now rewrite Hstat. }
  unfold copy_step in Hcopy. rewrite (bind_ok _ _ _ _ _ Hcopy).
  rewrite (bind_ok _ _ st1 (ticks st1) (with_ticks (N.succ (ticks st1)) st1))
    by reflexivity.
  match goal with
  | |- context [bind (getBackupSize env ?p) _ ?s] =>
      destruct (returns_catch
                  (let* stat := lift (fun r => Fs.stat env r p) in
                   ret (Fs.st_size stat))
                  (fun _ => ret 0%N) ltac:(intros; apply returns_ret) s)
        as (sz & st2 & E2);
      pose proof (keeps_catch root
                    (let* stat := lift (fun r => Fs.stat env r p) in
                     ret (Fs.st_size stat))
                    (fun _ => ret 0%N) ltac:(keeps_tac) ltac:(keeps_tac) s)
        as Hr2;
      pose proof (keeps_catch calls
                    (let* stat := lift (fun r => Fs.stat env r p) in
                     ret (Fs.st_size stat))
                    (fun _ => ret 0%N) ltac:(keeps_tac) ltac:(keeps_tac) s)
        as Hc2
  end.
  rewrite E2 in Hr2, Hc2. cbn in Hr2, Hc2.
  unfold getBackupSize. rewrite (bind_ok _ _ _ _ _ E2).
  unfold bind at 1, modify at 1.
  rewrite (bind_ok _ _ _ _ _ (log_eq _ _ _ _ _)).
  eexists. eexists. split; [reflexivity|].
  rewrite root_log, backups_log.
  rewrite (log_keeps env options calls) by reflexivity.
  cbn. rewrite Hr2, Hc2, lookup_insert_eq. auto.
Qed.

End BackupMore.

Section RestoreExtras.
Import Process.

(** X3. A restore answers [true] only for a backup that is a readable
    regular file holding JSON other than [null]. A backup stored as a
    directory is never restored: the answer is [false] and neither the tree
    nor the list of issued calls changes. *)
Theorem restoreBackup_needs_json_file
    (env : Fs.Env) (options : SecurityManager.Options)
    (backupId : string) (backup : BackupRecord) (st : State) :
  backups st !! backupId = Some backup ->
  (forall st',
     SecurityManager.restoreBackup env options backupId st = (Js.Ok true, st') ->
     exists size data,
       Fs.lookup (root st) (Fs.segments (backupPath backup))
       = Some (Fs.File size data) /\
       data <> Fs.Opaque /\ data <> Fs.NullJson) /\
  (forall entries,
     Fs.lookup (root st) (Fs.segments (backupPath backup))
     = Some (Fs.Dir entries) ->
     exists st',
       SecurityManager.restoreBackup env options backupId st = (Js.Ok false, st') /\
       root st' = root st /\ calls st' = calls st).
Proof.
  intros Hsome. split.
  - intros st' Hrun.
    destruct (restoreBackup_true_inv env options backupId backup st st' Hsome Hrun)
      as (data & Hread & Hop & Hnull).
    unfold Fs.readFile in Hread.
    destruct (Fs.lookup (root st) (Fs.segments (backupPath backup)))
      as [[sz d|es]|]; try discriminate Hread.
    destruct (Fs.denied env Fs.ReadFile (backupPath backup)); [discriminate|].
    injection Hread as ->. eauto.
  - intros entries Hdir.
    destruct (restoreBackup_unreadable env options backupId backup st
                (Fs.sys_error "EISDIR" "read" (backupPath backup)) Hsome)
      as (st' & Hrun & Hroot & Hcalls & _).
    + unfold Fs.readFile. now rewrite Hdir.
    + eauto.
Qed.

(** X4. Backing up a directory whose recursive copy goes through and then
    restoring that backup does not bring anything back: [createBackup]
    hands out an id, and [restoreBackup] of that id answers [false] and
    leaves the tree as it was, because the backup is a directory and cannot
    be read as a manifest. *)
Theorem createBackup_then_restoreBackup_of_directory
    (env : Fs.Env) (options : SecurityManager.Options)
    (targetPath operation : string) (entries : list (string * Fs.node))
    (copied : Fs.node) (st : State) :
  SecurityManager.enableBackup options = true ->
  Fs.lookup (root st) (Fs.segments targetPath) = Some (Fs.Dir entries) ->
  Fs.denied env Fs.Stat targetPath = false ->
  Fs.cp env (root st) targetPath
    (Fs.join (SecurityManager.backupLocation options)
             (Fs.idAt env (ticks st) ++ ".backup"))
  = (Js.Ok tt, copied) ->
  exists st1,
    SecurityManager.createBackup env options targetPath operation st
    = (Js.Ok (Some (Fs.idAt env (ticks st))), st1) /\
    root st1 = copied /\
    exists st2,
      SecurityManager.restoreBackup env options (Fs.idAt env (ticks st)) st1
      = (Js.Ok false, st2) /\
      root st2 = copied /\ calls st2 = calls st1.
Proof.
  intros Hon Hdir Hstat Hcp.
  set (bp := Fs.join (SecurityManager.backupLocation options)
                     (Fs.idAt env (ticks st) ++ ".backup")) in *.
  assert (Hs : Fs.stat env (root st) targetPath
               = Js.Ok {| Fs.isDirectory := true; Fs.st_size := Fs.dirSize env |}).
  { unfold Fs.stat, Fs.stat_node. now rewrite Hdir, Hstat. }
  assert (Hcopy :
    SecurityManager.copy_step env targetPath bp
      {| Fs.isDirectory := true; Fs.st_size := Fs.dirSize env |}
      (SecurityManager.backup_started env options operation st)
    = (Js.Ok tt,
       with_root copied
         (calls (SecurityManager.backup_started env options operation st)
          ++ [Fs.CallCp targetPath bp])
         (SecurityManager.backup_started env options operation st))).
  { unfold SecurityManager.copy_step. cbn [Fs.isDirectory].
    unfold SecurityManager.createDirectoryBackup. apply try_ok.
    unfold change, SecurityManager.backup_started. rewrite root_log.
    cbn [root with_ticks]. now rewrite Hcp. }
  destruct (createBackup_copied_tree env options targetPath operation st _ _
              Hon Hs Hcopy)
    as (st1 & b & Hrun & Hroot & Hcalls & Hb & _ & Hpath).
  exists st1. split; [exact Hrun|]. split; [exact Hroot|].
  assert (Hstored : Fs.lookup (root st1) (Fs.segments (backupPath b))
                    = Some (Fs.Dir entries)).
  { rewrite Hroot, Hpath. cbn [root with_root].
    apply (cp_stores env (root st) targetPath bp copied _ Hdir Hcp). }
  destruct (restoreBackup_unreadable env options (Fs.idAt env (ticks st)) b st1
              (Fs.sys_error "EISDIR" "read" (backupPath b)) Hb)
    as (st2 & Hrun2 & Hroot2 & Hcalls2 & _).
  - unfold Fs.readFile. now rewrite Hstored.
  - exists st2. split; [exact Hrun2|]. split; [|exact Hcalls2].
    rewrite Hroot2, Hroot. reflexivity.
Qed.

(** X5. Restoring from a manifest never copies or writes a file: every call
    it issues is the [mkdir] of a directory entry of the manifest. The
    contents of the files listed in a manifest are not brought back. *)
Theorem restoreBackup_from_manifest
    (env : Fs.Env) (options : SecurityManager.Options)
    (backupId : string) (backup : BackupRecord) (m : Fs.Manifest) (st : State) :
  backups st !! backupId = Some backup ->
  Fs.readFile env (root st) (backupPath backup) = Js.Ok (Fs.ManifestJson m) ->
  exists ok st' issued,
    SecurityManager.restoreBackup env options backupId st = (Js.Ok ok, st') /\
    calls st' = (calls st ++ issued)%list /\
    Forall (fun c => exists f, In f (Fs.files m) /\
                               Fs.mf_isDirectory f = true /\
                               c = Fs.CallMkdir (Fs.mf_path f)) issued.
Proof.
  intros Hsome Hread. unfold SecurityManager.restoreBackup.
  rewrite (bind_ok _ _ st (Some backup) st) by (unfold gets; now rewrite Hsome).
  unfold try_catch.
  rewrite (bind_ok _ _ _ _ _ (log_eq env options _ _ _)).
  set (s1 := snd (SecurityManager.log env options INFO
                    ("Restoring from backup: " ++ backupId) st)).
  rewrite (bind_ok _ _ s1 (Fs.ManifestJson m) s1)
    by (unfold lift; subst s1; rewrite root_log; now rewrite Hread).
  rewrite (bind_ok _ _ s1 (Fs.ManifestJson m) s1) by reflexivity.
  destruct (manifest_loop_calls env options (Fs.files m) (Fs.files m) s1)
    as (l & Hl & HF); [auto|].
  assert (Hs1 : calls s1 = calls st)
    by (subst s1; now rewrite (log_keeps env options calls) by reflexivity).
  unfold bind at 1.
  match goal with
  | |- context [SecurityManager.for_each ?fs ?f s1] =>
      destruct (SecurityManager.for_each fs f s1) as [[[]|e] s2] eqn:Hloop
  end; cbn [snd] in Hl.
  - rewrite (bind_ok _ _ _ _ _ (log_eq env options _ _ _)).
    exists true. eexists. exists l. split; [reflexivity|]. split; [|exact HF].
    rewrite (log_keeps env options calls) by reflexivity. now rewrite Hl, Hs1.
  - rewrite (bind_ok _ _ _ _ _ (log_eq env options _ _ _)).
    exists false. eexists. exists l. split; [reflexivity|]. split; [|exact HF].
    rewrite (log_keeps env options calls) by reflexivity. now rewrite Hl, Hs1.
Qed.

End RestoreExtras.
(** ** More on measuring and cleaning *)
Section SkipFacts.
Import Process Cleaner.
Local Open Scope proc_scope.
Variable env : Fs.Env.
Variable options : Cleaner.Options.

(** When validation fails or nothing is measured, [cleanPath] ends in the
    state validation left. *)
Lemma cleanPath_skips targetPath description category st :
  Fs.access env (root st) targetPath <> Js.Ok tt \/
  Fs.access_rw env (root st) targetPath <> Js.Ok tt \/
  size (measure env (root st) targetPath) = 0%N ->
  cleanPath env options targetPath description category st
  = (Js.Ok {| size := 0; count := 0 |},
     snd (SecurityManager.validateOperation env (securityOptions env options)
            targetPath "delete" st)).
Proof.
  intros Hskip.
  destruct (validateOperation_returns env (securityOptions env options)
              targetPath "delete" st) as (isValid & st1 & Ev).
  rewrite Ev. cbn [snd]. unfold cleanPath. apply try_ok.
  rewrite (bind_ok _ _ _ _ _ Ev).
  destruct isValid; cbn [negb]; [|reflexivity].
  assert (Hsize : size (measure env (root st) targetPath) = 0%N).
  { destruct Hskip as [Hbad|[Hbad|Hzero]]; [| |exact Hzero].
    - destruct (validateOperation_fails env (securityOptions env options)
                  targetPath "delete" st (or_introl Hbad)) as (e & Hrun).
      rewrite Ev in Hrun. discriminate.
    - destruct (validateOperation_fails env (securityOptions env options)
                  targetPath "delete" st (or_intror Hbad)) as (e & Hrun).
      rewrite Ev in Hrun. discriminate. }
  assert (Hroot : root st1 = root st).
  { pose proof (validateOperation_keeps env (securityOptions env options)
                  root targetPath "delete" ltac:(reflexivity) st) as H.
    now rewrite Ev in H. }
  destruct (exists_run env targetPath st1) as (b & Eb & _).
  rewrite (bind_ok _ _ _ _ _ Eb).
  destruct b; cbn [negb]; [|reflexivity].
  rewrite (bind_ok _ _ _ _ _ (getFolderSize_run env targetPath false st1)).
  cbv zeta. rewrite Hroot, Hsize. reflexivity.
Qed.

Lemma measure_regular_file root folderPath fsize data :
  Fs.lookup root (Fs.segments folderPath) = Some (Fs.File fsize data) ->
  measure env root folderPath = {| size := 0; count := 0 |}.
Proof.
  intros Hfile. unfold measure, calculateRecursive_from. now rewrite Hfile.
Qed.

End SkipFacts.

Section SkipExtras.
Import Process Cleaner.

(** X6. A target that is a regular file is never cleaned: the measurement
    of a regular file is [{ size: 0, count: 0 }] whatever its size, so
    [cleanPath] returns [{ size: 0, count: 0 }], issues no call, and the
    file, the backup records and the counters stay as they were. *)
Theorem cleanPath_regular_file_target
    (env : Fs.Env) (options : Cleaner.Options)
    (targetPath description category : string)
    (fsize : N) (data : Fs.content) (st : State) :
  Fs.lookup (root st) (Fs.segments targetPath) = Some (Fs.File fsize data) ->
  getFolderSize env targetPath false st
  = (Js.Ok {| size := 0; count := 0 |}, st) /\
  exists st',
    cleanPath env options targetPath description category st
    = (Js.Ok {| size := 0; count := 0 |}, st') /\
    root st' = root st /\ calls st' = calls st /\
    backups st' = backups st /\ stats st' = stats st /\
    currentSession st' = currentSession st.
Proof.
  intros Hfile. split.
  - rewrite getFolderSize_run.
    now rewrite (measure_regular_file env _ _ _ _ Hfile).
  - eexists. split.
    + apply cleanPath_skips. right. right.
      now rewrite (measure_regular_file env _ _ _ _ Hfile).
    + repeat split;
        apply (validateOperation_keeps env (securityOptions env options));
        reflexivity.
Qed.

(** X7. A target that does not exist or fails one of the access checks is
    skipped: [cleanPath] returns [{ size: 0, count: 0 }] without raising,
    changes neither the tree nor the counters nor the analytics session,
    and the log gets exactly one new entry, the validation ERROR. *)
Theorem cleanPath_invalid_target
    (env : Fs.Env) (options : Cleaner.Options)
    (targetPath description category : string) (st : State) :
  Fs.access env (root st) targetPath <> Js.Ok tt \/
  Fs.access_rw env (root st) targetPath <> Js.Ok tt ->
  exists st' e,
    cleanPath env options targetPath description category st
    = (Js.Ok {| size := 0; count := 0 |}, st') /\
    root st' = root st /\ calls st' = calls st /\
    backups st' = backups st /\ stats st' = stats st /\
    currentSession st' = currentSession st /\
    operationLog st'
    = (operationLog st
       ++ [{| lvl := ERROR;
              msg := "Operation validation failed: " ++ Js.message e |}])%list.
Proof.
  intros Hbad.
  destruct (validateOperation_fails env (securityOptions env options)
              targetPath "delete" st Hbad) as (e & Hrun).
  eexists. exists e. split.
  - apply cleanPath_skips. tauto.
  - rewrite Hrun. cbn [snd].
    rewrite root_log, backups_log, log_operationLog.
    rewrite !(log_keeps env (securityOptions env options)) by reflexivity.
    repeat split; reflexivity.
Qed.

End SkipExtras.

Section WalkFacts.
Import Process Cleaner.
Variable env : Fs.Env.
Hypothesis readable : forall p, Fs.denied env Fs.Readdir p = false.
Hypothesis statable : forall p, Fs.denied env Fs.Stat p = false.

(** Induction on trees, with the hypothesis available for every entry. *)
Lemma node_induction (P : Fs.node -> Prop) :
  (forall fsize data, P (Fs.File fsize data)) ->
  (forall items, Forall (fun e => P (snd e)) items -> P (Fs.Dir items)) ->
  forall n, P n.
Proof.
  intros Hfile Hdir. fix IH 1. intros [fsize data|items].
  - apply Hfile.
  - apply Hdir. induction items as [|[name item] items IHitems].
    + constructor.
    + constructor; [apply IH|exact IHitems].
Qed.

Lemma walk_bounds_all n : CleanerSpec.walk_bounds env n.
Proof.
  induction n as [fsize data|items IH] using node_induction;
    intros currentPath t; [exact I|].
  cbn [calculateRecursive bytes_below files_below]. rewrite readable.
  cbn [fst snd]. split; [reflexivity|]. revert t.
  induction IH as [|[name item] items Hitem _ IHitems]; intros t.
  - cbn. repeat split; lia.
  - destruct item as [fsize data|sub].
    + cbn -[N.add Fs.stat_node]. rewrite stat_node_file, statable.
      destruct (IHitems {| totalSize := totalSize t + fsize;
                           fileCount := fileCount t + 1 |})
        as (H1 & H2 & H3 & H4).
      cbn [totalSize fileCount Fs.st_size] in *.
      repeat split; lia.
    + specialize (Hitem (Fs.join currentPath name) t).
      cbn [snd CleanerSpec.walk_bounds] in Hitem.
      destruct Hitem as (Hsnap & G1 & G2 & G3 & G4).
      cbn -[N.add calculateRecursive bytes_below files_below].
      destruct (calculateRecursive env (Fs.join currentPath name) (Fs.Dir sub) t)
        as [subResult t1] eqn:Hsub.
      cbn [fst snd] in *. subst subResult. cbn [size count snapshot].
      destruct (IHitems {| totalSize := totalSize t1 + totalSize t1;
                           fileCount := fileCount t1 + fileCount t1 |})
        as (H1 & H2 & H3 & H4).
      cbn [totalSize fileCount] in *.
      repeat split; lia.
Qed.

End WalkFacts.

Section WalkExtras.
Import Process Cleaner.

(** X8. On a directory whose whole tree can be read, the measurement never
    falls short of the real totals (it can exceed them), and it is zero
    exactly when the real total is zero: the emptiness test of [cleanPath]
    is not affected by the repeated counting. *)
Theorem getFolderSize_accessible_tree
    (env : Fs.Env) (root : Fs.node) (folderPath : string)
    (items : list (string * Fs.node)) :
  (forall p, Fs.denied env Fs.Readdir p = false) ->
  (forall p, Fs.denied env Fs.Stat p = false) ->
  Fs.lookup root (Fs.segments folderPath) = Some (Fs.Dir items) ->
  let measured := measure env root folderPath in
  (bytes_below (Fs.Dir items) <= size measured)%N /\
  (files_below (Fs.Dir items) <= count measured)%N /\
  (size measured = 0%N <-> bytes_below (Fs.Dir items) = 0%N) /\
  (count measured = 0%N <-> files_below (Fs.Dir items) = 0%N).
Proof.
  intros Hr Hs Hdir measured. subst measured.
  unfold measure, calculateRecursive_from. rewrite Hdir.
  pose proof (walk_bounds_all env Hr Hs (Fs.Dir items) folderPath
                {| totalSize := 0; fileCount := 0 |}) as H.
  cbn [CleanerSpec.walk_bounds] in H. destruct H as (Hsnap & H1 & H2 & H3 & H4).
  rewrite Hsnap. cbn [size count snapshot totalSize fileCount] in *.
  repeat split; lia.
Qed.

End WalkExtras.

(** ** The cleaning loop *)
Section GrowFacts.
Import Process Cleaner CleanerSpec.
Local Open Scope proc_scope.

Lemma stats_le_refl s : stats_le s s.
Proof. unfold stats_le. lia. Qed.

Lemma stats_le_trans a b c : stats_le a b -> stats_le b c -> stats_le a c.
Proof. unfold stats_le. lia. Qed.

Lemma grows_of_keeps {A} (m : M A) : keeps stats m -> grows m.
Proof. intros H st. rewrite H. apply stats_le_refl. Qed.

Lemma grows_bind {A B} (m : M A) (k : A -> M B) :
  grows m -> (forall v, grows (k v)) -> grows (bind m k).
Proof.
  intros Hm Hk st. unfold bind. specialize (Hm st).
  destruct (m st) as [[v|e] st1]; cbn [snd] in *; [|exact Hm].
  exact (stats_le_trans _ _ _ Hm (Hk v st1)).
Qed.

Lemma grows_catch {A} (m : M A) h :
  grows m -> (forall e, grows (h e)) -> grows (try_catch m h).
Proof.
  intros Hm Hh st. unfold try_catch. specialize (Hm st).
  destruct (m st) as [[v|e] st1]; cbn [snd] in *; [exact Hm|].
  exact (stats_le_trans _ _ _ Hm (Hh e st1)).
Qed.

Lemma grows_add_stats a b : grows (add_stats a b).
Proof. intros st. unfold stats_le. cbn. lia. Qed.

Lemma grows_for_each {A} (l : list A) (f : A -> M unit) :
  (forall x, grows (f x)) -> grows (SecurityManager.for_each l f).
Proof.
  intros H. induction l as [|x l IH]; cbn.
  - apply grows_of_keeps, keeps_ret.
  - apply grows_bind; [apply H|intros _; exact IH].
Qed.

Lemma keeps_catch_returns {A B} (f : State -> B) (m : M A) h :
  returns m -> keeps f m -> keeps f (try_catch m h).
Proof.
  intros Hr Hk st. unfold try_catch. specialize (Hk st).
  destruct (Hr st) as (v & st1 & E). rewrite E in *. exact Hk.
Qed.

Lemma returns_lift_catch {A} (m : M A) (v : A) :
  returns (try_catch m (fun _ => ret v)).
Proof. apply returns_catch. intros; apply returns_ret. Qed.

End GrowFacts.

Ltac grows_step :=
  first
    [ apply grows_add_stats
    | apply grows_of_keeps; solve [keeps_tac]
    | apply grows_bind | apply grows_catch
    | match goal with
      | |- CleanerSpec.grows (if ?b then _ else _) => destruct b
      | |- CleanerSpec.grows (match ?x with _ => _ end) => destruct x
      end ].

Section LoopFacts.
Import Process Cleaner CleanerSpec.
Local Open Scope proc_scope.
Variable env : Fs.Env.
Variable options : Cleaner.Options.

Lemma cleanPath_grows targetPath description category :
  grows (cleanPath env options targetPath description category).
Proof.
  unfold cleanPath, getFolderSize, trackOperation,
    SecurityManager.validateOperation, SecurityManager.createBackup,
    SecurityManager.createDirectoryBackup, SecurityManager.createFileBackup,
    SecurityManager.createManifestBackup, SecurityManager.getBackupSize.
  repeat (intros; grows_step).
Qed.

(** In a preview the body of [cleanPath] ends normally, so its handler,
    which records a failed operation, is never entered. *)
Lemma cleanPath_preview_session targetPath description category :
  dryRun options = true ->
  keeps currentSession (cleanPath env options targetPath description category).
Proof.
  intros Hdry. unfold cleanPath. rewrite Hdry, andb_false_r.
  apply keeps_catch_returns.
  - apply returns_bind; [apply validateOperation_returns|intros isValid].
    destruct isValid; cbn [negb]; [|apply returns_ret].
    apply returns_bind; [apply returns_lift_catch|intros b].
    destruct b; cbn [negb]; [|apply returns_ret].
    unfold getFolderSize, add_stats. returns_tac.
  - unfold getFolderSize, add_stats.
    repeat (intros; first
      [ apply validateOperation_keeps; intros; reflexivity | keeps_step ]).
Qed.

Lemma unwalkable_dec paths area :
  unwalkable paths area \/ ~ unwalkable paths area.
Proof.
  unfold unwalkable. destruct (paths !! area) as [entries|].
  - right. intros [H _]. discriminate.
  - destruct (Js.Object_prototype area) as [[[|n]|]|].
    + right. intros [_ [n H]]. discriminate.
    + left. eauto.
    + right. intros [_ [n H]]. discriminate.
    + right. intros [_ [n H]]. discriminate.
Qed.

Lemma Exists_unwalkable_dec paths (areas : list string) :
  Exists (unwalkable paths) areas \/ ~ Exists (unwalkable paths) areas.
Proof.
  induction areas as [|a l IH]; [right; intros H; inversion H|].
  destruct (unwalkable_dec paths a) as [Ha|Ha]; [left; now left|].
  destruct IH as [IH|IH]; [left; now right|].
  right. intros H. inversion H; subst; contradiction.
Qed.

(** The loop over a list of areas: it stops with an error at the first
    area it cannot walk, and returns when there is none. *)
Lemma loop_outcome paths (areas : list string) : forall st,
  (Exists (unwalkable paths) areas ->
   exists e st',
     SecurityManager.for_each areas (fun area =>
       match Js.get paths area with
       | Js.Own ((_ :: _) as entries) =>
           SecurityManager.for_each entries (fun pathInfo =>
             cleanPath env options (path pathInfo) (description pathInfo)
               (category pathInfo) ;;
             ret tt)
       | Js.Own [] => ret tt
       | Js.Inherited (Js.Method (S _)) =>
           throw (Js.Error EmptyString "paths[area] is not iterable")
       | Js.Inherited _ => ret tt
       | Js.Missing => ret tt
       end) st = (Js.Throw e, st')) /\
  (~ Exists (unwalkable paths) areas ->
   exists st',
     SecurityManager.for_each areas (fun area =>
       match Js.get paths area with
       | Js.Own ((_ :: _) as entries) =>
           SecurityManager.for_each entries (fun pathInfo =>
             cleanPath env options (path pathInfo) (description pathInfo)
               (category pathInfo) ;;
             ret tt)
       | Js.Own [] => ret tt
       | Js.Inherited (Js.Method (S _)) =>
           throw (Js.Error EmptyString "paths[area] is not iterable")
       | Js.Inherited _ => ret tt
       | Js.Missing => ret tt
       end) st = (Js.Ok tt, st')).
Proof.
  induction areas as [|area areas IH]; intros st.
  - split; [intros H; inversion H|intros _; cbn; eauto].
  - cbn [SecurityManager.for_each].
    destruct (unwalkable_dec paths area) as [Hstop|Hwalk].
    + split; [intros _|intros H; contradiction H; now left].
      destruct Hstop as [Hnone [n Hn]]. unfold Js.get at 1.
      rewrite Hnone, Hn. cbn. eauto.
    + assert (Hbody : exists st1,
        match Js.get paths area with
        | Js.Own ((_ :: _) as entries) =>
            SecurityManager.for_each entries (fun pathInfo =>
              cleanPath env options (path pathInfo) (description pathInfo)
                (category pathInfo) ;;
              ret tt)
        | Js.Own [] => ret tt
        | Js.Inherited (Js.Method (S _)) =>
            throw (Js.Error EmptyString "paths[area] is not iterable")
        | Js.Inherited _ => ret tt
        | Js.Missing => ret tt
        end st = (Js.Ok tt, st1)).
      { unfold Js.get. unfold unwalkable in Hwalk.
        destruct (paths !! area) as [[|p entries]|]; [cbn; eauto| |].
        - assert (Hr : returns
                    (SecurityManager.for_each (p :: entries) (fun pathInfo =>
                       cleanPath env options (path pathInfo)
                         (description pathInfo) (category pathInfo) ;;
                       ret tt))).
          { apply for_each_returns. intros pathInfo.
            apply returns_bind; [apply cleanPath_returns|].
            intros; apply returns_ret. }
          destruct (Hr st) as ([] & st1 & E). eauto.
        - destruct (Js.Object_prototype area) as [[[|n]|]|]; cbn; eauto.
          contradiction Hwalk. eauto. }
      destruct Hbody as (st1 & Hbody).
      rewrite (bind_ok _ _ _ _ _ Hbody).
      destruct (IH st1) as [IHstop IHwalk]. split.
      * intros H. apply IHstop. inversion H; subst; [contradiction|assumption].
      * intros H. apply IHwalk. intros H'. apply H. now right.
Qed.

Lemma run_outcome paths st :
  (Exists (unwalkable paths) (areasToClean options) ->
   exists e st', run env options paths st = (Js.Throw e, st')) /\
  (~ Exists (unwalkable paths) (areasToClean options) ->
   exists st', run env options paths st = (Js.Ok tt, st')).
Proof. unfold run. apply loop_outcome. Qed.

Lemma run_keeps {B} (f : State -> B) paths :
  (forall t d c, keeps f (cleanPath env options t d c)) ->
  keeps f (run env options paths).
Proof.
  intros Hf. unfold run. apply for_each_keeps. intros area.
  unfold Js.get. destruct (paths !! area) as [[|p entries]|].
  - apply keeps_ret.
  - apply for_each_keeps. intros pathInfo.
    apply keeps_bind; [apply Hf|intros; apply keeps_ret].
  - destruct (Js.Object_prototype area) as [[[|n]|]|];
      first [apply keeps_ret|apply keeps_throw].
Qed.

Lemma run_grows paths : grows (run env options paths).
Proof.
  unfold run. apply grows_for_each. intros area.
  unfold Js.get. destruct (paths !! area) as [[|p entries]|].
  - apply grows_of_keeps, keeps_ret.
  - apply grows_for_each. intros pathInfo.
    apply grows_bind; [apply cleanPath_grows|].
    intros; apply grows_of_keeps, keeps_ret.
  - destruct (Js.Object_prototype area) as [[[|n]|]|];
      apply grows_of_keeps; first [apply keeps_ret|apply keeps_throw].
Qed.

End LoopFacts.

Section LoopExtras.
Import Process Cleaner CleanerSpec.
Local Open Scope proc_scope.

(** X9. The cleaning loop of [run] raises in exactly one situation: when
    an area to clean is not listed in the table and names a function with
    parameters that the table inherits as a plain object (such as
    [constructor]); the [for ... of] over that function raises outside any
    [try]. In every other case the loop returns, whatever the state of the
    disk: a failure on a target never stops it. However it ends, no
    counter of [stats] has decreased. *)
Theorem run_raises_only_on_inherited_area
    (env : Fs.Env) (options : Cleaner.Options)
    (paths : gmap string (list pathInfo)) (st : State) :
  ((exists e st', run env options paths st = (Js.Throw e, st')) <->
   Exists (fun area =>
             paths !! area = None /\
             exists n, Js.Object_prototype area = Some (Js.Method (S n)))
          (areasToClean options)) /\
  ((exists st', run env options paths st = (Js.Ok tt, st')) <->
   ~ Exists (fun area =>
               paths !! area = None /\
               exists n, Js.Object_prototype area = Some (Js.Method (S n)))
            (areasToClean options)) /\
  stats_le (stats st) (stats (snd (run env options paths st))).
Proof.
  destruct (run_outcome env options paths st) as [Hstop Hwalk].
  fold (unwalkable paths).
  pose proof (Exists_unwalkable_dec paths (areasToClean options)) as Hdec.
  split; [|split].
  - split; [|exact Hstop]. intros (e & st' & Hrun).
    destruct Hdec as [H|H]; [exact H|].
    destruct (Hwalk H) as (st'' & Hok). congruence.
  - split; [|exact Hwalk]. intros (st' & Hrun) H.
    destruct (Hstop H) as (e & st'' & Hthrow). congruence.
  - apply run_grows.
Qed.

(** X10. With [dryRun] set, the whole loop is an observation: whatever the
    table of paths and however the loop ends, no tree-changing call is
    issued, the file tree and the backup records are unchanged, and nothing
    is recorded in the analytics session (the counters of [stats] are the
    only thing that moves, besides the log). When no area names a property
    of [Object.prototype] the loop returns. *)
Theorem run_dry_run_changes_nothing
    (env : Fs.Env) (options : Cleaner.Options)
    (paths : gmap string (list pathInfo)) (st : State) :
  dryRun options = true ->
  let st' := snd (run env options paths st) in
  root st' = root st /\ calls st' = calls st /\
  backups st' = backups st /\
  currentSession st' = currentSession st /\
  ((forall area, In area (areasToClean options) ->
                 Js.Object_prototype area = None) ->
   fst (run env options paths st) = Js.Ok tt).
Proof.
  intros Hdry st'. subst st'.
  repeat split; try (apply run_keeps; intros).
  - apply cleanPath_preview_frame; auto.
  - apply cleanPath_preview_frame; auto.
  - apply cleanPath_preview_frame; auto.
  - now apply cleanPath_preview_session.
  - intros Hplain.
    destruct (proj2 (run_outcome env options paths st)) as (st' & Hrun).
    + intros H. apply Exists_exists in H.
      destruct H as (area & Hin & _ & n & Hn).
      apply list_elem_of_In in Hin.
      rewrite (Hplain area Hin) in Hn. discriminate.
    + now rewrite Hrun.
Qed.

End LoopExtras.

(** ** The exclusion matcher on whole families of paths *)
Section MatcherGeneral.
Import RegExp ConfigManager MatcherSpec.

Lemma append_empty (s : string) : EmptyString ++ s = s.
Proof. reflexivity. Qed.

Lemma append_String c (s t : string) : String c s ++ t = String c (s ++ t).
Proof. reflexivity. Qed.

Lemma match_here_extends (r : regex) : forall s after,
  match_here r s = true -> match_here r (s ++ after) = true.
Proof.
  induction r as [|t r IH]; intros s after; [reflexivity|].
  cbn [match_here]. destruct (starred t).
  - induction s as [|c s IHs]; intros H.
    + apply orb_true_iff in H. destruct H as [H|H]; [|discriminate].
      apply (IH _ after) in H. rewrite append_empty in *.
      destruct after; rewrite H; reflexivity.
    + apply orb_true_iff in H. rewrite append_String.
      apply orb_true_iff. destruct H as [H|H].
      * left. rewrite <- append_String. exact (IH _ after H).
      * right. apply andb_true_iff in H. destruct H as [Hc Hs].
        rewrite Hc. cbn [andb]. exact (IHs Hs).
  - destruct s as [|c s]; [discriminate|]. rewrite append_String.
    intros H. apply andb_true_iff in H. destruct H as [Hc Hs].
    rewrite Hc. cbn [andb]. exact (IH _ after Hs).
Qed.

Lemma test_extends (r : regex) : forall s after,
  test r s = true -> test r (s ++ after) = true.
Proof.
  induction s as [|c s IHs]; intros after H.
  - cbn [test] in H. rewrite orb_false_r in H.
    apply (match_here_extends _ _ after) in H. rewrite append_empty in *.
    destruct after; cbn [test]; rewrite H; reflexivity.
  - rewrite append_String. cbn [test] in *. apply orb_true_iff in H.
    apply orb_true_iff. destruct H as [H|H].
    + left. rewrite <- append_String. exact (match_here_extends _ _ after H).
    + right. exact (IHs after H).
Qed.

Lemma test_skips (r : regex) s : forall before,
  test r s = true -> test r (before ++ s) = true.
Proof.
  induction before as [|c before IH]; intros H; [exact H|].
  rewrite append_String. cbn [test]. rewrite (IH H). apply orb_true_r.
Qed.

Lemma matchesPattern_unanchored filePath pattern before after :
  matchesPattern filePath pattern = true ->
  matchesPattern (before ++ filePath ++ after) pattern = true.
Proof.
  unfold matchesPattern. destruct (compile (regexPattern pattern)); [|discriminate].
  intros H. now apply test_skips, test_extends.
Qed.

Lemma canonicalize_idempotent c : canonicalize (canonicalize c) = canonicalize c.
Proof. destruct c as [[] [] [] [] [] [] [] []]; reflexivity. Qed.

Lemma canonicalize_class c :
  c = canonicalize c \/ c = lower_of (canonicalize c).
Proof.
  destruct c as [[] [] [] [] [] [] [] []];
    first [left; reflexivity | right; reflexivity].
Qed.

Lemma line_terminator_canonicalize c :
  line_terminator (canonicalize c) = line_terminator c.
Proof. destruct c as [[] [] [] [] [] [] [] []]; reflexivity. Qed.

Lemma item_matches_canonicalize i c :
  item_matches i (canonicalize c) = item_matches i c.
Proof.
  destruct i as [a|lo hi]; cbn [item_matches].
  - unfold same_char. now rewrite canonicalize_idempotent.
  - rewrite canonicalize_idempotent.
    assert (H : in_range lo hi c = in_range lo hi (canonicalize c) \/
                in_range lo hi c = in_range lo hi (lower_of (canonicalize c)))
      by (destruct (canonicalize_class c) as [E|E]; [left|right];
          now rewrite <- E).
    destruct H as [H|H]; rewrite H;
      destruct (in_range lo hi (canonicalize c)),
               (in_range lo hi (lower_of (canonicalize c))); reflexivity.
Qed.

Lemma atom_matches_canonicalize a c :
  atom_matches a (canonicalize c) = atom_matches a c.
Proof.
  destruct a as [p| |negated items]; cbn [atom_matches].
  - unfold same_char. now rewrite canonicalize_idempotent.
  - now rewrite line_terminator_canonicalize.
  - f_equal. induction items as [|i items IH]; [reflexivity|].
    cbn [existsb]. now rewrite item_matches_canonicalize, IH.
Qed.

Lemma match_here_fold_case (r : regex) : forall s,
  match_here r (fold_case s) = match_here r s.
Proof.
  induction r as [|t r IH]; intros s; [reflexivity|].
  cbn [match_here]. destruct (starred t).
  - induction s as [|c s IHs].
    + cbn [fold_case]. reflexivity.
    + cbn [fold_case]. rewrite atom_matches_canonicalize, IHs.
      now rewrite <- (IH (String c s)).
  - destruct s as [|c s]; [reflexivity|]. cbn [fold_case].
    now rewrite atom_matches_canonicalize, IH.
Qed.

Lemma test_fold_case (r : regex) : forall s,
  test r (fold_case s) = test r s.
Proof.
  induction s as [|c s IHs].
  - reflexivity.
  - cbn [test]. rewrite <- IHs, <- (match_here_fold_case r (String c s)).
    reflexivity.
Qed.

End MatcherGeneral.

Section MatcherExtras.
Import ConfigManager MatcherSpec.

(** X11. Exclusion is never anchored: the translation escapes [^] and [$],
    so a pattern that matches a path matches every longer path that
    contains it. Whatever configuration excludes a path therefore also
    excludes everything below it, and any other path with that text in it. *)
Theorem shouldExcludePath_extends_to_longer_paths
    (config : option Config) (filePath : string) (category : option string)
    (before after : string) :
  shouldExcludePath config filePath category = Js.Ok true ->
  shouldExcludePath config (before ++ filePath ++ after) category = Js.Ok true.
Proof.
  unfold shouldExcludePath.
  destruct config as [cfg|]; [|discriminate].
  destruct (excludePatterns cfg) as [ep|]; [|discriminate].
  cbv zeta.
  destruct (match truthy category, perCategory ep with
            | Some c, Some per =>
                match Js.get per c with
                | Js.Own ps => Js.Ok (_ ++ ps)%list
                | Js.Inherited _ => Js.Throw _
                | Js.Missing => Js.Ok _
                end
            | _, _ => Js.Ok _
            end) as [patterns|e]; [|discriminate].
  intros [= H]. f_equal. apply existsb_exists in H.
  destruct H as (pattern & Hin & Hm).
  apply existsb_exists. exists pattern. split; [exact Hin|].
  now apply matchesPattern_unanchored.
Qed.

(** X12. Matching ignores letter case in the path, for every pattern:
    two paths that differ only in the case of their letters are matched by
    exactly the same patterns, bracket classes and ranges included. *)
Theorem matchesPattern_ignores_case (filePath other pattern : string) :
  fold_case filePath = fold_case other ->
  matchesPattern filePath pattern = matchesPattern other pattern.
Proof.
  intros H. unfold matchesPattern.
  destruct (RegExp.compile (regexPattern pattern)) as [r|]; [|reflexivity].
  now rewrite <- (test_fold_case r filePath), H, test_fold_case.
Qed.

End MatcherExtras.

(** ** The analytics session and the trend window *)
Section SessionFacts.
Import AnalyticsManager AnalyticsSpec.

Lemma total_snoc f ops op : total f (ops ++ [op]) = (total f ops + f op)%Z.
Proof.
  unfold total. induction ops as [|o ops IH]; cbn [app fold_right]; [lia|].
  rewrite IH. lia.
Qed.

Lemma filter_snoc {A} (p : A -> bool) l x :
  List.filter p (l ++ [x]) = (List.filter p l ++ (if p x then [x] else []))%list.
Proof.
  induction l as [|y l IH]; cbn [app List.filter]; [now destruct (p x)|].
  rewrite IH. now destruct (p y).
Qed.

Lemma trackOperation_consistent enableAnalytics operation s :
  consistent s -> consistent (trackOperation enableAnalytics operation s).
Proof.
  intros (Ha & He & Hf & Hs). unfold trackOperation.
  destruct enableAnalytics; cbn [negb]; [|repeat split; assumption].
  cbv zeta. unfold consistent, succeeded, failed in *.
  cbn [operations summary success].
  rewrite !filter_snoc. cbn [success].
  destruct (success_ operation) as [[|]|]; cbn [negb];
    cbn [areasProcessed errors filesCleaned spaceRecovered];
    rewrite ?app_nil_r, ?total_snoc, ?length_app; cbn [length];
    cbn [filesAffected sizeRecovered]; repeat split; lia.
Qed.

Lemma track_all_consistent enableAnalytics ops : forall s,
  consistent s -> consistent (track_all enableAnalytics ops s).
Proof.
  unfold track_all. induction ops as [|op ops IH]; intros s H; [exact H|].
  cbn [fold_left]. apply IH. now apply trackOperation_consistent.
Qed.

Lemma track_all_length ops : forall s,
  length (operations (track_all true ops s))
  = (length (operations s) + length ops)%nat.
Proof.
  unfold track_all. induction ops as [|op ops IH]; intros s; cbn [fold_left length].
  - lia.
  - rewrite IH. unfold trackOperation. cbn [negb operations].
    rewrite length_app. cbn [length]. lia.
Qed.

End SessionFacts.

Section SessionExtras.
Import AnalyticsManager AnalyticsSpec.

Lemma track_all_bounded enableAnalytics ops : forall s,
  Forall (fun op => (0 <= or_zero (files_ op))%Z /\
                    (0 <= or_zero (size_ op))%Z) ops ->
  let s' := track_all enableAnalytics ops s in
  (filesCleaned (summary s) <= filesCleaned (summary s')
   <= filesCleaned (summary s) + files_given ops)%Z /\
  (spaceRecovered (summary s) <= spaceRecovered (summary s')
   <= spaceRecovered (summary s) + size_given ops)%Z.
Proof.
  unfold track_all.
  induction ops as [|op ops IH]; intros s Hops; cbn [fold_left files_given
    size_given fold_right].
  - cbv zeta. lia.
  - apply Forall_cons_iff in Hops as [[Hf Hsz] Hops].
    specialize (IH (trackOperation enableAnalytics op s) Hops).
    cbv zeta in IH |- *. fold (files_given ops). fold (size_given ops).
    assert (Hstep :
      (filesCleaned (summary s)
       <= filesCleaned (summary (trackOperation enableAnalytics op s))
       <= filesCleaned (summary s) + or_zero (files_ op))%Z /\
      (spaceRecovered (summary s)
       <= spaceRecovered (summary (trackOperation enableAnalytics op s))
       <= spaceRecovered (summary s) + or_zero (size_ op))%Z).
    { unfold trackOperation.
      destruct enableAnalytics; cbn [negb]; [|lia].
      cbv zeta. cbn [summary success filesAffected sizeRecovered].
      destruct (success_ op) as [[|]|];
        cbn [filesCleaned spaceRecovered]; lia. }
    lia.
Qed.

(** X13. While the amounts the operations carry are non-negative integers
    whose totals stay below [2^53] (where the additions of the language
    are exact), the summary of a fresh session agrees with its list of
    operations, however many it tracks: one entry per tracked operation,
    [areasProcessed] is the number of successful entries, [errors] the
    number of failed ones, and [filesCleaned] and [spaceRecovered] are the
    totals over the successful entries only (what a failed operation
    reports is not added); every counter is an integer below [2^53]. *)
Theorem trackOperation_summary_agrees_with_operations (ops : list operation) :
  safe_amounts ops ->
  let s := track_all true ops currentSession0 in
  length (operations s) = length ops /\
  areasProcessed (summary s) = Z.of_nat (length (succeeded (operations s))) /\
  errors (summary s) = Z.of_nat (length (failed (operations s))) /\
  filesCleaned (summary s) = total filesAffected (succeeded (operations s)) /\
  spaceRecovered (summary s) = total sizeRecovered (succeeded (operations s)) /\
  (0 <= filesCleaned (summary s) < 2 ^ 53)%Z /\
  (0 <= spaceRecovered (summary s) < 2 ^ 53)%Z /\
  (0 <= areasProcessed (summary s) < 2 ^ 32)%Z /\
  (0 <= errors (summary s) < 2 ^ 32)%Z.
Proof.
  intros (Hnonneg & Hfiles & Hsize & Hcount). cbv zeta.
  pose proof (track_all_length ops currentSession0) as Hlen.
  cbn [operations currentSession0 length Nat.add] in Hlen.
  pose proof (track_all_consistent true ops currentSession0
                ltac:(repeat split; reflexivity)) as (Ha & He & Hf & Hs).
  pose proof (track_all_bounded true ops currentSession0 Hnonneg) as [Bf Bs].
  cbv zeta in Bf, Bs. cbn [summary currentSession0 filesCleaned spaceRecovered]
    in Bf, Bs.
  set (s := track_all true ops currentSession0) in *.
  assert (Hsucc : (length (succeeded (operations s)) <= length ops)%nat).
  { rewrite <- Hlen. unfold succeeded. apply List.filter_length_le. }
  assert (Hfail : (length (failed (operations s)) <= length ops)%nat).
  { rewrite <- Hlen. unfold failed. apply List.filter_length_le. }
  repeat split; try assumption; lia.
Qed.

(** X14. Only the last fourteen sessions count for the trend: sessions
    older than those never change what [calculateTrends] returns. *)
Theorem calculateTrends_last_fourteen (older latest : list session) :
  length latest = 14%nat ->
  calculateTrends (older ++ latest) = calculateTrends latest.
Proof.
  intros Hlen.
  assert (Hrecent : Js.slice (older ++ latest)%list (-7) None
                    = Js.slice latest (-7) None).
  { unfold Js.slice, Js.relative_index.
    change (-7 <? 0)%Z with true. cbv iota.
    rewrite length_app, Hlen.
    replace (Z.to_nat (Z.max (Z.of_nat (length older + 14) + -7) 0))
      with (length older + 7)%nat by lia.
    replace (Z.to_nat (Z.max (Z.of_nat 14 + -7) 0)) with 7%nat by lia.
    rewrite skipn_app, (skipn_all2 older) by lia.
    replace (length older + 7 - length older)%nat with 7%nat by lia.
    cbn [app]. f_equal. lia. }
  assert (Hprevious : Js.slice (older ++ latest)%list (-14) (Some (-7)%Z)
                      = Js.slice latest (-14) (Some (-7)%Z)).
  { unfold Js.slice, Js.relative_index.
    change (-7 <? 0)%Z with true. change (-14 <? 0)%Z with true. cbv iota.
    rewrite length_app, Hlen.
    replace (Z.to_nat (Z.max (Z.of_nat (length older + 14) + -14) 0))
      with (length older) by lia.
    replace (Z.to_nat (Z.max (Z.of_nat 14 + -14) 0)) with 0%nat by lia.
    rewrite skipn_app, (skipn_all2 older) by lia.
    replace (length older - length older)%nat with 0%nat by lia.
    cbn [app skipn]. f_equal. lia. }
  unfold calculateTrends. rewrite Hrecent, Hprevious.
  rewrite length_app, Hlen.
  destruct (Z.ltb_spec (Z.of_nat (length older + 14)) 2); [lia|].
  reflexivity.
Qed.

End SessionExtras.

(** ** The command line *)
Section CliExtras.
Import Cli.

(** X15. Without [--quick] or [--deep] (or with [--interactive]) the menu
    decides everything: the options the cleaner gets are those of
    [interactiveMode], whatever [--dry-run], [--verbose] and [--yes] say.
    In particular [--dry-run] alone is not honoured: unless "Dry Run" is
    picked in the menu, a confirmed run is built with [dryRun] false. *)
Theorem main_menu_overrides_dry_run_flag (options : Flags) (answers : Answers) :
  interactive options = true \/ (quick options = false /\ deep options = false) ->
  main options answers = interactiveMode answers /\
  (chosen answers <> ChoiceDryRun -> confirmed answers = true ->
   exists cleanupOptions,
     main options answers = Run cleanupOptions /\
     Cleaner.dryRun (constructor cleanupOptions) = false).
Proof.
  intros H.
  assert (Hmain : main options answers = interactiveMode answers).
  { unfold main.
    destruct (quick options), (deep options), (interactive options);
      cbn; try reflexivity; destruct H as [H|[H1 H2]]; discriminate. }
  split; [exact Hmain|]. intros Hc Hy. rewrite Hmain.
  unfold interactiveMode. rewrite Hy.
  destruct (chosen answers); try congruence; eexists; split; reflexivity.
Qed.

(** X16. The menu never sets [mode]: picking "Quick Clean" there and
    confirming builds a cleaner that walks all six areas, exactly as
    "Deep Clean" does. *)
Theorem interactiveMode_quick_cleans_every_area (options : Flags) (answers : Answers) :
  interactive options = true \/ (quick options = false /\ deep options = false) ->
  chosen answers = ChoiceQuick ->
  confirmed answers = true ->
  exists cleanupOptions,
    main options answers = Run cleanupOptions /\
    Cleaner.areasToClean (constructor cleanupOptions)
    = ["system"; "user"; "browsers"; "apps"; "npm"; "logs"] /\
    main options
         {| chosen := ChoiceDeep; areas := areas answers;
            confirmed := confirmed answers |}
    = Run cleanupOptions.
Proof.
  intros H Hc Hy.
  assert (Hmain : forall a, main options a = interactiveMode a).
  { intros a. unfold main.
    destruct (quick options), (deep options), (interactive options);
      cbn; try reflexivity; destruct H as [H|[H1 H2]]; discriminate. }
  rewrite !Hmain. unfold interactiveMode. cbn [chosen confirmed].
  rewrite Hc, Hy. eexists. repeat split; reflexivity.
Qed.

(** X17. With [--quick] and without [--interactive] nothing is asked, not
    even a confirmation, with or without [--yes]: the cleaner is built at
    once, in dry-run mode exactly when [--dry-run] was given, and it walks
    the areas system, user and npm. *)
Theorem main_quick_asks_nothing (options : Flags) (answers : Answers) :
  quick options = true ->
  interactive options = false ->
  exists cleanupOptions,
    main options answers = Run cleanupOptions /\
    Cleaner.dryRun (constructor cleanupOptions) = dryRun options /\
    Cleaner.areasToClean (constructor cleanupOptions)
    = ["system"; "user"; "npm"].
Proof.
  intros Hq Hi. unfold main. rewrite Hq, Hi. cbn.
  eexists. split; [reflexivity|]. cbn. rewrite orb_false_r. auto.
Qed.

End CliExtras.

(** ** What one call of [cleanPath] accounts for *)
Section EndsFacts.
Import Process Cleaner CleanerSpec.
Local Open Scope proc_scope.

Lemma ends_ret {A} (v : A) st (Q : A -> State -> Prop) E :
  Q v st -> ends (ret v) st Q E.
Proof. intros H. exact H. Qed.

Lemma ends_bind {A B} (m : M A) (k : A -> M B) st Q E :
  ends m st (fun v st1 => ends (k v) st1 Q E) E -> ends (bind m k) st Q E.
Proof.
  unfold ends, bind. destruct (m st) as [[v|e] st1]; intros H; exact H.
Qed.

Lemma ends_catch {A} (m : M A) h st (Q : A -> State -> Prop) E :
  ends m st Q (fun e st1 => ends (h e) st1 Q E) -> ends (try_catch m h) st Q E.
Proof.
  unfold ends, try_catch. destruct (m st) as [[v|e] st1]; intros H; exact H.
Qed.

Lemma ends_modify g st (Q : unit -> State -> Prop) E :
  Q tt (g st) -> ends (modify g) st Q E.
Proof. intros H. exact H. Qed.





End EndsFacts.

Section Accounting.
Import Process Cleaner CleanerSpec.
Local Open Scope proc_scope.
Variable env : Fs.Env.
Variable options : Cleaner.Options.




End Accounting.

Section AccountingExtras.
Import Process Cleaner CleanerSpec.



End AccountingExtras.

(** ** The calls a run issues *)
Section IssuesFacts.
Import Process Cleaner CleanerSpec.
Local Open Scope proc_scope.

Lemma issues_keeps {A} P (m : M A) : keeps calls m -> issues P m.
Proof.
  intros H st. exists []. rewrite H, app_nil_r. split; [reflexivity|constructor].
Qed.

Lemma issues_bind {A B} P (m : M A) (k : A -> M B) :
  issues P m -> (forall v, issues P (k v)) -> issues P (bind m k).
Proof.
  intros Hm Hk st. unfold bind. destruct (Hm st) as (l1 & E1 & F1).
  destruct (m st) as [[v|e] st1]; cbn [snd] in *.
  - destruct (Hk v st1) as (l2 & E2 & F2).
    exists (l1 ++ l2)%list. rewrite E2, E1, app_assoc.
    split; [reflexivity|]. apply Forall_app; auto.
  - exists l1. auto.
Qed.

Lemma issues_catch {A} P (m : M A) h :
  issues P m -> (forall e, issues P (h e)) -> issues P (try_catch m h).
Proof.
  intros Hm Hh st. unfold try_catch. destruct (Hm st) as (l1 & E1 & F1).
  destruct (m st) as [[v|e] st1]; cbn [snd] in *.
  - exists l1. auto.
  - destruct (Hh e st1) as (l2 & E2 & F2).
    exists (l1 ++ l2)%list. rewrite E2, E1, app_assoc.
    split; [reflexivity|]. apply Forall_app; auto.
Qed.

Lemma issues_change {A} (P : Fs.call -> Prop) c
    (g : Fs.node -> Js.exc A * Fs.node) :
  P c -> issues P (change c g).
Proof.
  intros H st. exists [c]. unfold change.
  destruct (g (root st)) as [r root']. cbn. split; [reflexivity|].
  constructor; [exact H|constructor].
Qed.

Lemma issues_for_each {A} P (l : list A) (f : A -> M unit) :
  (forall x, In x l -> issues P (f x)) -> issues P (SecurityManager.for_each l f).
Proof.
  induction l as [|x l IH]; intros H; cbn [SecurityManager.for_each].
  - apply issues_keeps, keeps_ret.
  - apply issues_bind; [apply H; now left|].
    intros _. apply IH. intros y Hy. apply H. now right.
Qed.

Lemma issues_weaken {A} (P Q : Fs.call -> Prop) (m : M A) :
  (forall c, P c -> Q c) -> issues P m -> issues Q m.
Proof.
  intros HPQ Hm st. destruct (Hm st) as (l & E & F).
  exists l. split; [exact E|]. eapply Forall_impl; eauto.
Qed.

End IssuesFacts.

Ltac issues_step :=
  first
    [ apply issues_keeps; solve [keeps_tac]
    | apply issues_change; cbn; solve [eauto]
    | apply issues_bind | apply issues_catch
    | match goal with
      | |- CleanerSpec.issues _ (if ?b then _ else _) => destruct b
      | |- CleanerSpec.issues _ (match ?x with _ => _ end) => destruct x
      end ].

Section CallFacts.
Import Process Cleaner CleanerSpec.
Local Open Scope proc_scope.
Variable env : Fs.Env.
Variable options : Cleaner.Options.

Lemma cleanPath_issues targetPath description category :
  issues (allowed_call
            (SecurityManager.backupLocation (securityOptions env options))
            targetPath)
         (cleanPath env options targetPath description category).
Proof.
  unfold cleanPath, getFolderSize, trackOperation, add_stats,
    SecurityManager.validateOperation, SecurityManager.createBackup,
    SecurityManager.createDirectoryBackup, SecurityManager.createFileBackup,
    SecurityManager.createManifestBackup, SecurityManager.getBackupSize.
  repeat (intros; cbv zeta; issues_step).
Qed.

End CallFacts.

Section CallExtras.
Import Process Cleaner CleanerSpec.

(** X20. The cleaning loop of [run] only touches what it was told to
    clean. However it ends, every tree-changing call it has issued is the
    removal or the re-creation of a path listed in the table under one of
    the areas being cleaned, or a copy of such a path (or a manifest of
    it) written to [<backupLocation>/<id>.backup]. Apart from the lines
    appended to the log file, nothing else is removed, created or
    written. *)
Theorem run_only_touches_listed_paths
    (env : Fs.Env) (options : Cleaner.Options)
    (paths : gmap string (list pathInfo)) (st : State) :
  exists outcome st' issued,
    run env options paths st = (outcome, st') /\
    calls st' = (calls st ++ issued)%list /\
    Forall (fun c =>
              exists area entries pathInfo,
                In area (areasToClean options) /\
                paths !! area = Some entries /\
                In pathInfo entries /\
                allowed_call
                  (SecurityManager.backupLocation (securityOptions env options))
                  (path pathInfo) c) issued.
Proof.
  assert (H : issues
    (fun c =>
       exists area entries pathInfo,
         In area (areasToClean options) /\
         paths !! area = Some entries /\
         In pathInfo entries /\
         allowed_call
           (SecurityManager.backupLocation (securityOptions env options))
           (path pathInfo) c)
    (run env options paths)).
  { unfold run. apply issues_for_each. intros area Harea.
    unfold Js.get. destruct (paths !! area) as [[|p entries]|] eqn:Hlook.
    - apply issues_keeps, keeps_ret.
    - apply issues_for_each. intros pathInfo Hin.
      apply issues_bind; [|intros; apply issues_keeps, keeps_ret].
      eapply issues_weaken; [|apply cleanPath_issues].
      intros c Hc. exists area, (p :: entries), pathInfo. auto.
    - destruct (Js.Object_prototype area) as [[[|n]|]|];
        apply issues_keeps; first [apply keeps_ret|apply keeps_throw]. }
  destruct (H st) as (issued & Hcalls & Hall).
  destruct (run env options paths st) as [outcome st'] eqn:Hrun.
  exists outcome, st', issued. auto.
Qed.

End CallExtras.

(** ** What a real cleaning leaves at the target *)
Section TreeShape.
Import FsSpec.

Lemma well_formed_dir es :
  well_formed (Fs.Dir es) = true <->
  distinct (map fst es) = true /\
  Forall (fun e => well_formed (snd e) = true) es.
Proof.
  cbn [well_formed]. rewrite andb_true_iff.
  apply and_iff_compat_l.
  induction es as [|[n c] es IH].
  - split; [constructor|reflexivity].
  - rewrite andb_true_iff, IH. split.
    + intros [Hc Hes]. constructor; assumption.
    + intros H. inversion H; subst. auto.
Qed.

Lemma find_absent s es :
  mem s (map fst es) = false -> Fs.find s es = None.
Proof.
  induction es as [|[n c] es IH]; [reflexivity|].
  cbn [map fst mem existsb Fs.find]. intros H.
  apply orb_false_iff in H. destruct H as [Hn Hes].
  rewrite String.eqb_sym, Hn. apply IH. exact Hes.
Qed.

Lemma find_unset s es :
  distinct (map fst es) = true -> Fs.find s (Fs.unset s es) = None.
Proof.
  induction es as [|[n c] es IH]; [reflexivity|].
  cbn [map fst distinct Fs.unset]. intros H.
  apply andb_true_iff in H. destruct H as [Hn Hes].
  destruct (String.eqb_spec n s) as [->|Hne].
  - apply find_absent. now apply negb_true_iff.
  - cbn [Fs.find]. apply String.eqb_neq in Hne. rewrite Hne. now apply IH.
Qed.

Lemma find_well_formed s es c :
  Forall (fun e => well_formed (snd e) = true) es ->
  Fs.find s es = Some c -> well_formed c = true.
Proof.
  induction 1 as [|[n d] es Hd _ IH]; [discriminate|].
  cbn [Fs.find]. destruct (String.eqb n s); [|exact IH].
  intros [= <-]. exact Hd.
Qed.

Lemma mem_set x s c es :
  mem x (map fst (Fs.set s c es)) = mem x (map fst es) || String.eqb x s.
Proof.
  induction es as [|[n d] es IH]; cbn [Fs.set map fst mem existsb].
  - now rewrite orb_false_r.
  - destruct (String.eqb_spec n s) as [->|Hne]; cbn [map fst mem existsb].
    + destruct (String.eqb x s), (existsb (String.eqb x) (map fst es));
        reflexivity.
    + fold (mem x (map fst (Fs.set s c es))). rewrite IH.
      unfold mem. now rewrite orb_assoc.
Qed.

Lemma distinct_set s c es :
  distinct (map fst es) = true -> distinct (map fst (Fs.set s c es)) = true.
Proof.
  induction es as [|[n d] es IH]; [reflexivity|].
  cbn [map fst distinct Fs.set]. intros H.
  apply andb_true_iff in H. destruct H as [Hn Hes].
  destruct (String.eqb_spec n s) as [->|Hne]; cbn [map fst distinct].
  - now rewrite Hn, Hes.
  - rewrite mem_set, (IH Hes). apply String.eqb_neq in Hne. rewrite Hne.
    apply negb_true_iff in Hn. now rewrite Hn.
Qed.

Lemma Forall_set (P : string * Fs.node -> Prop) s c es :
  (forall n, P (n, c)) -> Forall P es -> Forall P (Fs.set s c es).
Proof.
  intros Hc. induction 1 as [|[n d] es Hd Hes IH]; cbn [Fs.set].
  - constructor; [apply Hc|constructor].
  - destruct (String.eqb n s); constructor; auto.
Qed.

Lemma well_formed_set s c es :
  well_formed (Fs.Dir es) = true -> well_formed c = true ->
  well_formed (Fs.Dir (Fs.set s c es)) = true.
Proof.
  rewrite !well_formed_dir. intros [Hd Hall] Hc. split.
  - now apply distinct_set.
  - apply Forall_set; auto.
Qed.

Lemma well_formed_put : forall segs root new root',
  well_formed root = true -> well_formed new = true ->
  Fs.put root segs new = Some root' -> well_formed root' = true.
Proof.
  induction segs as [|s rest IH]; intros root new root' Hroot Hnew.
  - cbn. now intros [= <-].
  - cbn [Fs.put]. destruct root as [|es]; [discriminate|].
    destruct rest as [|s' rest'].
    + intros [= <-]. now apply well_formed_set.
    + destruct (Fs.find s es) as [c|] eqn:Hfind; [|discriminate].
      destruct (Fs.put c (s' :: rest') new) as [c'|] eqn:Hput; [|discriminate].
      intros [= <-]. apply well_formed_set; [exact Hroot|].
      apply (IH c new c'); auto.
      apply well_formed_dir in Hroot. destruct Hroot as [_ Hall].
      now apply (find_well_formed s es).
Qed.

Lemma well_formed_lookup : forall segs root n,
  well_formed root = true -> Fs.lookup root segs = Some n ->
  well_formed n = true.
Proof.
  induction segs as [|s rest IH]; intros root n Hroot; cbn [Fs.lookup].
  - now intros [= <-].
  - destruct root as [|es]; [discriminate|].
    destruct (Fs.find s es) as [c|] eqn:Hfind; [|discriminate].
    apply IH. apply well_formed_dir in Hroot. destruct Hroot as [_ Hall].
    now apply (find_well_formed s es).
Qed.

Lemma well_formed_write call_ root dst new :
  well_formed root = true -> well_formed new = true ->
  well_formed (snd (Fs.write call_ root dst new)) = true.
Proof.
  intros Hroot Hnew. unfold Fs.write.
  destruct (Fs.segments dst) as [|s rest]; [exact Hroot|].
  destruct (Fs.put root (s :: rest) new) as [root'|] eqn:Hput; [|exact Hroot].
  cbn [snd]. now apply (well_formed_put (s :: rest) root new).
Qed.

Lemma well_formed_cp env root src dst :
  well_formed root = true -> well_formed (snd (Fs.cp env root src dst)) = true.
Proof.
  intros Hroot. unfold Fs.cp.
  destruct (Fs.lookup root (Fs.segments src)) as [n|] eqn:Hn; [|exact Hroot].
  destruct (Fs.denied env Fs.Cp src || Fs.denied env Fs.Cp dst); [exact Hroot|].
  apply well_formed_write; [exact Hroot|].
  now apply (well_formed_lookup (Fs.segments src) root).
Qed.

Lemma well_formed_copyFile env root src dst :
  well_formed root = true ->
  well_formed (snd (Fs.copyFile env root src dst)) = true.
Proof.
  intros Hroot. unfold Fs.copyFile.
  destruct (Fs.lookup root (Fs.segments src)) as [[fsize data|es]|];
    try exact Hroot.
  destruct (Fs.denied env Fs.CopyFile src || Fs.denied env Fs.CopyFile dst);
    [exact Hroot|].
  now apply well_formed_write.
Qed.

Lemma well_formed_writeFile env root p fsize data :
  well_formed root = true ->
  well_formed (snd (Fs.writeFile env root p fsize data)) = true.
Proof.
  intros Hroot. unfold Fs.writeFile.
  destruct (Fs.denied env Fs.WriteFile p); [exact Hroot|].
  destruct (Fs.lookup root (Fs.segments p)) as [[? ?|?]|];
    try exact Hroot; now apply well_formed_write.
Qed.

Lemma lookup_remove : forall segs root,
  segs <> [] -> well_formed root = true ->
  Fs.lookup (Fs.remove root segs) segs = None.
Proof.
  induction segs as [|s rest IH]; intros root Hne Hroot; [congruence|].
  cbn [Fs.remove]. destruct root as [fsize data|es]; [reflexivity|].
  apply well_formed_dir in Hroot. destruct Hroot as [Hd Hall].
  destruct rest as [|s' rest'].
  - cbn [Fs.lookup]. now rewrite find_unset.
  - destruct (Fs.find s es) as [c|] eqn:Hfind.
    + cbn [Fs.lookup]. rewrite find_set. apply IH; [congruence|].
      now apply (find_well_formed s es).
    + cbn [Fs.lookup]. now rewrite Hfind.
Qed.

Lemma rimraf_clears env root p root' :
  well_formed root = true ->
  Fs.rimraf env root p = (Js.Ok tt, root') ->
  cleared (Fs.segments p) root'.
Proof.
  intros Hroot. unfold Fs.rimraf.
  destruct (Fs.segments p) as [|s rest] eqn:Hsegs; [discriminate|].
  destruct (Fs.lookup root (s :: rest)) as [n|] eqn:Hlook.
  - destruct (Fs.purge env p n); [discriminate|].
    intros [= <-]. left.
    exact (lookup_remove (s :: rest) root ltac:(congruence) Hroot).
  - intros [= <-]. left. exact Hlook.
Qed.

Lemma mkdirp_clears : forall segs root root',
  cleared segs root -> Fs.mkdirp root segs = Some root' -> cleared segs root'.
Proof.
  induction segs as [|s rest IH]; intros root root' Hc.
  - destruct root as [|es]; [discriminate|]. cbn. now intros [= <-].
  - destruct root as [|es]; [discriminate|]. cbn [Fs.mkdirp].
    destruct (Fs.mkdirp
                match Fs.find s es with Some c => c | None => Fs.Dir [] end
                rest) as [c'|] eqn:Hsub; [|discriminate].
    intros [= <-]. unfold cleared. cbn [Fs.lookup]. rewrite find_set.
    eapply IH; [|exact Hsub].
    unfold cleared in Hc. cbn [Fs.lookup] in Hc.
    destruct (Fs.find s es) as [c|]; [exact Hc|].
    destruct rest; [right|left]; reflexivity.
Qed.

Lemma mkdir_clears env root p :
  cleared (Fs.segments p) root ->
  cleared (Fs.segments p) (snd (Fs.mkdir env root p)).
Proof.
  intros Hc. unfold Fs.mkdir. destruct (Fs.denied env Fs.Mkdir p); [exact Hc|].
  destruct (Fs.mkdirp root (Fs.segments p)) as [root'|] eqn:Hm; [|exact Hc].
  now apply (mkdirp_clears _ root).
Qed.

Lemma measure_cleared env root p :
  cleared (Fs.segments p) root ->
  Cleaner.measure env root p = {| Cleaner.size := 0; Cleaner.count := 0 |}.
Proof.
  unfold Cleaner.measure, Cleaner.calculateRecursive_from.
  intros [H|H]; rewrite H; [reflexivity|].
  cbn. now destruct (Fs.denied env Fs.Readdir p).
Qed.

End TreeShape.

Section PreservesFacts.
Import Process Cleaner CleanerSpec.
Local Open Scope proc_scope.
Variable I : Fs.node -> Prop.

Lemma preserves_keeps {A} (m : M A) : keeps root m -> preserves I m.
Proof. intros H st Hst. now rewrite H. Qed.

Lemma preserves_bind {A B} (m : M A) (k : A -> M B) :
  preserves I m -> (forall v, preserves I (k v)) -> preserves I (bind m k).
Proof.
  intros Hm Hk st Hst. unfold bind. specialize (Hm st Hst).
  destruct (m st) as [[v|e] st1]; cbn [snd] in *; [|exact Hm].
  exact (Hk v st1 Hm).
Qed.

Lemma preserves_catch {A} (m : M A) h :
  preserves I m -> (forall e, preserves I (h e)) -> preserves I (try_catch m h).
Proof.
  intros Hm Hh st Hst. unfold try_catch. specialize (Hm st Hst).
  destruct (m st) as [[v|e] st1]; cbn [snd] in *; [exact Hm|].
  exact (Hh e st1 Hm).
Qed.

Lemma preserves_change {A} c (g : Fs.node -> Js.exc A * Fs.node) :
  (forall r, I r -> I (snd (g r))) -> preserves I (change c g).
Proof.
  intros H st Hst. unfold change. specialize (H (root st) Hst).
  destruct (g (root st)) as [r root']. exact H.
Qed.

(** A step that always returns and keeps an invariant of the state. *)
Lemma ends_step {A} (J : State -> Prop) (m : M A) st
    (Q : A -> State -> Prop) E :
  returns m -> (forall s, J s -> J (snd (m s))) -> J st ->
  (forall v st1, J st1 -> Q v st1) -> ends m st Q E.
Proof.
  intros Hr HJ Hst HQ. unfold ends. specialize (HJ st Hst).
  destruct (Hr st) as (v & st1 & Hm). rewrite Hm in *. now apply HQ.
Qed.

End PreservesFacts.

Ltac preserves_step :=
  first
    [ apply preserves_keeps; solve [keeps_tac]
    | apply preserves_change; intros;
      first [ apply well_formed_cp | apply well_formed_copyFile
            | apply well_formed_writeFile ]; assumption
    | apply preserves_bind | apply preserves_catch
    | match goal with
      | |- CleanerSpec.preserves _ (if ?b then _ else _) => destruct b
      | |- CleanerSpec.preserves _ (match ?x with _ => _ end) => destruct x
      end ].

Section Emptied.
Import Process Cleaner CleanerSpec FsSpec.
Local Open Scope proc_scope.
Variable env : Fs.Env.
Variable options : Cleaner.Options.

Lemma createBackup_well_formed targetPath operation :
  preserves (fun r => well_formed r = true)
    (SecurityManager.createBackup env (securityOptions env options)
       targetPath operation).
Proof.
  unfold SecurityManager.createBackup,
    SecurityManager.createDirectoryBackup, SecurityManager.createFileBackup,
    SecurityManager.createManifestBackup, SecurityManager.getBackupSize.
  repeat (intros; cbv zeta; preserves_step).
Qed.

Lemma keeps_root_invariant {A} (J : Fs.node -> Prop) (m : M A) :
  keeps root m -> forall s, J (root s) -> J (root (snd (m s))).
Proof. intros H s Hs. now rewrite H. Qed.

Lemma cleanPath_empties targetPath description category st :
  dryRun options = false ->
  well_formed (root st) = true ->
  ends (cleanPath env options targetPath description category) st
       (fun r st' =>
          size r <> 0%N -> cleared (Fs.segments targetPath) (root st'))
       (fun _ _ => False).
Proof.
  intros Hdry Hwf.
  set (Q := fun (r : SizeCount) (st' : State) =>
              size r <> 0%N -> cleared (Fs.segments targetPath) (root st')).
  assert (Hzero : forall st1, Q {| size := 0; count := 0 |} st1)
    by (intros st1 H; now contradiction H).
  set (W := fun s : State => well_formed (root s) = true).
  set (C := fun s : State => cleared (Fs.segments targetPath) (root s)).
  unfold cleanPath. rewrite Hdry. apply ends_catch, ends_bind.
  apply (ends_step W); [apply validateOperation_returns| |exact Hwf|].
  { apply (keeps_root_invariant (fun r => well_formed r = true)), validateOperation_keeps. reflexivity. }
  intros isValid st1 H1.
  destruct isValid; cbn [negb]; [|apply ends_ret, Hzero].
  apply ends_bind. apply (ends_step W); [| |exact H1|].
  { apply returns_catch. intros; apply returns_ret. }
  { apply (keeps_root_invariant (fun r => well_formed r = true)). keeps_tac. }
  intros exists_ st2 H2.
  destruct exists_; cbn [negb]; [|apply ends_ret, Hzero].
  apply ends_bind. apply (ends_step W); [| |exact H2|].
  { unfold getFolderSize. returns_tac. }
  { apply (keeps_root_invariant (fun r => well_formed r = true)). unfold getFolderSize. keeps_tac. }
  intros measured st3 H3. cbv zeta.
  destruct (N.eqb_spec (size measured) 0) as [Hsize|Hsize];
    [apply ends_ret, Hzero|].
  apply ends_bind. rewrite andb_true_r.
  apply (ends_step W); [| |exact H3|].
  { destruct (enableBackup options); [|apply returns_ret].
    apply returns_bind; [apply createBackup_returns|intros].
    apply returns_bind; [apply log_returns|intros; apply returns_ret]. }
  { destruct (enableBackup options); [|intros s Hs; exact Hs].
    apply (preserves_bind (fun r => well_formed r = true));
      [apply createBackup_well_formed|intros].
    apply preserves_keeps. keeps_tac. }
  intros backupId st4 H4. apply ends_bind.
  unfold ends at 1, change at 1.
  destruct (Fs.rimraf env (root st4) targetPath) as [[[]|e] root5] eqn:Erm.
  - assert (H5 : C (with_root root5 (calls st4 ++ [Fs.CallRimraf targetPath]) st4))
      by (exact (rimraf_clears env (root st4) targetPath root5 H4 Erm)).
    apply ends_bind. apply (ends_step C); [| |exact H5|].
    { apply returns_catch. intros; apply returns_ret. }
    { intros s Hs. unfold try_catch, change.
      pose proof (mkdir_clears env (root s) targetPath Hs) as Hm.
      destruct (Fs.mkdir env (root s) targetPath) as [[[]|e] root6];
        exact Hm. }
    intros [] st6 H6.
    apply ends_bind. apply (ends_step C); [| |exact H6|].
    { unfold add_stats. returns_tac. }
    { apply (keeps_root_invariant (cleared (Fs.segments targetPath))). unfold add_stats. keeps_tac. }
    intros [] st7 H7.
    apply ends_bind. apply (ends_step C); [apply log_returns| |exact H7|].
    { apply (keeps_root_invariant (cleared (Fs.segments targetPath))), log_keeps. reflexivity. }
    intros [] st8 H8.
    apply ends_bind. apply (ends_step C); [| |exact H8|].
    { unfold trackOperation. returns_tac. }
    { apply (keeps_root_invariant (cleared (Fs.segments targetPath))). unfold trackOperation. keeps_tac. }
    intros [] st9 H9. apply ends_ret. intros _. exact H9.
  - apply ends_bind. apply (ends_step (fun _ => True)); [apply log_returns|auto|exact Logic.I|].
    intros [] st6 _. apply ends_bind. unfold trackOperation.
    apply ends_modify, ends_ret, Hzero.
Qed.

End Emptied.

Section EmptiedExtras.
Import Process Cleaner CleanerSpec FsSpec.

(** X21. After a real cleaning that returned a non-zero result nothing is
    left at the target: the path is either gone or an empty directory (on
    a tree in which no directory lists a name twice, and for a target that
    does not hold the log file, or with file logging off: a log line
    appended after the deletion would put the log file back). Measuring it
    again gives zero, so cleaning the same target a second time returns
    [{ size: 0, count: 0 }] and touches neither the tree nor the
    counters. *)
Theorem cleanPath_twice
    (env : Fs.Env) (options : Cleaner.Options)
    (targetPath description category : string)
    (st : State) (r : SizeCount) (st' : State) :
  dryRun options = false ->
  enableLogging options = false \/
    holds targetPath
      (SecurityManager.logLocation (securityOptions env options)) = false ->
  well_formed (root st) = true ->
  cleanPath env options targetPath description category st = (Js.Ok r, st') ->
  size r <> 0%N ->
  cleared (Fs.segments targetPath) (root st') /\
  measure env (root st') targetPath = {| size := 0; count := 0 |} /\
  exists st'',
    cleanPath env options targetPath description category st'
    = (Js.Ok {| size := 0; count := 0 |}, st'') /\
    root st'' = root st' /\ calls st'' = calls st' /\ stats st'' = stats st'.
Proof.
  intros Hdry _ Hwf Hrun Hsize.
  pose proof (cleanPath_empties env options targetPath description category
                st Hdry Hwf) as H.
  unfold ends in H. rewrite Hrun in H. specialize (H Hsize).
  pose proof (measure_cleared env _ _ H) as Hm.
  split; [exact H|]. split; [exact Hm|].
  eexists. split.
  - apply cleanPath_skips. right. right. now rewrite Hm.
  - repeat split;
      apply (validateOperation_keeps env (securityOptions env options));
      reflexivity.
Qed.

End EmptiedExtras.

(** ** The retention sweep *)
Section RetentionFacts.
Import Process FsSpec CleanerSpec.
Local Open Scope proc_scope.

Lemma find_unset_other s s' es :
  s' <> s -> Fs.find s' (Fs.unset s es) = Fs.find s' es.
Proof.
  intros Hne. induction es as [|[n c] es IH]; [reflexivity|].
  cbn [Fs.unset Fs.find]. destruct (String.eqb_spec n s) as [->|Hn].
  - apply String.eqb_neq in Hne. rewrite String.eqb_sym in Hne.
    rewrite String.eqb_sym. now rewrite String.eqb_sym, Hne.
  - cbn [Fs.find]. now rewrite IH.
Qed.

Lemma find_set_other s s' c es :
  s' <> s -> Fs.find s' (Fs.set s c es) = Fs.find s' es.
Proof.
  intros Hne. induction es as [|[n d] es IH]; cbn [Fs.set Fs.find].
  - apply String.eqb_neq in Hne. rewrite String.eqb_sym in Hne. now rewrite Hne.
  - destruct (String.eqb_spec n s) as [->|Hn]; cbn [Fs.find].
    + apply String.eqb_neq in Hne. rewrite String.eqb_sym in Hne.
      now rewrite Hne.
    + now rewrite IH.
Qed.

Lemma keeps_directories_refl root : keeps_directories root root.
Proof. intros segs es H. eauto. Qed.

Lemma keeps_directories_trans a b c :
  keeps_directories a b -> keeps_directories b c -> keeps_directories a c.
Proof.
  intros Hab Hbc segs es H. destruct (Hab segs es H) as (es' & H').
  exact (Hbc segs es' H').
Qed.

Lemma remove_file_keeps_directories : forall q root fsize data,
  Fs.lookup root q = Some (Fs.File fsize data) ->
  keeps_directories root (Fs.remove root q).
Proof.
  induction q as [|s rest IH]; intros root fsize data Hq.
  - apply keeps_directories_refl.
  - cbn [Fs.lookup] in Hq. destruct root as [|es]; [discriminate|].
    destruct (Fs.find s es) as [c|] eqn:Hfind; [|discriminate].
    intros p ds Hp. cbn [Fs.remove]. destruct rest as [|s2 rest2].
    + cbn [Fs.lookup] in Hq. injection Hq as ->.
      destruct p as [|s' prest]; [cbn; eauto|].
      cbn [Fs.lookup] in *. destruct (String.eqb_spec s' s) as [->|Hne].
      * rewrite Hfind in Hp. destruct prest; discriminate.
      * rewrite find_unset_other by exact Hne. eauto.
    + rewrite Hfind. destruct p as [|s' prest]; [cbn; eauto|].
      cbn [Fs.lookup] in *. destruct (String.eqb_spec s' s) as [->|Hne].
      * rewrite find_set. rewrite Hfind in Hp.
        exact (IH c fsize data Hq prest ds Hp).
      * rewrite find_set_other by exact Hne. eauto.
Qed.

Lemma unlink_keeps_directories env root p :
  keeps_directories root (snd (SecurityOps.unlink env root p)).
Proof.
  unfold SecurityOps.unlink.
  destruct (Fs.lookup root (Fs.segments p)) as [[fsize data|es]|] eqn:Hp;
    try apply keeps_directories_refl.
  destruct (Fs.denied env Fs.Unlink p); [apply keeps_directories_refl|].
  exact (remove_file_keeps_directories _ _ _ _ Hp).
Qed.

Lemma preserves_for_each {A} (I : Fs.node -> Prop) (l : list A) (f : A -> M unit) :
  (forall x, preserves I (f x)) -> preserves I (SecurityManager.for_each l f).
Proof.
  intros H. induction l as [|x l IH]; cbn [SecurityManager.for_each].
  - apply preserves_keeps, keeps_ret.
  - apply preserves_bind; [apply H|intros _; exact IH].
Qed.

Lemma unlinks_preserves env root0 filePath :
  preserves (keeps_directories root0) (SecurityOps.unlinks env filePath).
Proof.
  intros st Hst. unfold SecurityOps.unlinks.
  pose proof (unlink_keeps_directories env (root st) filePath) as H.
  destruct (SecurityOps.unlink env (root st) filePath) as [r root'].
  cbn in *. exact (keeps_directories_trans _ _ _ Hst H).
Qed.

End RetentionFacts.

Section RetentionExtras.
Import Process FsSpec CleanerSpec.

(** X22. The retention sweep never raises and never removes a directory:
    whatever is a directory before [cleanupOldBackups] is still a directory
    after it, because old backups are removed with [unlink], which refuses
    directories. A backup made by copying a directory is therefore never
    cleaned up, however old it is. *)
Theorem cleanupOldBackups_keeps_directories
    (env : Fs.Env) (options : SecurityManager.Options)
    (retentionDays : Z) (mtime : string -> Z) (st : State) :
  exists st',
    SecurityOps.cleanupOldBackups env options retentionDays mtime st
    = (Js.Ok tt, st') /\
    forall segs es,
      Fs.lookup (root st) segs = Some (Fs.Dir es) ->
      exists es', Fs.lookup (root st') segs = Some (Fs.Dir es').
Proof.
  assert (Hret : returns
            (SecurityOps.cleanupOldBackups env options retentionDays mtime)).
  { unfold SecurityOps.cleanupOldBackups. apply returns_catch.
    intros. apply log_returns. }
  assert (Hkeep : preserves (keeps_directories (root st))
            (SecurityOps.cleanupOldBackups env options retentionDays mtime)).
  { unfold SecurityOps.cleanupOldBackups.
    apply preserves_catch; [|intros; apply preserves_keeps, log_keeps; reflexivity].
    apply preserves_bind; [apply preserves_keeps, keeps_lift|intros files].
    apply preserves_bind; [apply preserves_keeps, now_keeps; reflexivity|intros t].
    cbv zeta. apply preserves_for_each. intros file.
    destruct (SecurityOps.endsWith (Fs.name file) ".backup");
      [|apply preserves_keeps, keeps_ret].
    apply preserves_bind; [apply preserves_keeps, keeps_lift|intros stat].
    destruct (_ <? _)%Z; [|apply preserves_keeps, keeps_ret].
    apply preserves_bind; [apply unlinks_preserves|intros _].
    apply preserves_keeps, log_keeps. reflexivity. }
  destruct (Hret st) as ([] & st' & Hrun). exists st'.
  split; [exact Hrun|].
  specialize (Hkeep st (keeps_directories_refl _)). rewrite Hrun in Hkeep.
  exact Hkeep.
Qed.

End RetentionExtras.

(** ** Merging options *)
Section MergeExtras.
Import ConfigMerge.

(** X23. [mergeOptions] raises exactly when the loaded file has an
    [excludePatterns] object without a [global] list (the spread of the
    missing list fails), although [shouldExcludePath] accepts such a file.
    In every other case it returns; and what it returns then holds, under
    [excludePatterns.global], the patterns of the command line followed by
    those of the file, never fewer. *)
Theorem mergeOptions_raises_without_global_patterns
    (config : option FullConfig) (cliOptions : Options) :
  ((exists e, mergeOptions config cliOptions = Js.Throw e) <->
   (exists cfg ep,
      config = Some cfg /\ cfg_excludePatterns cfg = Some ep /\
      ConfigManager.global ep = None)) /\
  (forall cfg ep fromFile merged,
     config = Some cfg -> cfg_excludePatterns cfg = Some ep ->
     ConfigManager.global ep = Some fromFile ->
     mergeOptions config cliOptions = Js.Ok merged ->
     exists fromCli mergedPatterns,
       excludePatterns merged = Some mergedPatterns /\
       ConfigManager.global mergedPatterns = Some (fromCli ++ fromFile)%list /\
       (forall cep g, excludePatterns cliOptions = Some cep ->
                      ConfigManager.global cep = Some g -> fromCli = g)).
Proof.
  split.
  - split.
    + intros (e & H). unfold mergeOptions in H.
      destruct config as [cfg|]; [|discriminate].
      destruct (cfg_excludePatterns cfg) as [ep|] eqn:Hep; [|discriminate].
      destruct (ConfigManager.global ep) eqn:Hg; [discriminate|].
      exists cfg, ep. auto.
    + intros (cfg & ep & -> & Hep & Hg). unfold mergeOptions.
      rewrite Hep, Hg. eauto.
  - intros cfg ep fromFile merged -> Hep Hg. unfold mergeOptions.
    rewrite Hep, Hg. intros [= <-]. cbn [excludePatterns].
    eexists. eexists. split; [reflexivity|]. cbn [ConfigManager.global].
    split; [reflexivity|]. intros cep g -> ->. reflexivity.
Qed.

(** X24. The [enabled] flag of a custom path is read in two ways. An
    entry without the flag is kept by [mergeOptions] (only an explicit
    [false] drops it), but [getCustomPathsForCategory] takes paths only
    from entries whose flag is [true]: every path it returns comes from
    such an entry of the asked category. *)
Theorem customPaths_enabled_flag
    (cfg : FullConfig) (cliOptions merged : Options)
    (cps : list CustomPath) (cp : CustomPath) (category : string) :
  cfg_customPaths cfg = Some cps ->
  mergeOptions (Some cfg) cliOptions = Js.Ok merged ->
  In cp cps ->
  cp_enabled cp = None ->
  (exists kept, customPaths merged = Some kept /\ In cp kept) /\
  (forall p,
     In p (getCustomPathsForCategory (Some cfg) category) ->
     exists other,
       In other cps /\ cp_enabled other = Some true /\
       cp_category other = category /\ In p (cp_paths other)).
Proof.
  intros Hcps Hmerge Hin Hflag. split.
  - unfold mergeOptions in Hmerge. rewrite Hcps in Hmerge.
    assert (Hkept : In cp (List.filter
                             (fun cp => match cp_enabled cp with
                                        | Some false => false
                                        | _ => true
                                        end) cps))
      by (apply filter_In; split; [exact Hin|now rewrite Hflag]).
    destruct (cfg_excludePatterns cfg) as [ep|].
    + destruct (ConfigManager.global ep); [|discriminate].
      injection Hmerge as <-. cbn. eauto.
    + injection Hmerge as <-. cbn. eauto.
  - intros p Hp. unfold getCustomPathsForCategory in Hp. rewrite Hcps in Hp.
    apply in_flat_map in Hp. destruct Hp as (other & Hother & Hpath).
    apply filter_In in Hother. destruct Hother as [Ho Hcond].
    exists other. destruct (cp_enabled other) as [[|]|]; try discriminate.
    apply String.eqb_eq in Hcond. auto.
Qed.

End MergeExtras.

(** ** The two logs *)
Section ExtendsFacts.
Import Process Cleaner CleanerSpec.
Local Open Scope proc_scope.

Lemma extends_keeps {A X} (f : State -> list X) (m : M A) :
  keeps f m -> extends f m.
Proof. intros H st. exists []. now rewrite H, app_nil_r. Qed.

Lemma extends_bind {A B X} (f : State -> list X) (m : M A) (k : A -> M B) :
  extends f m -> (forall v, extends f (k v)) -> extends f (bind m k).
Proof.
  intros Hm Hk st. unfold bind. destruct (Hm st) as (l1 & E1).
  destruct (m st) as [[v|e] st1]; cbn [snd] in *.
  - destruct (Hk v st1) as (l2 & E2).
    exists (l1 ++ l2)%list. now rewrite E2, E1, app_assoc.
  - exists l1. exact E1.
Qed.

Lemma extends_catch {A X} (f : State -> list X) (m : M A) h :
  extends f m -> (forall e, extends f (h e)) -> extends f (try_catch m h).
Proof.
  intros Hm Hh st. unfold try_catch. destruct (Hm st) as (l1 & E1).
  destruct (m st) as [[v|e] st1]; cbn [snd] in *.
  - exists l1. exact E1.
  - destruct (Hh e st1) as (l2 & E2).
    exists (l1 ++ l2)%list. now rewrite E2, E1, app_assoc.
Qed.

Lemma extends_for_each {A X} (f : State -> list X) (l : list A) (g : A -> M unit) :
  (forall x, extends f (g x)) -> extends f (SecurityManager.for_each l g).
Proof.
  intros H. induction l as [|x l IH]; cbn [SecurityManager.for_each].
  - apply extends_keeps, keeps_ret.
  - apply extends_bind; [apply H|intros _; exact IH].
Qed.

Lemma log_extends_operationLog env options lv m :
  extends operationLog (SecurityManager.log env options lv m).
Proof. intros st. eexists. apply log_operationLog. Qed.

Lemma log_extends_logFile env options lv m :
  extends logFile (SecurityManager.log env options lv m).
Proof.
  intros st. unfold SecurityManager.log, SecurityManager.logToFile, bind, modify, ret.
  destruct (SecurityManager.enableLogging options); cbn.
  - destruct (Fs.denied env Fs.AppendFile (SecurityManager.logLocation options));
      cbn; [exists []; now rewrite app_nil_r|eauto].
  - exists []. now rewrite app_nil_r.
Qed.

Lemma log_keeps_logFile env options lv m :
  SecurityManager.enableLogging options = false ->
  keeps logFile (SecurityManager.log env options lv m).
Proof.
  intros Hoff st. unfold SecurityManager.log, bind, modify, ret.
  rewrite Hoff. reflexivity.
Qed.

End ExtendsFacts.

Section LogFacts.
Import Process Cleaner CleanerSpec.
Local Open Scope proc_scope.
Variable env : Fs.Env.
Variable options : Cleaner.Options.

Lemma cleanPath_extends {X} (f : State -> list X) targetPath description category :
  (forall lv m, extends f (SecurityManager.log env (securityOptions env options) lv m)) ->
  (forall A (m : M A), keeps f m -> extends f m) ->
  (forall r c s, f (with_root r c s) = f s) ->
  (forall x s, f (with_stats x s) = f s) ->
  (forall x s, f (with_session x s) = f s) ->
  (forall x s, f (with_backups x s) = f s) ->
  (forall x s, f (with_ticks x s) = f s) ->
  extends f (cleanPath env options targetPath description category).
Proof.
  intros Hlog Hkeep Hroot Hstats Hsession Hbackups Hticks.
  assert (Hmod : forall g, (forall s, f (g s) = f s) -> extends f (modify g))
    by (intros g Hg; apply Hkeep, keeps_modify, Hg).
  assert (Hchange : forall A c (g : Fs.node -> Js.exc A * Fs.node),
            extends f (change c g)).
  { intros A c g. apply Hkeep. intros st. unfold change.
    destruct (g (root st)). apply Hroot. }
  assert (Hlift : forall A (g : Fs.node -> Js.exc A), extends f (lift g))
    by (intros; apply Hkeep, keeps_lift).
  assert (Hret : forall A (v : A), extends f (ret v))
    by (intros; apply Hkeep, keeps_ret).
  assert (Hthrow : forall A e, extends f (@throw A e))
    by (intros; apply Hkeep, keeps_throw).
  assert (Hgets : forall A (g : State -> A), extends f (gets g))
    by (intros; apply Hkeep, keeps_gets).
  assert (Hnow : extends f SecurityManager.now)
    by (apply Hkeep; intros st; apply Hticks).
  assert (Hid : extends f (SecurityManager.fresh_id env))
    by (apply Hkeep; intros st; apply Hticks).
  assert (Hmap : forall A C (l : list A) (g : A -> M C),
            (forall x, keeps f (g x)) -> extends f (SecurityManager.map_each l g))
    by (intros; apply Hkeep, map_each_keeps; assumption).
  unfold cleanPath, getFolderSize, trackOperation, add_stats,
    SecurityManager.validateOperation, SecurityManager.createBackup,
    SecurityManager.createDirectoryBackup, SecurityManager.createFileBackup,
    SecurityManager.createManifestBackup, SecurityManager.getBackupSize.
  repeat (intros; cbv zeta; first
    [ apply Hlog | apply Hchange | apply Hlift | apply Hret | apply Hthrow
    | apply Hgets | apply Hnow | apply Hid
    | apply Hmap; intros; apply keeps_bind; [apply keeps_lift|intros; apply keeps_ret]
    | apply Hmod; intros; first [apply Hstats|apply Hsession|apply Hbackups]
    | apply extends_for_each
    | apply extends_bind | apply extends_catch
    | match goal with
      | |- extends _ (if ?b then _ else _) => destruct b
      | |- extends _ (match ?x with _ => _ end) => destruct x
      end ]).
Qed.

Lemma run_extends {X} (f : State -> list X) paths :
  (forall t d c, extends f (cleanPath env options t d c)) ->
  extends f (run env options paths).
Proof.
  intros H. unfold run. apply extends_for_each. intros area.
  unfold Js.get. destruct (paths !! area) as [[|p entries]|].
  - apply extends_keeps, keeps_ret.
  - apply extends_for_each. intros pathInfo.
    apply extends_bind; [apply H|intros; apply extends_keeps, keeps_ret].
  - destruct (Js.Object_prototype area) as [[[|n]|]|];
      apply extends_keeps; first [apply keeps_ret|apply keeps_throw].
Qed.

Lemma cleanPath_quiet targetPath description category :
  enableLogging options = false ->
  keeps logFile (cleanPath env options targetPath description category).
Proof.
  intros Hoff.
  assert (Hlog : forall lv m,
            keeps logFile (SecurityManager.log env (securityOptions env options) lv m))
    by (intros; apply log_keeps_logFile; exact Hoff).
  unfold cleanPath, getFolderSize, trackOperation, add_stats,
    SecurityManager.validateOperation, SecurityManager.createBackup,
    SecurityManager.createDirectoryBackup, SecurityManager.createFileBackup,
    SecurityManager.createManifestBackup, SecurityManager.getBackupSize.
  repeat (intros; cbv zeta; first [apply Hlog | keeps_step]).
Qed.

End LogFacts.

Section LogExtras.
Import Process Cleaner CleanerSpec FsSpec.

(** X25. The operation log is append-only over the cleaning loop of
    [run], however the loop ends: the entries that were there before are
    still there, in order, followed by the new ones. The same holds of the
    lines of the log file as long as no path the loop cleans holds that
    file (a target that holds it takes it away with everything else): the
    loop only appends to it, and with [enableLogging] off it appends
    nothing, while the operation log still grows. *)
Theorem run_logs_append_only
    (env : Fs.Env) (options : Cleaner.Options)
    (paths : gmap string (list pathInfo)) (st : State) :
  (forall area entries pathInfo,
     In area (areasToClean options) ->
     paths !! area = Some entries ->
     In pathInfo entries ->
     holds (path pathInfo)
           (SecurityManager.logLocation (securityOptions env options))
     = false) ->
  exists outcome st' entries lines,
    run env options paths st = (outcome, st') /\
    operationLog st' = (operationLog st ++ entries)%list /\
    logFile st' = (logFile st ++ lines)%list /\
    (enableLogging options = false -> lines = []).
Proof.
  intros _.
  assert (H1 : extends operationLog (run env options paths)).
  { apply run_extends. intros. apply cleanPath_extends;
      try (intros; reflexivity).
    - intros. apply log_extends_operationLog.
    - intros. now apply extends_keeps. }
  assert (H2 : extends logFile (run env options paths)).
  { apply run_extends. intros. apply cleanPath_extends;
      try (intros; reflexivity).
    - intros. apply log_extends_logFile.
    - intros. now apply extends_keeps. }
  destruct (H1 st) as (entries & E1). destruct (H2 st) as (lines & E2).
  assert (Hq : enableLogging options = false ->
               logFile (snd (run env options paths st)) = logFile st).
  { intros Hoff.
    exact (run_keeps env options logFile paths
             (fun t d c => cleanPath_quiet env options t d c Hoff) st). }
  destruct (run env options paths st) as [outcome st'] eqn:Hrun.
  cbn [snd] in *.
  exists outcome, st', entries, lines. repeat split; try assumption.
  intros Hoff. rewrite (Hq Hoff) in E2.
  apply (app_inv_head (logFile st)). now rewrite app_nil_r, <- E2.
Qed.

End LogExtras.

(** ** The properties above on the fixtures *)
Section ExtraWitnesses.
Import Process Cleaner Fixtures.

Lemma restoreBackup_needs_json_file_witness :
  exists st',
    SecurityManager.restoreBackup (env permissive)
      (securityOptions (env permissive) real_run) "b7" state_with_copy
    = (Js.Ok false, st') /\
    root st' = root state_with_copy /\ calls st' = calls state_with_copy.
Proof.
  apply (proj2 (restoreBackup_needs_json_file (env permissive)
                  (securityOptions (env permissive) real_run)
                  "b7" orphan state_with_copy eq_refl)
               [ ("a.tmp", Fs.File 100 Fs.Opaque);
                 ("b.tmp", Fs.File 30 Fs.Opaque);
                 ("c.tmp", Fs.File 20 Fs.Opaque) ]).
  reflexivity.
Defined.

Lemma createBackup_then_restoreBackup_of_directory_witness :
  exists st1,
    SecurityManager.createBackup (env permissive)
      (securityOptions (env permissive) real_run) "/tmp/fixture" "delete" state0
    = (Js.Ok (Some "b0"), st1) /\
    exists st2,
      SecurityManager.restoreBackup (env permissive)
        (securityOptions (env permissive) real_run) "b0" st1
      = (Js.Ok false, st2) /\
      root st2 = root st1.
Proof.
  destruct (createBackup_then_restoreBackup_of_directory (env permissive)
              (securityOptions (env permissive) real_run)
              "/tmp/fixture" "delete"
              [ ("a.tmp", Fs.File 100 Fs.Opaque);
                ("b.tmp", Fs.File 30 Fs.Opaque);
                ("c.tmp", Fs.File 20 Fs.Opaque) ]
              (snd (Fs.cp (env permissive) disk "/tmp/fixture"
                      "/home/u/.ultra-cleaner-backups/b0.backup"))
              state0)
    as (st1 & Hrun & Hroot & st2 & Hrun2 & Hroot2 & _).
  - reflexivity.
  - reflexivity.
  - reflexivity.
  - vm_compute. reflexivity.
  - exists st1. split; [exact Hrun|]. exists st2. split; [exact Hrun2|].
    now rewrite Hroot2, Hroot.
Defined.

Lemma restoreBackup_from_manifest_witness :
  exists ok st' issued,
    SecurityManager.restoreBackup (env permissive)
      (securityOptions (env permissive) real_run) "b3" state_with_manifest
    = (Js.Ok ok, st') /\
    calls st' = (calls state_with_manifest ++ issued)%list /\
    Forall (fun c => exists f, In f (Fs.files listing) /\
                               Fs.mf_isDirectory f = true /\
                               c = Fs.CallMkdir (Fs.mf_path f)) issued.
Proof.
  apply (restoreBackup_from_manifest (env permissive)
           (securityOptions (env permissive) real_run)
           "b3" listed listing state_with_manifest).
  - reflexivity.
  - reflexivity.
Defined.

Lemma cleanPath_regular_file_target_witness :
  getFolderSize (env permissive) "/tmp/fixture/a.tmp" false state0
  = (Js.Ok {| size := 0; count := 0 |}, state0) /\
  exists st',
    cleanPath (env permissive) real_run "/tmp/fixture/a.tmp" "a file" "user" state0
    = (Js.Ok {| size := 0; count := 0 |}, st') /\
    root st' = root state0 /\ calls st' = calls state0 /\
    backups st' = backups state0 /\ stats st' = stats state0 /\
    currentSession st' = currentSession state0.
Proof.
  apply (cleanPath_regular_file_target (env permissive) real_run
           "/tmp/fixture/a.tmp" "a file" "user" 100 Fs.Opaque state0).
  reflexivity.
Defined.

Lemma cleanPath_invalid_target_witness :
  exists st' e,
    cleanPath (env permissive) real_run "/tmp/absent" "absent" "user" state0
    = (Js.Ok {| size := 0; count := 0 |}, st') /\
    root st' = root state0 /\ calls st' = calls state0 /\
    backups st' = backups state0 /\ stats st' = stats state0 /\
    currentSession st' = currentSession state0 /\
    operationLog st'
    = (operationLog state0
       ++ [{| lvl := ERROR;
              msg := "Operation validation failed: " ++ Js.message e |}])%list.
Proof.
  apply (cleanPath_invalid_target (env permissive) real_run
           "/tmp/absent" "absent" "user" state0).
  left. vm_compute. discriminate.
Defined.

Lemma getFolderSize_accessible_tree_witness :
  let measured := measure (env permissive) disk "/tmp/nested" in
  (bytes_below nested <= size measured)%N /\
  (files_below nested <= count measured)%N /\
  (size measured = 0%N <-> bytes_below nested = 0%N) /\
  (count measured = 0%N <-> files_below nested = 0%N).
Proof.
  apply (getFolderSize_accessible_tree (env permissive) disk "/tmp/nested"
           [ ("a.log", Fs.File 10 Fs.Opaque);
             ("sub", Fs.Dir [ ("b.log", Fs.File 5 Fs.Opaque) ]) ]).
  - reflexivity.
  - reflexivity.
  - reflexivity.
Defined.

Lemma run_dry_run_changes_nothing_witness :
  run (env permissive) preview targets state0
  = (Js.Ok tt, snd (run (env permissive) preview targets state0)) /\
  root (snd (run (env permissive) preview targets state0)) = root state0 /\
  calls (snd (run (env permissive) preview targets state0)) = calls state0 /\
  backups (snd (run (env permissive) preview targets state0)) = backups state0 /\
  currentSession (snd (run (env permissive) preview targets state0))
  = currentSession state0.
Proof.
  destruct (run_dry_run_changes_nothing (env permissive) preview targets state0
              eq_refl) as (Hroot & Hcalls & Hbackups & Hsession & Hok).
  split; [|auto].
  rewrite (surjective_pairing (run (env permissive) preview targets state0)) at 1.
  rewrite Hok; [reflexivity|].
  intros area [<-|[]]. reflexivity.
Defined.

Lemma shouldExcludePath_extends_to_longer_paths_witness :
  ConfigManager.shouldExcludePath (Some excluding)
    ("/mnt" ++ "/tmp/fixture" ++ "/a.tmp") None = Js.Ok true.
Proof.
  apply (shouldExcludePath_extends_to_longer_paths (Some excluding)
           "/tmp/fixture" None "/mnt" "/a.tmp").
  vm_compute. reflexivity.
Defined.

Lemma matchesPattern_ignores_case_witness :
  ConfigManager.matchesPattern "/Tmp/Cache/App.LOG" "**/cache/*.log"
  = ConfigManager.matchesPattern "/tmp/cache/app.log" "**/cache/*.log".
Proof.
  apply (matchesPattern_ignores_case "/Tmp/Cache/App.LOG" "/tmp/cache/app.log"
           "**/cache/*.log").
  vm_compute. reflexivity.
Defined.

Lemma calculateTrends_last_fourteen_witness :
  AnalyticsManager.calculateTrends
    ([AnalyticsManager.session_of 5000; AnalyticsManager.session_of 1]
     ++ history14)
  = AnalyticsManager.calculateTrends history14.
Proof.
  apply (calculateTrends_last_fourteen
           [AnalyticsManager.session_of 5000; AnalyticsManager.session_of 1]
           history14).
  reflexivity.
Defined.

Lemma main_menu_overrides_dry_run_flag_witness :
  exists cleanupOptions,
    Cli.main dry_run_only picks_quick = Cli.Run cleanupOptions /\
    dryRun (Cli.constructor cleanupOptions) = false.
Proof.
  apply (proj2 (main_menu_overrides_dry_run_flag dry_run_only picks_quick
                  (or_intror (conj eq_refl eq_refl)))).
  - discriminate.
  - reflexivity.
Defined.

Lemma interactiveMode_quick_cleans_every_area_witness :
  exists cleanupOptions,
    Cli.main dry_run_only picks_quick = Cli.Run cleanupOptions /\
    areasToClean (Cli.constructor cleanupOptions)
    = ["system"; "user"; "browsers"; "apps"; "npm"; "logs"] /\
    Cli.main dry_run_only
      {| Cli.chosen := Cli.ChoiceDeep; Cli.areas := Cli.areas picks_quick;
         Cli.confirmed := Cli.confirmed picks_quick |}
    = Cli.Run cleanupOptions.
Proof.
  apply (interactiveMode_quick_cleans_every_area dry_run_only picks_quick).
  - right. split; reflexivity.
  - reflexivity.
  - reflexivity.
Defined.

Lemma main_quick_asks_nothing_witness :
  exists cleanupOptions,
    Cli.main quick_dry_run picks_quick = Cli.Run cleanupOptions /\
    dryRun (Cli.constructor cleanupOptions) = Cli.dryRun quick_dry_run /\
    areasToClean (Cli.constructor cleanupOptions) = ["system"; "user"; "npm"].
Proof.
  apply (main_quick_asks_nothing quick_dry_run picks_quick).
  - reflexivity.
  - reflexivity.
Defined.


Lemma cleanPath_twice_witness :
  FsSpec.cleared (Fs.segments "/tmp/fixture")
    (root (snd (cleanPath (env permissive) real_run
                  "/tmp/fixture" "fixture" "user" state0))) /\
  measure (env permissive)
    (root (snd (cleanPath (env permissive) real_run
                  "/tmp/fixture" "fixture" "user" state0))) "/tmp/fixture"
  = {| size := 0; count := 0 |} /\
  exists st'',
    cleanPath (env permissive) real_run "/tmp/fixture" "fixture" "user"
      (snd (cleanPath (env permissive) real_run
              "/tmp/fixture" "fixture" "user" state0))
    = (Js.Ok {| size := 0; count := 0 |}, st'') /\
    root st''
    = root (snd (cleanPath (env permissive) real_run
                   "/tmp/fixture" "fixture" "user" state0)) /\
    calls st''
    = calls (snd (cleanPath (env permissive) real_run
                    "/tmp/fixture" "fixture" "user" state0)) /\
    stats st''
    = stats (snd (cleanPath (env permissive) real_run
                    "/tmp/fixture" "fixture" "user" state0)).
Proof.
  apply (cleanPath_twice (env permissive) real_run
           "/tmp/fixture" "fixture" "user" state0
           {| size := 150; count := 3 |}).
  - reflexivity.
  - right. reflexivity.
  - reflexivity.
  - vm_compute. reflexivity.
  - vm_compute. discriminate.
Defined.

Lemma mergeOptions_raises_without_global_patterns_witness :
  exists e,
    ConfigMerge.mergeOptions (Some file_without_global) bare_command_line
    = Js.Throw e.
Proof.
  apply (proj2 (proj1 (mergeOptions_raises_without_global_patterns
                         (Some file_without_global) bare_command_line))).
  eexists. eexists. repeat split; reflexivity.
Defined.

Lemma customPaths_enabled_flag_witness :
  (exists kept,
     ConfigMerge.customPaths
       {| ConfigMerge.dryRun := None; ConfigMerge.verbose := None;
          ConfigMerge.parallel := None; ConfigMerge.backup := None;
          ConfigMerge.customPaths := Some [unflagged];
          ConfigMerge.excludePatterns := None |}
     = Some kept /\ In unflagged kept) /\
  (forall p,
     In p (ConfigMerge.getCustomPathsForCategory
             (Some file_with_custom_path) "user") ->
     exists other,
       In other [unflagged] /\ ConfigMerge.cp_enabled other = Some true /\
       ConfigMerge.cp_category other = "user" /\
       In p (ConfigMerge.cp_paths other)).
Proof.
  apply (customPaths_enabled_flag file_with_custom_path bare_command_line
           {| ConfigMerge.dryRun := None; ConfigMerge.verbose := None;
              ConfigMerge.parallel := None; ConfigMerge.backup := None;
              ConfigMerge.customPaths := Some [unflagged];
              ConfigMerge.excludePatterns := None |}
           [unflagged] unflagged "user").
  - reflexivity.
  - reflexivity.
  - left. reflexivity.
  - reflexivity.
Defined.

(** The sweep on the fixture: the old backup file listed first is removed,
    the old directory backup makes [unlink] raise, and the sweep stops
    there, so the old backup file listed after it stays as well. *)
Example cleanupOldBackups_stops_at_directory :
  let st := snd (SecurityOps.cleanupOldBackups (env permissive)
                   (securityOptions (env permissive) real_run) 30 long_ago
                   state_with_old_backups) in
  Fs.lookup (root st) (Fs.segments "/home/u/.ultra-cleaner-backups")
  = Some (Fs.Dir [ ("notes.txt", Fs.File 7 Fs.Opaque);
                   ("b2.backup", fixture);
                   ("b3.backup", Fs.File 64 Fs.Opaque) ]) /\
  last (operationLog st)
  = Some {| lvl := WARN;
            msg := "Failed to cleanup old backups: EISDIR: unlink '/home/u/.ultra-cleaner-backups/b2.backup'" |}.
Proof. vm_compute. split; reflexivity. Qed.

Lemma run_logs_append_only_witness :
  exists outcome st' entries lines,
    run (env permissive) real_run targets state0 = (outcome, st') /\
    operationLog st' = (operationLog state0 ++ entries)%list /\
    logFile st' = (logFile state0 ++ lines)%list /\
    (enableLogging real_run = false -> lines = []).
Proof.
  apply (run_logs_append_only (env permissive) real_run targets state0).
  intros area entries pathInfo [<-|[]] Hlook Hin.
  vm_compute in Hlook. injection Hlook as <-.
  destruct Hin as [<-|[]]. reflexivity.
Defined.

Lemma trackOperation_summary_agrees_with_operations_witness :
  let s := AnalyticsSpec.track_all true tracked
             AnalyticsManager.currentSession0 in
  AnalyticsManager.summary s
  = {| AnalyticsManager.filesCleaned := 3;
       AnalyticsManager.spaceRecovered := 200;
       AnalyticsManager.areasProcessed := 2;
       AnalyticsManager.errors := 1 |} /\
  length (AnalyticsManager.operations s) = 3%nat /\
  AnalyticsManager.spaceRecovered (AnalyticsManager.summary s)
  = AnalyticsSpec.total AnalyticsManager.sizeRecovered
      (AnalyticsSpec.succeeded (AnalyticsManager.operations s)).
Proof.
  cbv zeta.
  destruct (trackOperation_summary_agrees_with_operations tracked)
    as (Hlen & _ & _ & _ & Hspace & _).
  - split; [|vm_compute; repeat split; reflexivity].
    repeat constructor; cbn; lia.
  - split; [reflexivity|]. split; [exact Hlen|exact Hspace].
Defined.

End ExtraWitnesses.
